(** * Thumbnail editor: image-reference normalisation, change-percent
      formatting and the bitmap export pipeline

    A shallow embedding of the TypeScript sources

    - the thumbnail editor with template and format selection
      ([isDataUrl], [isRemoteUrl], [isProxyUrl], [buildProxyUrl],
      [waitForImages], [prepareImageForCapture], [exportWithHtmlToImage],
      [exportWithHtml2Canvas], [formatFilename], [displayCardImage],
      [downloadThumbnail]);
    - the two template renderers [YoutubeThumbnail] and
      [YoutubeThumbnailImpact] (the [normalizedChange] / [changeText]
      computation);
    - the other handlers of the editor ([handleReset], the image URL
      field, the upload callback, the selection buttons) and the export of
      the earlier single-template editor.

    JavaScript strings are sequences of UTF-16 code units and are modelled
    as lists of numbers; exceptions, promises that never settle and the
    React state the handlers close over are modelled explicitly. *)

From Stdlib Require Import List NArith Bool String Ascii Lia Arith.
Import ListNotations.

(* ===================================================================== *)
(** ** JavaScript strings *)
(* ===================================================================== *)

Module JsString.

(** A string value: its UTF-16 code units (each below 65536). *)
Definition jsstring : Type := list N.

(** A source-code string literal (ASCII). *)
Definition js (s : string) : jsstring :=
  map N_of_ascii (list_ascii_of_string s).

(** [a === b] on strings. *)
Fixpoint strictEq (a b : jsstring) : bool :=
  match a, b with
  | [], [] => true
  | x :: a', y :: b' => N.eqb x y && strictEq a' b'
  | _, _ => false
  end.

(** Truthiness of a string: only the empty string is falsy. *)
Definition truthy (s : jsstring) : bool :=
  match s with [] => false | _ :: _ => true end.

(** [a || b] on strings. *)
Definition orElse (a b : jsstring) : jsstring :=
  if truthy a then a else b.

(** [s.startsWith(p)]. *)
Fixpoint startsWith (s p : jsstring) {struct p} : bool :=
  match p, s with
  | [], _ => true
  | _ :: _, [] => false
  | y :: p', x :: s' => N.eqb x y && startsWith s' p'
  end.

(** [s.includes(p)]: [p] occurs at some index of [s]. *)
Fixpoint includes (s p : jsstring) : bool :=
  startsWith s p ||
  match s with
  | [] => false
  | _ :: s' => includes s' p
  end.

(** WhiteSpace and LineTerminator code units, the set [trim] strips. *)
Definition isWhiteSpace (c : N) : bool :=
  existsb (N.eqb c)
    [9; 10; 11; 12; 13; 32; 160; 5760; 8232; 8233; 8239; 8287; 12288; 65279]%N
  || (N.leb 8192 c && N.leb c 8202).

Fixpoint trimStart (s : jsstring) : jsstring :=
  match s with
  | [] => []
  | c :: s' => if isWhiteSpace c then trimStart s' else s
  end.

Definition trimEnd (s : jsstring) : jsstring := rev (trimStart (rev s)).

(** [s.trim()]. *)
Definition trim (s : jsstring) : jsstring := trimEnd (trimStart s).

(** [s.replace(/c/g, r)] for a single-character pattern. *)
Definition replaceAllChar (c : N) (r : jsstring) (s : jsstring) : jsstring :=
  flat_map (fun x => if N.eqb x c then r else [x]) s.

(** [s.replace(/^[+-]/, '')]: at most one match, anchored at index 0. *)
Definition replaceLeadingSign (s : jsstring) : jsstring :=
  match s with
  | c :: s' => if N.eqb c 43 || N.eqb c 45 then s' else s
  | [] => []
  end.

(** Match of one pattern character under the [i] flag.  The pattern
    characters used by the sources are ASCII lower-case letters; without
    the [u] flag a non-ASCII code unit never canonicalises to an ASCII
    one, so only the two ASCII cases match. *)
Definition matchesIgnoreCase (lower c : N) : bool :=
  N.eqb c lower || N.eqb c (lower - 32).

(** The rest of [s] after a case-insensitive match of the letters [p]. *)
Fixpoint dropLettersIgnoreCase (p s : jsstring) {struct p}
  : option jsstring :=
  match p, s with
  | [], _ => Some s
  | _ :: _, [] => None
  | y :: p', x :: s' =>
      if matchesIgnoreCase y x then dropLettersIgnoreCase p' s' else None
  end.

(** The rest of [s] after the literal prefix [p]. *)
Fixpoint dropPrefix (p s : jsstring) {struct p} : option jsstring :=
  match p, s with
  | [], _ => Some s
  | _ :: _, [] => None
  | y :: p', x :: s' => if N.eqb x y then dropPrefix p' s' else None
  end.

(** The rest of [s] after a match of [/^https?:\/\//i], if it matches.
    The optional [s] is greedy, with backtracking. *)
Definition afterScheme (s : jsstring) : option jsstring :=
  match dropLettersIgnoreCase (js "http") s with
  | None => None
  | Some r =>
      match dropLettersIgnoreCase (js "s") r with
      | Some r' =>
          match dropPrefix (js "://") r' with
          | Some r'' => Some r''
          | None => dropPrefix (js "://") r
          end
      | None => dropPrefix (js "://") r
      end
  end.

(** ** Percent-encoding ([encodeURIComponent]) *)

Definition isAlnum (c : N) : bool :=
  (N.leb 48 c && N.leb c 57) || (N.leb 65 c && N.leb c 90)
  || (N.leb 97 c && N.leb c 122).

(** uriUnreserved: alphanumerics and [-_.!~*'()]. *)
Definition uriUnreserved (c : N) : bool :=
  isAlnum c || existsb (N.eqb c) [45; 95; 46; 33; 126; 42; 39; 40; 41]%N.

Definition hexDigit (n : N) : N :=
  if N.ltb n 10 then (48 + n)%N else (55 + n)%N.

Definition percentByte (b : N) : jsstring :=
  [37%N; hexDigit (b / 16); hexDigit (b mod 16)].

Definition utf8 (cp : N) : list N :=
  if N.ltb cp 128 then [cp]
  else if N.ltb cp 2048 then [192 + cp / 64; 128 + cp mod 64]%N
  else if N.ltb cp 65536 then
    [224 + cp / 4096; 128 + (cp / 64) mod 64; 128 + cp mod 64]%N
  else
    [240 + cp / 262144; 128 + (cp / 4096) mod 64;
     128 + (cp / 64) mod 64; 128 + cp mod 64]%N.

Definition percentEncode (cp : N) : jsstring :=
  flat_map percentByte (utf8 cp).

Definition isHighSurrogate (c : N) : bool := N.leb 55296 c && N.leb c 56319.
Definition isLowSurrogate (c : N) : bool := N.leb 56320 c && N.leb c 57343.

(** [encodeURIComponent(s)]; [None] stands for the [URIError] thrown on a
    lone surrogate. *)
Fixpoint encodeURIComponent (s : jsstring) : option jsstring :=
  match s with
  | [] => Some []
  | c :: t =>
      if uriUnreserved c then option_map (cons c) (encodeURIComponent t)
      else if isLowSurrogate c then None
      else if isHighSurrogate c then
        match t with
        | d :: t' =>
            if isLowSurrogate d then
              option_map
                (app (percentEncode
                        (65536 + (c - 55296) * 1024 + (d - 56320))%N))
                (encodeURIComponent t')
            else None
        | [] => None
        end
      else option_map (app (percentEncode c)) (encodeURIComponent t)
  end.

End JsString.
Import JsString.

(* ===================================================================== *)
(** ** Exceptions and promises *)
(* ===================================================================== *)

(** A thrown value (a rejection reason): an [Error] object with its
    [message], or any other value, kept with its text. *)
Inductive thrown : Type :=
| ErrorObject (message : jsstring)
| OtherValue (text : jsstring).

(** How a call or an awaited promise ends: it returns (the promise is
    fulfilled), it throws (the promise is rejected), or the promise never
    settles. *)
Inductive outcome (A : Type) : Type :=
| Return (a : A)
| Throw (e : thrown)
| Hang.
Arguments Return {A} a.
Arguments Throw {A} e.
Arguments Hang {A}.

(** The [URIError] of [encodeURIComponent]. *)
Definition uriError : thrown := ErrorObject (js "URI malformed").

(* ===================================================================== *)
(** ** The editor's enumerations *)
(* ===================================================================== *)

Inductive TrendDirection : Type := up | down.
Inductive TemplateVariant : Type := classic | impact.
Inductive ExportFormat : Type := png | jpeg.

(** The string values of the three literal types. *)
Definition trendString (t : TrendDirection) : jsstring :=
  match t with up => js "up" | down => js "down" end.
Definition templateString (t : TemplateVariant) : jsstring :=
  match t with classic => js "classic" | impact => js "impact" end.
Definition formatString (f : ExportFormat) : jsstring :=
  match f with png => js "png" | jpeg => js "jpeg" end.

(* ===================================================================== *)
(** ** Image reference classification and normalisation *)
(* ===================================================================== *)

Definition isDataUrl (value : jsstring) : bool :=
  startsWith value (js "data:") || startsWith value (js "blob:").

Definition isRemoteUrl (value : jsstring) : bool :=
  match afterScheme value with Some _ => true | None => false end.

Definition isProxyUrl (value : jsstring) : bool :=
  includes value (js "images.weserv.nl/?url=")
  || includes value (js "wsrv.nl/?url=").

(** The fixed relay base. *)
Definition relayBase : jsstring := js "https://images.weserv.nl/?url=".

(** [value.replace(/^https?:\/\//i, '')]. *)
Definition stripScheme (value : jsstring) : jsstring :=
  match afterScheme value with Some rest => rest | None => value end.

Definition buildProxyUrl (value : jsstring) : outcome jsstring :=
  let stripped := stripScheme value in
  match encodeURIComponent stripped with
  | Some encoded => Return (relayBase ++ encoded)
  | None => Throw uriError
  end.

(** The body of the [useMemo] that computes [displayCardImage] from the
    state variables [cardImage] and [useProxy]. *)
Definition displayCardImage (cardImage : jsstring) (useProxy : bool)
  : outcome jsstring :=
  let trimmed := trim cardImage in
  if negb (truthy trimmed) then Return trimmed
  else if negb useProxy || isDataUrl trimmed || isProxyUrl trimmed
       then Return trimmed
  else if isRemoteUrl trimmed then buildProxyUrl trimmed
  else Return trimmed.

Definition formatFilename (trend : TrendDirection) (format : ExportFormat)
  (template : TemplateVariant) : jsstring :=
  js "pokemon-thumbnail-" ++ templateString template ++ js "-"
  ++ trendString trend ++ js "."
  ++ (if strictEq (formatString format) (js "jpeg") then js "jpg" else js "png").

(** The earlier editor component (one template, PNG only, no
    [formatFilename]): the download name it sets on the anchor. *)
Module SingleTemplateEditor.
Definition downloadName (trend : TrendDirection) : jsstring :=
  js "pokemon-thumbnail-" ++ trendString trend ++ js ".png".
End SingleTemplateEditor.

(* ===================================================================== *)
(** ** Change-percent formatting in the two template renderers *)
(* ===================================================================== *)

Module YoutubeThumbnail.
Definition normalizedChange (changePercent : jsstring) : jsstring :=
  orElse (replaceAllChar 37 [] (replaceLeadingSign (trim changePercent)))
         (js "0").
Definition changeText (trend : TrendDirection) (changePercent : jsstring)
  : jsstring :=
  (if strictEq (trendString trend) (js "down") then js "-" else js "+")
  ++ normalizedChange changePercent ++ js "%".
End YoutubeThumbnail.

Module YoutubeThumbnailImpact.
Definition normalizedChange (changePercent : jsstring) : jsstring :=
  orElse (replaceAllChar 37 [] (replaceLeadingSign (trim changePercent)))
         (js "0").
Definition changeText (trend : TrendDirection) (changePercent : jsstring)
  : jsstring :=
  (if strictEq (trendString trend) (js "down") then js "-" else js "+")
  ++ normalizedChange changePercent ++ js "%".
End YoutubeThumbnailImpact.

(** The spec's wording of the change-percent normalisation: strip a leading
    sign and a percent suffix. *)
Module ChangePercentSpec.
Definition isSign (c : N) : bool := N.eqb c 43 || N.eqb c 45.
Definition stripLeadingSign (s : jsstring) : jsstring :=
  match s with
  | c :: s' => if isSign c then s' else s
  | [] => []
  end.
Definition stripPercentSuffix (s : jsstring) : jsstring :=
  match rev s with
  | c :: r => if N.eqb c 37 then rev r else s
  | [] => []
  end.
Definition stripped (s : jsstring) : jsstring :=
  stripPercentSuffix (stripLeadingSign s).
Definition signOf (t : TrendDirection) : jsstring :=
  match t with up => js "+" | down => js "-" end.
(** The text the claim predicts. *)
Definition display (t : TrendDirection) (s : jsstring) : jsstring :=
  signOf t ++ stripped s ++ js "%".
(** What remains of the trimmed input once one leading sign and every
    percent character are removed. *)
Definition digits (s : jsstring) : jsstring :=
  filter (fun c => negb (N.eqb c 37)) (stripLeadingSign (trim s)).
End ChangePercentSpec.

(* ===================================================================== *)
(** ** The browser around the editor *)
(* ===================================================================== *)

(** Handles of DOM elements and of binary blobs. *)
Definition node : Type := N.
Definition blob : Type := N.

Inductive imageEvent : Type := loadEvent | errorEvent.

Definition imageEvent_eqb (a b : imageEvent) : bool :=
  match a, b with
  | loadEvent, loadEvent | errorEvent, errorEvent => true
  | _, _ => false
  end.

(** An [img] element as the readiness waiter sees it: its [complete] and
    [naturalWidth] properties, and the first load or error event dispatched
    to it afterwards ([None]: neither is ever dispatched). *)
Record img : Type := {
  img_id : N;
  img_complete : bool;
  img_naturalWidth : N;
  img_nextEvent : option imageEvent
}.

(** A [fetch] response: its [ok] flag and how [response.blob()] settles. *)
Record response : Type := {
  response_ok : bool;
  response_blob : outcome blob
}.

(** The canvas produced by html2canvas: [toBlob] may be missing; when
    present, its callback receives a blob or [null]. *)
Record canvas : Type := {
  canvas_toBlob : option (jsstring -> outcome (option blob));
  canvas_toDataURL : jsstring -> outcome jsstring
}.

(** What a run can do that is visible outside it. *)
Inductive event : Type :=
| SetCardImage (value : jsstring)
| SetIsDownloading (value : bool)
| Fetched (url : jsstring)
| Listening (image : N)
| Downloaded (dataUrl filename : jsstring)
| Alerted (text : jsstring)
| Warned (e : thrown)
| Errored (e : thrown).

(** The committed state of the editor component that [downloadThumbnail]
    reads or writes, the [previewRef] ref, and the log of events. *)
Record world : Type := {
  cardImage : jsstring;
  useProxy : bool;
  trend : TrendDirection;
  template : TemplateVariant;
  exportFormat : ExportFormat;
  isDownloading : bool;
  previewRef : option node;
  log : list event
}.

(** Everything the pipeline asks of the browser and of the two capture
    libraries, and the handlers of other events that run while an
    activation is suspended at an [await].  During one run each answer
    depends only on the arguments of the call. *)
Record environment : Type := {
  fontsReady : option (outcome unit);
  fetch : jsstring -> outcome response;
  readAsDataURL : blob -> outcome jsstring;
  querySelectorAllImg : node -> list img;
  toPng : option node -> outcome jsstring;
  toJpeg : option node -> outcome jsstring;
  html2canvas : option node -> outcome canvas;
  otherHandlers : world -> world
}.

(** The same browser with no other event arriving during a run. *)
Definition quiet (env : environment) : environment :=
  {| fontsReady := fontsReady env;
     fetch := fetch env;
     readAsDataURL := readAsDataURL env;
     querySelectorAllImg := querySelectorAllImg env;
     toPng := toPng env;
     toJpeg := toJpeg env;
     html2canvas := html2canvas env;
     otherHandlers := fun w => w |}.

(** The same browser with the given handlers run at every suspension. *)
Definition withHandlers (env : environment) (h : world -> world)
  : environment :=
  {| fontsReady := fontsReady env;
     fetch := fetch env;
     readAsDataURL := readAsDataURL env;
     querySelectorAllImg := querySelectorAllImg env;
     toPng := toPng env;
     toJpeg := toJpeg env;
     html2canvas := html2canvas env;
     otherHandlers := h |}.

(* ===================================================================== *)
(** ** A monad for async functions with exceptions *)
(* ===================================================================== *)

(** The state of one activation of [downloadThumbnail]: the world and the
    local variable [shouldRestore]. *)
Record machine : Type := {
  mem : world;
  shouldRestore : bool
}.

Definition M (A : Type) : Type := machine -> outcome A * machine.

Definition ret {A} (a : A) : M A := fun m => (Return a, m).

Definition bind {A B} (c : M A) (k : A -> M B) : M B :=
  fun m =>
    match c m with
    | (Return a, m') => k a m'
    | (Throw e, m') => (Throw e, m')
    | (Hang, m') => (Hang, m')
    end.

Declare Scope async_scope.
Delimit Scope async_scope with async.
Notation "x <- c ;; k" := (bind c (fun x => k))
  (at level 61, c at next level, right associativity) : async_scope.
Notation "c ;; k" := (bind c (fun _ => k))
  (at level 61, right associativity) : async_scope.
Local Open Scope async_scope.

(** The result of a synchronous call. *)
Definition call {A} (r : outcome A) : M A := fun m => (r, m).

(** [try { c } catch (error) { h error }]. *)
Definition tryCatch {A} (c : M A) (h : thrown -> M A) : M A :=
  fun m =>
    match c m with
    | (Throw e, m') => h e m'
    | r => r
    end.

(** [try { c } finally { f }]: [f] runs however [c] completes, and not at
    all when [c] never completes. *)
Definition tryFinally {A} (c : M A) (f : M unit) : M A :=
  fun m =>
    match c m with
    | (Hang, m') => (Hang, m')
    | (r, m') =>
        match f m' with
        | (Return _, m'') => (r, m'')
        | (Throw e, m'') => (Throw e, m'')
        | (Hang, m'') => (Hang, m'')
        end
    end.

Definition setMem (m : machine) (w : world) : machine :=
  {| mem := w; shouldRestore := shouldRestore m |}.

(** The world with more events in its log. *)
Definition extend (w : world) (evs : list event) : world :=
  {| cardImage := cardImage w; useProxy := useProxy w; trend := trend w;
     template := template w; exportFormat := exportFormat w;
     isDownloading := isDownloading w; previewRef := previewRef w;
     log := log w ++ evs |}.

Definition record (ev : event) (w : world) : world := extend w [ev].

Definition emit (ev : event) : M unit :=
  fun m => (Return tt, setMem m (record ev (mem m))).

(** [await p]: the activation is suspended, other handlers may run, and it
    resumes with the way [p] settled. *)
Definition await {A} (env : environment) (p : outcome A) : M A :=
  fun m => (p, setMem m (otherHandlers env (mem m))).

(** [await f(...)] for an async function [f]. *)
Definition awaitCall {A} (env : environment) (c : M A) : M A :=
  a <- c ;; await env (Return a).

Definition withCardImage (w : world) (value : jsstring) : world :=
  {| cardImage := value; useProxy := useProxy w; trend := trend w;
     template := template w; exportFormat := exportFormat w;
     isDownloading := isDownloading w; previewRef := previewRef w;
     log := log w |}.

Definition withIsDownloading (w : world) (value : bool) : world :=
  {| cardImage := cardImage w; useProxy := useProxy w; trend := trend w;
     template := template w; exportFormat := exportFormat w;
     isDownloading := value; previewRef := previewRef w;
     log := log w |}.

Definition setCardImage (value : jsstring) : M unit :=
  fun m =>
    (Return tt,
     setMem m (record (SetCardImage value) (withCardImage (mem m) value))).

Definition setIsDownloading (value : bool) : M unit :=
  fun m =>
    (Return tt,
     setMem m (record (SetIsDownloading value)
                 (withIsDownloading (mem m) value))).

Definition assignShouldRestore (b : bool) : M unit :=
  fun m => (Return tt, {| mem := mem m; shouldRestore := b |}).

Definition readShouldRestore : M bool :=
  fun m => (Return (shouldRestore m), m).

(** [previewRef.current]. *)
Definition readPreviewRef : M (option node) :=
  fun m => (Return (previewRef (mem m)), m).

(* ===================================================================== *)
(** ** The capture-readiness waiter *)
(* ===================================================================== *)

(** [img.complete && img.naturalWidth]. *)
Definition imageReady (i : img) : bool :=
  img_complete i && negb (N.eqb (img_naturalWidth i) 0).

(** The events [done] is registered for. *)
Definition listenedEvents : list imageEvent := [loadEvent; errorEvent].

(** The promise built for one image by the callback of [images.map]: the
    listeners are added when the promise is built; the promise is fulfilled
    when an event [done] listens to is dispatched, and is never rejected. *)
Definition imagePromise (i : img) : M (outcome unit) :=
  if imageReady i then ret (Return tt)
  else
    emit (Listening (img_id i)) ;;
    ret (match img_nextEvent i with
         | Some ev =>
             if existsb (imageEvent_eqb ev) listenedEvents
             then Return tt else Hang
         | None => Hang
         end).

Fixpoint mapM {A B} (f : A -> M B) (l : list A) : M (list B) :=
  match l with
  | [] => ret []
  | a :: l' => b <- f a ;; bs <- mapM f l' ;; ret (b :: bs)
  end.

(** [Promise.all]: rejected as soon as one promise is, fulfilled when all
    are, pending otherwise. *)
Fixpoint firstRejection (ps : list (outcome unit)) : option thrown :=
  match ps with
  | [] => None
  | Throw e :: _ => Some e
  | _ :: ps' => firstRejection ps'
  end.

Definition settled {A} (p : outcome A) : bool :=
  match p with Hang => false | _ => true end.

Definition promiseAll (ps : list (outcome unit)) : outcome unit :=
  match firstRejection ps with
  | Some e => Throw e
  | None => if forallb settled ps then Return tt else Hang
  end.

Definition waitForImages (env : environment) (root : node) : M unit :=
  let images := querySelectorAllImg env root in
  if Nat.eqb (List.length images) 0 then ret tt
  else
    promises <- mapM imagePromise images ;;
    await env (promiseAll promises).

(* ===================================================================== *)
(** ** Capture-time inlining *)
(* ===================================================================== *)

Definition blobToDataUrl (env : environment) (b : blob) : M jsstring :=
  await env (readAsDataURL env b).

(** One iteration of the loop over the candidates: [Some d] when the
    iteration returns [d] from the function, [None] when it continues. *)
Definition inlineCandidate (env : environment) (candidate : jsstring)
  : M (option jsstring) :=
  tryCatch
    (emit (Fetched candidate) ;;
     response <- await env (fetch env candidate) ;;
     if negb (response_ok response) then ret None
     else
       blob <- await env (response_blob response) ;;
       d <- blobToDataUrl env blob ;;
       ret (Some d))
    (fun _ => ret None).

Fixpoint inlineFirst (env : environment) (candidateUrls : list jsstring)
  : M (option jsstring) :=
  match candidateUrls with
  | [] => ret None
  | candidate :: rest =>
      r <- inlineCandidate env candidate ;;
      match r with
      | Some d => ret (Some d)
      | None => inlineFirst env rest
      end
  end.

Definition prepareImageForCapture (env : environment) (value : jsstring)
  (proxyEnabled : bool) : M jsstring :=
  let trimmed := trim value in
  if negb (truthy trimmed) || isDataUrl trimmed
     || startsWith trimmed (js "blob:")
  then ret trimmed
  else if negb (isRemoteUrl trimmed) then ret trimmed
  else
    candidateUrls <-
      (if proxyEnabled
       then proxied <- call (buildProxyUrl trimmed) ;; ret [proxied; trimmed]
       else ret [trimmed]) ;;
    r <- inlineFirst env candidateUrls ;;
    match r with
    | Some d => ret d
    | None => ret trimmed
    end.

(* ===================================================================== *)
(** ** The two capture strategies and the download step *)
(* ===================================================================== *)

Definition downloadDataUrl (dataUrl filename : jsstring) : M unit :=
  emit (Downloaded dataUrl filename).

(** The primary strategy.  The options object (fixed size, pixel ratio,
    background, fetch mode, JPEG quality) goes to the library, whose
    answer for the node is [toPng] or [toJpeg] of the environment. *)
Definition exportWithHtmlToImage (env : environment) (n : option node)
  (format : ExportFormat) : M jsstring :=
  if strictEq (formatString format) (js "jpeg")
  then await env (toJpeg env n)
  else await env (toPng env n).

(** The fallback strategy: render to a canvas, then encode it with
    [toBlob] when the canvas has it and it yields a blob, with [toDataURL]
    otherwise. *)
Definition exportWithHtml2Canvas (env : environment) (n : option node)
  (format : ExportFormat) : M jsstring :=
  cv <- await env (html2canvas env n) ;;
  let mimeType :=
    if strictEq (formatString format) (js "jpeg")
    then js "image/jpeg" else js "image/png" in
  match canvas_toBlob cv with
  | Some toBlob =>
      b <- await env (toBlob mimeType) ;;
      match b with
      | Some b' => blobToDataUrl env b'
      | None => call (canvas_toDataURL cv mimeType)
      end
  | None => call (canvas_toDataURL cv mimeType)
  end.

(* ===================================================================== *)
(** ** The export pipeline *)
(* ===================================================================== *)

(** [error instanceof Error ? error.message : 'Unknown error']. *)
Definition errorMessage (error : thrown) : jsstring :=
  match error with
  | ErrorObject message => message
  | OtherValue _ => js "Unknown error"
  end.

Definition failureAlert (error : thrown) : jsstring :=
  js "Download failed. Enable the image proxy or upload the image instead of using a URL. ("
  ++ errorMessage error ++ js ")".

(** The statements of the outer [try] block up to the image-ready wait:
    font wait, inlining, swap of the displayed image, image-ready wait.
    The animation frame awaited after the swap is taken to fire. *)
Definition beforeCapture (env : environment) (cardImage0 : jsstring)
  (useProxy0 : bool) : M unit :=
  (match fontsReady env with
   | Some ready => await env ready
   | None => ret tt
   end) ;;
  preparedImage <-
    awaitCall env (prepareImageForCapture env cardImage0 useProxy0) ;;
  (if truthy preparedImage && negb (strictEq preparedImage cardImage0)
   then
     setCardImage preparedImage ;;
     assignShouldRestore true ;;
     await env (Return tt)
   else ret tt) ;;
  current <- readPreviewRef ;;
  match current with
  | Some root => awaitCall env (waitForImages env root)
  | None => ret tt
  end.

(** The rest of the outer [try] block: the primary strategy in its own
    [try], which returns from the handler when it succeeds, then the
    fallback strategy. *)
Definition captureAndDownload (env : environment) (format0 : ExportFormat)
  (filename : jsstring) : M unit :=
  returned <-
    tryCatch
      (current <- readPreviewRef ;;
       dataUrl <- awaitCall env (exportWithHtmlToImage env current format0) ;;
       downloadDataUrl dataUrl filename ;;
       ret true)
      (fun error => emit (Warned error) ;; ret false) ;;
  if returned : bool then ret tt
  else
    current <- readPreviewRef ;;
    fallbackUrl <- awaitCall env (exportWithHtml2Canvas env current format0) ;;
    downloadDataUrl fallbackUrl filename.

(** The [finally] block. *)
Definition cleanup (originalImage : jsstring) : M unit :=
  restore <- readShouldRestore ;;
  (if restore : bool then setCardImage originalImage else ret tt) ;;
  setIsDownloading false.

(** The activation of [downloadThumbnail] once the guard is passed.  The
    arguments are the values the handler closes over: the state variables
    of the render it belongs to. *)
Definition exportRun (env : environment) (cardImage0 : jsstring)
  (useProxy0 : bool) (trend0 : TrendDirection) (format0 : ExportFormat)
  (template0 : TemplateVariant) : M unit :=
  setIsDownloading true ;;
  let originalImage := cardImage0 in
  assignShouldRestore false ;;
  tryFinally
    (tryCatch
       (beforeCapture env cardImage0 useProxy0 ;;
        let filename := formatFilename trend0 format0 template0 in
        captureAndDownload env format0 filename)
       (fun error =>
          emit (Errored error) ;;
          emit (Alerted (failureAlert error))))
    (cleanup originalImage).

(** A fresh activation in the world [w]. *)
Definition activation (w : world) : machine :=
  {| mem := w; shouldRestore := false |}.

(** The click handler of the render that committed [w]: it closes over
    the state variables of [w], while [previewRef.current] and the state
    setters act on the current world. *)
Definition downloadThumbnail (env : environment) (w : world)
  : outcome unit * world :=
  match previewRef w with
  | None => (Return tt, w)
  | Some _ =>
      if isDownloading w then (Return tt, w)
      else
        let (r, m) :=
          exportRun env (cardImage w) (useProxy w) (trend w)
            (exportFormat w) (template w) (activation w) in
        (r, mem m)
  end.

(** The events a run added to the log. *)
Definition newEvents (before after : world) : list event :=
  skipn (List.length (log before)) (log after).

(** The events of a log of each kind. *)
Definition downloads (l : list event) : list (jsstring * jsstring) :=
  flat_map (fun ev => match ev with
                      | Downloaded d f => [(d, f)]
                      | _ => []
                      end) l.

Definition alerts (l : list event) : list jsstring :=
  flat_map (fun ev => match ev with Alerted t => [t] | _ => [] end) l.

Definition fetches (l : list event) : list jsstring :=
  flat_map (fun ev => match ev with Fetched u => [u] | _ => [] end) l.

Definition cardImageWrites (l : list event) : list jsstring :=
  flat_map (fun ev => match ev with SetCardImage v => [v] | _ => [] end) l.

Definition listenedImages (l : list event) : list N :=
  flat_map (fun ev => match ev with Listening i => [i] | _ => [] end) l.

(* ===================================================================== *)
(** ** Notions used in the statements *)
(* ===================================================================== *)

(** The machine with more events in the log of its world. *)
Definition pushEvents (m : machine) (evs : list event) : machine :=
  setMem m (extend (mem m) evs).

(** A computation that, from every machine, ends the same way [r] and
    only adds the events [evs] to the log. *)
Definition uniform {A : Type} (c : M A) (r : outcome A) (evs : list event)
  : Prop :=
  forall m, c m = (r, pushEvents m evs).

(** One candidate of the inlining loop: its fetch gives an ok response
    whose body is read and converted to the data URL [d]. *)
Inductive inlines (env : environment) (candidate : jsstring)
  : jsstring -> Prop :=
| inlines_ok (resp : response) (b : blob) (d : jsstring) :
    fetch env candidate = Return resp ->
    response_ok resp = true ->
    response_blob resp = Return b ->
    readAsDataURL env b = Return d ->
    inlines env candidate d.

(** One candidate of the inlining loop fails: network error, non-ok
    status, or a body that cannot be read or converted. *)
Inductive fails (env : environment) (candidate : jsstring) : Prop :=
| fails_network (e : thrown) :
    fetch env candidate = Throw e -> fails env candidate
| fails_status (resp : response) :
    fetch env candidate = Return resp ->
    response_ok resp = false -> fails env candidate
| fails_body (resp : response) (e : thrown) :
    fetch env candidate = Return resp ->
    response_ok resp = true ->
    response_blob resp = Throw e -> fails env candidate
| fails_conversion (resp : response) (b : blob) (e : thrown) :
    fetch env candidate = Return resp ->
    response_ok resp = true ->
    response_blob resp = Return b ->
    readAsDataURL env b = Throw e -> fails env candidate.

(** The machine in which the outer [try] block starts. *)
Definition started (w : world) : machine :=
  snd ((setIsDownloading true ;; assignShouldRestore false) (activation w)).

(** How the steps before the capture, the primary strategy and the
    fallback strategy end in a run started in [w] with no other event
    arriving. *)
Definition preludeOutcome (env : environment) (w : world) : outcome unit :=
  fst (beforeCapture (quiet env) (cardImage w) (useProxy w) (started w)).

Definition primaryOutcome (env : environment) (w : world) : outcome jsstring :=
  fst (exportWithHtmlToImage (quiet env) (previewRef w) (exportFormat w)
         (started w)).

Definition fallbackOutcome (env : environment) (w : world) : outcome jsstring :=
  fst (exportWithHtml2Canvas (quiet env) (previewRef w) (exportFormat w)
         (started w)).

(** The handler of the render that committed [closure], invoked while the
    editor is in the world [current].  The guard reads the ref, which is
    live, and the [isDownloading] constant of the closure; the run works
    with the state variables of the closure, and the setters act on the
    current world.  [downloadThumbnail env w] is the case where the
    handler is invoked in the world its render committed. *)
Definition downloadThumbnailOf (env : environment) (closure current : world)
  : outcome unit * world :=
  match previewRef current with
  | None => (Return tt, current)
  | Some _ =>
      if isDownloading closure then (Return tt, current)
      else
        let (r, m) :=
          exportRun env (cardImage closure) (useProxy closure)
            (trend closure) (exportFormat closure) (template closure)
            (activation current) in
        (r, mem m)
  end.

(** A click handled after React has rendered again: by the handler of
    the render that committed the world the click arrives in. *)
Definition rerenderedRequest (env : environment) (w : world) : world :=
  snd (downloadThumbnail env w).

(** A second invocation of the handler of the render that committed
    [closure], arriving in the world [current]: the same closure is
    called again, before React has rendered with the flag set. *)
Definition secondRequest (env : environment) (closure current : world)
  : world :=
  snd (downloadThumbnailOf env closure current).

(** The first invocation is suspended for the first time: so far it has
    logged one event, the setting of the flag. *)
Definition atFirstSuspension (closure current : world) : bool :=
  Nat.eqb (List.length (log current)) (S (List.length (log closure))).

(** One second invocation of the same handler, at the first suspension
    of the first. *)
Definition secondRequestOnce (env : environment) (closure current : world)
  : world :=
  if atFirstSuspension closure current
  then secondRequest env closure current
  else current.

(** Every code unit of a string value is below 65536. *)
Definition wellFormed (s : jsstring) : Prop :=
  Forall (fun c => (c < 65536)%N) s.

Definition noWhiteSpace (s : jsstring) : bool :=
  forallb (fun c => negb (isWhiteSpace c)) s.

(** [x] is the letter [y] in either case. *)
Definition sameLetter (y x : N) : Prop := x = y \/ x = (y - 32)%N.

(** The filename pattern of the spec. *)
Module FilenameSpec.
Definition pattern (tpl : TemplateVariant) (t : TrendDirection)
  (f : ExportFormat) : jsstring :=
  js "pokemon-thumbnail-"
  ++ match tpl with classic => js "classic" | impact => js "impact" end
  ++ js "-"
  ++ match t with up => js "up" | down => js "down" end
  ++ js "."
  ++ match f with png => js "png" | jpeg => js "jpg" end.
End FilenameSpec.

Definition isFetched (ev : event) : Prop :=
  match ev with Fetched _ => True | _ => False end.

(** Events that are neither a download, nor an alert, nor a write of the
    image reference. *)
Definition silent (ev : event) : Prop :=
  match ev with Fetched _ | Listening _ => True | _ => False end.

(** The images the waiter listens to. *)
Definition waitedImages (images : list img) : list img :=
  filter (fun i => negb (imageReady i)) images.

Definition hasNextEvent (i : img) : bool :=
  match img_nextEvent i with Some _ => true | None => false end.

(** How the promise built for an image settles. *)
Definition imageSettles (i : img) : outcome unit :=
  if imageReady i || hasNextEvent i then Return tt else Hang.

(** How the two strategies together end, and what they log. *)
Definition captureResult (P F : outcome jsstring) : outcome unit :=
  match P with
  | Return _ => Return tt
  | Hang => Hang
  | Throw _ =>
      match F with
      | Return _ => Return tt
      | Throw e => Throw e
      | Hang => Hang
      end
  end.

Definition captureLog (P F : outcome jsstring) (filename : jsstring)
  : list event :=
  match P with
  | Return u => [Downloaded u filename]
  | Hang => []
  | Throw e1 =>
      Warned e1 :: match F with
                   | Return u => [Downloaded u filename]
                   | _ => []
                   end
  end.

(** How the [try]/[catch] statement of the handler ends, and the events of
    the capture, of the download and of the failure report. *)
Definition tryResult (pre : outcome unit) (P F : outcome jsstring)
  : outcome unit :=
  match pre with
  | Throw _ => Return tt
  | Hang => Hang
  | Return _ =>
      match captureResult P F with
      | Throw _ => Return tt
      | r => r
      end
  end.

Definition tryLog (pre : outcome unit) (P F : outcome jsstring)
  (filename : jsstring) : list event :=
  match pre with
  | Throw x => [Errored x; Alerted (failureAlert x)]
  | Hang => []
  | Return _ =>
      captureLog P F filename
      ++ match captureResult P F with
         | Throw e => [Errored e; Alerted (failureAlert e)]
         | _ => []
         end
  end.

Definition restoreLog (sw : option jsstring) (original : jsstring)
  : list event :=
  match sw with Some _ => [SetCardImage original] | None => [] end.

(** A computation that ends from every machine. *)
Definition settles {A : Type} (c : M A) : Prop :=
  forall m, fst (c m) <> Hang.

(** A browser in which every awaited promise settles: the font-ready
    promise, every fetch, body read and file read, the two capture
    libraries and the canvas encoder; and every image that is not ready
    gets a load or an error event. *)
Record settling (env : environment) : Prop := {
  fonts_settle : fontsReady env <> Some Hang;
  fetch_settles : forall url, fetch env url <> Hang;
  body_settles :
    forall url resp, fetch env url = Return resp -> response_blob resp <> Hang;
  reader_settles : forall b, readAsDataURL env b <> Hang;
  images_settle :
    forall root i, In i (querySelectorAllImg env root) ->
                   imageReady i = true \/ img_nextEvent i <> None;
  toPng_settles : forall n, toPng env n <> Hang;
  toJpeg_settles : forall n, toJpeg env n <> Hang;
  html2canvas_settles : forall n, html2canvas env n <> Hang;
  canvas_settles :
    forall n cv mime, html2canvas env n = Return cv ->
      canvas_toDataURL cv mime <> Hang
      /\ forall toBlob, canvas_toBlob cv = Some toBlob -> toBlob mime <> Hang
}.

(** An export is in flight. *)
Definition inFlight (m : machine) : Prop := isDownloading (mem m) = true.

(** Two computations that, while an export is in flight, do the same and
    leave it in flight. *)
Definition agree {A : Type} (c1 c0 : M A) : Prop :=
  forall m, inFlight m -> c1 m = c0 m /\ inFlight (snd (c0 m)).

(* ===================================================================== *)
(** ** Scenarios *)
(* ===================================================================== *)

Module Scenario.

(** The editor after a reset, mounted, with nothing in flight: a remote
    image, the proxy enabled, the classic template, PNG. *)
Definition defaults : world :=
  {| cardImage := js "https://images.unsplash.com/photo-1606502281004-f86cf1282af5?w=400&h=600&fit=crop";
     useProxy := true;
     trend := up;
     template := classic;
     exportFormat := png;
     isDownloading := false;
     previewRef := Some 1%N;
     log := [] |}.

(** A remote image with the proxy disabled, impact template, JPEG. *)
Definition directUrl : world :=
  {| cardImage := js "https://cards.example/charizard.png";
     useProxy := false;
     trend := down;
     template := impact;
     exportFormat := jpeg;
     isDownloading := false;
     previewRef := Some 1%N;
     log := [] |}.

(** The card image, loaded, and a chart image that fails to load. *)
Definition twoImages : list img :=
  [ {| img_id := 1; img_complete := true; img_naturalWidth := 400;
       img_nextEvent := None |};
    {| img_id := 2; img_complete := false; img_naturalWidth := 0;
       img_nextEvent := Some errorEvent |} ].

(** The relay serves the image; everything works. *)
Definition relayWorks : environment :=
  {| fontsReady := Some (Return tt);
     fetch := fun url =>
       if startsWith url relayBase
       then Return {| response_ok := true; response_blob := Return 7%N |}
       else Throw (ErrorObject (js "Failed to fetch"));
     readAsDataURL := fun _ => Return (js "data:image/png;base64,Q0FSRA==");
     querySelectorAllImg := fun _ => twoImages;
     toPng := fun _ => Return (js "data:image/png;base64,UE5H");
     toJpeg := fun _ => Return (js "data:image/jpeg;base64,SlBH");
     html2canvas := fun _ =>
       Return {| canvas_toBlob := None;
                 canvas_toDataURL := fun _ =>
                   Return (js "data:image/png;base64,Q0FOVkFT") |};
     otherHandlers := fun w => w |}.

(** As [relayWorks], but the primary strategy fails. *)
Definition primaryFails : environment :=
  {| fontsReady := fontsReady relayWorks;
     fetch := fetch relayWorks;
     readAsDataURL := readAsDataURL relayWorks;
     querySelectorAllImg := querySelectorAllImg relayWorks;
     toPng := fun _ => Throw (ErrorObject (js "oklch is not supported"));
     toJpeg := fun _ => Throw (ErrorObject (js "oklch is not supported"));
     html2canvas := html2canvas relayWorks;
     otherHandlers := fun w => w |}.

(** As [relayWorks], but both strategies fail with an [Error]. *)
Definition bothFail : environment :=
  {| fontsReady := fontsReady relayWorks;
     fetch := fetch relayWorks;
     readAsDataURL := readAsDataURL relayWorks;
     querySelectorAllImg := querySelectorAllImg relayWorks;
     toPng := fun _ => Throw (ErrorObject (js "oklch is not supported"));
     toJpeg := fun _ => Throw (ErrorObject (js "oklch is not supported"));
     html2canvas := fun _ => Throw (ErrorObject (js "Tainted canvas"));
     otherHandlers := fun w => w |}.

(** The remote host refuses cross-origin reads: no fetch succeeds and
    both strategies reject with a value that is not an [Error]. *)
Definition taintedCapture : environment :=
  {| fontsReady := Some (Return tt);
     fetch := fun _ => Throw (ErrorObject (js "Failed to fetch"));
     readAsDataURL := fun _ => Throw (ErrorObject (js "NotReadableError"));
     querySelectorAllImg := fun _ => twoImages;
     toPng := fun _ => Throw (OtherValue (js "tainted canvas"));
     toJpeg := fun _ => Throw (OtherValue (js "tainted canvas"));
     html2canvas := fun _ => Throw (OtherValue (js "tainted canvas"));
     otherHandlers := fun w => w |}.

(** The relay answers, but its body cannot be converted; the host
    itself serves the image. *)
Definition relayBodyUnreadable : environment :=
  {| fontsReady := Some (Return tt);
     fetch := fun url =>
       if startsWith url relayBase
       then Return {| response_ok := true; response_blob := Return 7%N |}
       else Return {| response_ok := true; response_blob := Return 8%N |};
     readAsDataURL := fun b =>
       if N.eqb b 7 then Throw (ErrorObject (js "NotReadableError"))
       else Return (js "data:image/png;base64,SE9TVA==");
     querySelectorAllImg := fun _ => twoImages;
     toPng := fun _ => Return (js "data:image/png;base64,UE5H");
     toJpeg := fun _ => Return (js "data:image/jpeg;base64,SlBH");
     html2canvas := fun _ => Throw (ErrorObject (js "unused"));
     otherHandlers := fun w => w |}.

End Scenario.

(* ===================================================================== *)
(** ** Further notions: the proxied form and the inlining candidates *)
(* ===================================================================== *)

(** The code units [encodeURIComponent] can produce: the unreserved ones
    and the percent sign of an escape. *)
Definition uriSafe (c : N) : bool := uriUnreserved c || N.eqb c 37.

(** No code unit of the string is a surrogate. *)
Definition surrogateFree (s : jsstring) : bool :=
  forallb (fun c => negb (isHighSurrogate c || isLowSurrogate c)) s.

(** The three ways the first code unit of a string is encoded: as itself,
    as the escape of its code point, or, with the low surrogate that
    follows it, as the escape of the code point of the pair. *)
Inductive encodedHead (c : N) (t e : jsstring) : Prop :=
| head_unreserved (e1 : jsstring) :
    uriUnreserved c = true -> encodeURIComponent t = Some e1 ->
    e = c :: e1 -> encodedHead c t e
| head_escape (e1 : jsstring) :
    uriUnreserved c = false -> (c < 65536)%N ->
    encodeURIComponent t = Some e1 ->
    e = percentEncode c ++ e1 -> encodedHead c t e
| head_pair (d : N) (t' e1 : jsstring) :
    uriUnreserved c = false -> t = d :: t' ->
    (55296 <= c <= 56319)%N -> (56320 <= d <= 57343)%N ->
    encodeURIComponent t' = Some e1 ->
    e = percentEncode (65536 + (c - 55296) * 1024 + (d - 56320))%N ++ e1 ->
    encodedHead c t e.

(** The value of [candidateUrls] in [prepareImageForCapture] when the loop
    is reached; no candidate otherwise. *)
Definition candidates (value : jsstring) (proxyEnabled : bool)
  : list jsstring :=
  let trimmed := trim value in
  if isRemoteUrl trimmed then
    if proxyEnabled then
      match buildProxyUrl trimmed with
      | Return proxied => [proxied; trimmed]
      | _ => []
      end
    else [trimmed]
  else [].

(* ===================================================================== *)
(** ** Further notions: the steps of a run *)
(* ===================================================================== *)

(** How the font wait ends. *)
Definition fontOutcome (env : environment) : outcome unit :=
  match fontsReady env with
  | Some ready => ready
  | None => Return tt
  end.

(** [preparedImage && preparedImage !== cardImage]. *)
Definition swaps (preparedImage cardImage0 : jsstring) : bool :=
  truthy preparedImage && negb (strictEq preparedImage cardImage0).

(** How the image-ready wait on the preview root ends, and the listeners
    it registers. *)
Definition waitOutcome (env : environment) (root : node) : outcome unit :=
  if forallb hasNextEvent (waitedImages (querySelectorAllImg env root))
  then Return tt else Hang.

Definition waitLog (env : environment) (root : node) : list event :=
  map (fun j => Listening (img_id j))
    (waitedImages (querySelectorAllImg env root)).

(** The steps before the capture, from the way the font wait, the
    inlining and the image-ready wait end: how they end together, the
    reference they swap in, and their events. *)
Definition stepsResult (fonts : outcome unit) (inlined : outcome jsstring)
  (waited : outcome unit) : outcome unit :=
  match fonts with
  | Return _ =>
      match inlined with
      | Return _ => waited
      | Throw x => Throw x
      | Hang => Hang
      end
  | Throw x => Throw x
  | Hang => Hang
  end.

Definition stepsSwap (fonts : outcome unit) (inlined : outcome jsstring)
  (original : jsstring) : option jsstring :=
  match fonts, inlined with
  | Return _, Return p => if swaps p original then Some p else None
  | _, _ => None
  end.

Definition stepsLog (fonts : outcome unit) (inlined : outcome jsstring)
  (fetched : list event) (original : jsstring) (listening : list event)
  : list event :=
  match fonts with
  | Return _ =>
      fetched
      ++ match inlined with
         | Return p =>
             (if swaps p original then [SetCardImage p] else [])
             ++ listening
         | _ => []
         end
  | _ => []
  end.

(** The world in which a run that never completes is left: the flag set,
    the swapped reference displayed. *)
Definition suspended (w : world) (sw : option jsstring) : world :=
  match sw with
  | Some p => withCardImage (withIsDownloading w true) p
  | None => withIsDownloading w true
  end.

(** A preview whose card image has already failed to load when the
    export starts: the element is complete with no natural width, and no
    further load or error event is dispatched to it. *)
Module ScenarioBrokenImage.

Definition images : list img :=
  [ {| img_id := 1; img_complete := true; img_naturalWidth := 0;
       img_nextEvent := None |} ].

Definition browser : environment :=
  {| fontsReady := Some (Return tt);
     fetch := fun _ => Throw (ErrorObject (js "Failed to fetch"));
     readAsDataURL := fun _ => Throw (ErrorObject (js "NotReadableError"));
     querySelectorAllImg := fun _ => images;
     toPng := fun _ => Return (js "data:image/png;base64,UE5H");
     toJpeg := fun _ => Return (js "data:image/jpeg;base64,SlBH");
     html2canvas := fun _ => Throw (ErrorObject (js "unused"));
     otherHandlers := fun w => w |}.


(** The editor with an uploaded image. *)
Definition uploaded : world :=
  {| cardImage := js "data:image/png;base64,Q0FSRA==";
     useProxy := true;
     trend := down;
     template := impact;
     exportFormat := jpeg;
     isDownloading := false;
     previewRef := Some 1%N;
     log := [] |}.

End ScenarioBrokenImage.

(* ===================================================================== *)
(** ** The other handlers of the editor *)
(* ===================================================================== *)

Definition withUseProxy (w : world) (value : bool) : world :=
  {| cardImage := cardImage w; useProxy := value; trend := trend w;
     template := template w; exportFormat := exportFormat w;
     isDownloading := isDownloading w; previewRef := previewRef w;
     log := log w |}.

Definition withTrend (w : world) (value : TrendDirection) : world :=
  {| cardImage := cardImage w; useProxy := useProxy w; trend := value;
     template := template w; exportFormat := exportFormat w;
     isDownloading := isDownloading w; previewRef := previewRef w;
     log := log w |}.

Definition withTemplate (w : world) (value : TemplateVariant) : world :=
  {| cardImage := cardImage w; useProxy := useProxy w; trend := trend w;
     template := value; exportFormat := exportFormat w;
     isDownloading := isDownloading w; previewRef := previewRef w;
     log := log w |}.

Definition withExportFormat (w : world) (value : ExportFormat) : world :=
  {| cardImage := cardImage w; useProxy := useProxy w; trend := trend w;
     template := template w; exportFormat := value;
     isDownloading := isDownloading w; previewRef := previewRef w;
     log := log w |}.

(** The text fields of the editor, state variables that the export
    neither reads nor writes. *)
Record captions : Type := {
  title : jsstring;
  subtitle : jsstring;
  price : jsstring;
  beforePrice : jsstring;
  changePercent : jsstring;
  timeframe : jsstring
}.

(** The state the component is mounted with: the initial values of the
    [useState] calls; the log is empty and the preview root is the one
    the first commit attaches. *)
Definition mounted (root : option node) : world * captions :=
  ({| cardImage := js "https://images.unsplash.com/photo-1606502281004-f86cf1282af5?w=400&h=600&fit=crop";
      useProxy := true;
      trend := up;
      template := classic;
      exportFormat := png;
      isDownloading := false;
      previewRef := root;
      log := [] |},
   {| title := js "WEEKLY PRICE SHOCK";
      subtitle := js "POKEMON CARD WATCH";
      price := js "$1,250";
      beforePrice := js "$100";
      changePercent := js "375";
      timeframe := js "IN 7 DAYS" |}).

(** [handleReset]: the eleven setter calls, in order. *)
Definition handleReset (st : world * captions) : world * captions :=
  let w := fst st in
  let w := withTrend w up in
  let w := withTemplate w classic in
  let w :=
    record (SetCardImage (js "https://images.unsplash.com/photo-1606502281004-f86cf1282af5?w=400&h=600&fit=crop"))
      (withCardImage w (js "https://images.unsplash.com/photo-1606502281004-f86cf1282af5?w=400&h=600&fit=crop")) in
  let c := {| title := js "WEEKLY PRICE SHOCK";
              subtitle := js "POKEMON CARD WATCH";
              price := js "$1,250";
              beforePrice := js "$100";
              changePercent := js "375";
              timeframe := js "IN 7 DAYS" |} in
  let w := withUseProxy w true in
  let w := withExportFormat w png in
  (w, c).

(** The image URL text field:
    [onChange={(e) => setCardImage(e.target.value)}]. *)
Definition onImageUrlChange (value : jsstring) (w : world) : world :=
  record (SetCardImage value) (withCardImage w value).

(** The [onload] callback of the reader in [handleImageUpload];
    [result] is [event.target?.result]. *)
Definition onUploadLoaded (result : option jsstring) (w : world) : world :=
  match result with
  | Some r =>
      if truthy r then record (SetCardImage r) (withCardImage w r) else w
  | None => w
  end.

(** The proxy checkbox, the template, trend and format buttons. *)
Definition onUseProxyChange (checked : bool) (w : world) : world :=
  withUseProxy w checked.
Definition onTemplateClick (value : TemplateVariant) (w : world) : world :=
  withTemplate w value.
Definition onTrendClick (value : TrendDirection) (w : world) : world :=
  withTrend w value.
Definition onFormatClick (value : ExportFormat) (w : world) : world :=
  withExportFormat w value.

(** The reset button pressed while the text fields hold [c]. *)
Definition onResetClick (c : captions) (w : world) : world :=
  fst (handleReset (w, c)).

(** The change text the preview shows: the renderer selected by the
    template, given the trend and the change-percent field. *)
Definition previewChangeText (w : world) (c : captions) : jsstring :=
  match template w with
  | classic => YoutubeThumbnail.changeText (trend w) (changePercent c)
  | impact => YoutubeThumbnailImpact.changeText (trend w) (changePercent c)
  end.

(* ===================================================================== *)
(** ** Further notions: edits made while an export is running *)
(* ===================================================================== *)

(** Handlers that leave the preview root attached and the in-progress
    flag as it is, and that neither download nor alert. *)
Record unobtrusive (h : world -> world) : Prop := {
  keeps_root : forall w, previewRef (h w) = previewRef w;
  keeps_flag : forall w, isDownloading (h w) = isDownloading w;
  keeps_downloads : forall w, downloads (log (h w)) = downloads (log w);
  keeps_alerts : forall w, alerts (log (h w)) = alerts (log w)
}.

(** Two activations at the same point of a run, one of them disturbed by
    edits: they agree on everything but the editable state. *)
Definition alike (m1 m0 : machine) : Prop :=
  shouldRestore m1 = shouldRestore m0
  /\ previewRef (mem m1) = previewRef (mem m0)
  /\ isDownloading (mem m1) = isDownloading (mem m0)
  /\ downloads (log (mem m1)) = downloads (log (mem m0))
  /\ alerts (log (mem m1)) = alerts (log (mem m0)).

Definition simulates {A : Type} (c1 c0 : M A) : Prop :=
  forall m1 m0, alike m1 m0 ->
    fst (c1 m1) = fst (c0 m0) /\ alike (snd (c1 m1)) (snd (c0 m0)).

(* ===================================================================== *)
(** ** The export of the single-template editor *)
(* ===================================================================== *)

(** [downloadThumbnail] of the earlier editor component: one capture
    strategy, PNG only, no inlining and no swap, and an alert with a fixed
    text.  The component has no template and no format state; those
    fields of the world are left alone. *)
Module SingleTemplateExport.

Definition failureAlert : jsstring :=
  js "Download failed. Enable the image proxy or upload the image instead of using a URL.".

Definition exportRun (env : environment) (trend0 : TrendDirection) : M unit :=
  setIsDownloading true ;;
  tryFinally
    (tryCatch
       ((match fontsReady env with
         | Some ready => await env ready
         | None => ret tt
         end) ;;
        current <- readPreviewRef ;;
        cv <- await env (html2canvas env current) ;;
        href <- call (canvas_toDataURL cv (js "image/png")) ;;
        emit (Downloaded href (SingleTemplateEditor.downloadName trend0)))
       (fun error =>
          emit (Errored error) ;;
          emit (Alerted failureAlert)))
    (setIsDownloading false).

Definition downloadThumbnail (env : environment) (w : world)
  : outcome unit * world :=
  match previewRef w with
  | None => (Return tt, w)
  | Some _ =>
      if isDownloading w then (Return tt, w)
      else
        let (r, m) := exportRun env (trend w) (activation w) in
        (r, mem m)
  end.

(** What the capture of the preview gives in a browser with no other
    event: the data URL of the canvas, an error, or nothing ever. *)
Definition captureOutcome (env : environment) (w : world)
  : outcome jsstring :=
  match fontOutcome env with
  | Return _ =>
      match html2canvas env (previewRef w) with
      | Return cv => canvas_toDataURL cv (js "image/png")
      | Throw x => Throw x
      | Hang => Hang
      end
  | Throw x => Throw x
  | Hang => Hang
  end.

End SingleTemplateExport.

(* ===================================================================== *)
(** * Properties *)
(* ===================================================================== *)

(** ** Strings *)

Section StringFacts.

Lemma strictEq_eq (a b : jsstring) : strictEq a b = true <-> a = b.
Proof.
  revert b; induction a as [|x a IH]; intros [|y b]; simpl;
    try (split; (discriminate || reflexivity)).
  rewrite andb_true_iff, N.eqb_eq, IH.
  split; [intros [-> ->]; reflexivity | intros E; inversion E; auto].
Qed.

Lemma strictEq_refl (a : jsstring) : strictEq a a = true.
Proof. apply strictEq_eq; reflexivity. Qed.

Lemma startsWith_app (p x : jsstring) : startsWith (p ++ x) p = true.
Proof.
  induction p as [|c p IH]; simpl; [reflexivity|].
  rewrite N.eqb_refl; exact IH.
Qed.

Lemma includes_startsWith (s p : jsstring) :
  startsWith s p = true -> includes s p = true.
Proof. intros H; destruct s; simpl; rewrite H; reflexivity. Qed.

Lemma includes_app (a p x : jsstring) : includes (a ++ p ++ x) p = true.
Proof.
  induction a as [|c a IH].
  - cbn [app]; apply includes_startsWith, startsWith_app.
  - simpl; rewrite IH; apply orb_true_r.
Qed.

Lemma trimStart_idempotent (s : jsstring) :
  trimStart (trimStart s) = trimStart s.
Proof.
  induction s as [|c s IH]; simpl; [reflexivity|].
  destruct (isWhiteSpace c) eqn:E; [exact IH|].
  simpl; rewrite E; reflexivity.
Qed.

Lemma trimStart_snoc (x : jsstring) (c : N) :
  isWhiteSpace c = false -> trimStart (x ++ [c]) = trimStart x ++ [c].
Proof.
  intros H; induction x as [|d x IH]; simpl.
  - rewrite H; reflexivity.
  - destruct (isWhiteSpace d); [exact IH | reflexivity].
Qed.

Lemma trimEnd_idempotent (s : jsstring) : trimEnd (trimEnd s) = trimEnd s.
Proof.
  unfold trimEnd; rewrite rev_involutive, trimStart_idempotent; reflexivity.
Qed.

Lemma trimStart_trimEnd (s : jsstring) :
  trimStart s = s -> trimStart (trimEnd s) = trimEnd s.
Proof.
  destruct s as [|c s]; [reflexivity|].
  simpl; destruct (isWhiteSpace c) eqn:E.
  - intros H. exfalso.
    assert (L : forall t, (List.length (trimStart t) <= List.length t)%nat).
    { induction t as [|d t IH]; simpl; [lia|].
      destruct (isWhiteSpace d); simpl; lia. }
    specialize (L s); rewrite H in L; simpl in L; lia.
  - intros _. unfold trimEnd; simpl rev.
    rewrite (trimStart_snoc _ _ E), rev_app_distr; simpl.
    rewrite E; reflexivity.
Qed.

Lemma trim_idempotent (s : jsstring) : trim (trim s) = trim s.
Proof.
  unfold trim.
  rewrite (trimStart_trimEnd (trimStart s) (trimStart_idempotent s)).
  apply trimEnd_idempotent.
Qed.

Lemma trimEnd_snoc (x : jsstring) (c : N) :
  isWhiteSpace c = false -> trimEnd (x ++ [c]) = x ++ [c].
Proof.
  intros H; unfold trimEnd.
  rewrite rev_app_distr; simpl; rewrite H; simpl.
  rewrite rev_involutive; reflexivity.
Qed.

Lemma replaceAllChar_filter (c : N) (s : jsstring) :
  replaceAllChar c [] s = filter (fun x => negb (N.eqb x c)) s.
Proof.
  unfold replaceAllChar; induction s as [|x s IH]; simpl; [reflexivity|].
  destruct (N.eqb x c); simpl; rewrite IH; reflexivity.
Qed.

End StringFacts.

(** ** Percent-encoding never produces whitespace *)

Section EncodingFacts.

Local Open Scope N_scope.

Lemma isWhiteSpace_range (c : N) :
  isWhiteSpace c = true -> 9 <= c <= 13 \/ c = 32 \/ 160 <= c.
Proof.
  unfold isWhiteSpace; cbn [existsb].
  rewrite !orb_true_iff, !andb_true_iff, !N.eqb_eq, !N.leb_le. lia.
Qed.

Lemma visible_not_whiteSpace (c : N) :
  33 <= c <= 126 -> isWhiteSpace c = false.
Proof.
  intros H; destruct (isWhiteSpace c) eqn:E; [|reflexivity].
  apply isWhiteSpace_range in E; lia.
Qed.

Lemma uriUnreserved_range (c : N) : uriUnreserved c = true -> 33 <= c <= 126.
Proof.
  unfold uriUnreserved, isAlnum; cbn [existsb].
  rewrite !orb_true_iff, !andb_true_iff, !N.eqb_eq, !N.leb_le. lia.
Qed.

Lemma hexDigit_range (n : N) : n < 16 -> 33 <= hexDigit n <= 126.
Proof.
  intros H; unfold hexDigit; destruct (N.ltb_spec n 10); lia.
Qed.

Lemma percentByte_noWhiteSpace (b : N) :
  b < 256 -> noWhiteSpace (percentByte b) = true.
Proof.
  intros H; unfold noWhiteSpace, percentByte; cbn [forallb].
  assert (H1 : b / 16 < 16) by (apply N.Div0.div_lt_upper_bound; lia).
  assert (H2 : b mod 16 < 16) by (apply N.mod_lt; lia).
  rewrite (visible_not_whiteSpace 37) by lia.
  rewrite (visible_not_whiteSpace _ (hexDigit_range _ H1)).
  rewrite (visible_not_whiteSpace _ (hexDigit_range _ H2)).
  reflexivity.
Qed.

Lemma noWhiteSpace_app (a b : jsstring) :
  noWhiteSpace (a ++ b) = noWhiteSpace a && noWhiteSpace b.
Proof. apply forallb_app. Qed.

Lemma utf8_bytes (cp : N) : cp < 1114112 -> Forall (fun b => b < 256) (utf8 cp).
Proof.
  intros H; unfold utf8.
  destruct (N.ltb_spec cp 128); [repeat constructor; lia|].
  destruct (N.ltb_spec cp 2048).
  { assert (cp / 64 < 32) by (apply N.Div0.div_lt_upper_bound; lia).
    assert (cp mod 64 < 64) by (apply N.mod_lt; lia).
    repeat constructor; lia. }
  destruct (N.ltb_spec cp 65536).
  { assert (cp / 4096 < 16) by (apply N.Div0.div_lt_upper_bound; lia).
    assert ((cp / 64) mod 64 < 64) by (apply N.mod_lt; lia).
    assert (cp mod 64 < 64) by (apply N.mod_lt; lia).
    repeat constructor; lia. }
  assert (cp / 262144 < 5) by (apply N.Div0.div_lt_upper_bound; lia).
  assert ((cp / 4096) mod 64 < 64) by (apply N.mod_lt; lia).
  assert ((cp / 64) mod 64 < 64) by (apply N.mod_lt; lia).
  assert (cp mod 64 < 64) by (apply N.mod_lt; lia).
  repeat constructor; lia.
Qed.

Lemma percentEncode_noWhiteSpace (cp : N) :
  cp < 1114112 -> noWhiteSpace (percentEncode cp) = true.
Proof.
  intros H; unfold percentEncode.
  pose proof (utf8_bytes cp H) as B.
  induction B as [|b l Hb _ IH]; [reflexivity|].
  cbn [flat_map]; rewrite noWhiteSpace_app, IH, percentByte_noWhiteSpace by exact Hb.
  reflexivity.
Qed.

Lemma some_inj {A : Type} (a b : A) : Some a = Some b -> a = b.
Proof. intros E; injection E; auto. Qed.

Lemma encodeURIComponent_noWhiteSpace_upto (n : nat) :
  forall s e, (List.length s <= n)%nat -> wellFormed s ->
    encodeURIComponent s = Some e -> noWhiteSpace e = true.
Proof.
  induction n as [|n IH]; intros s e Hn Hwf.
  - destruct s; [|simpl in Hn; lia]. cbn. intros [= <-]; reflexivity.
  - destruct s as [|c t]; [cbn; intros [= <-]; reflexivity|].
    inversion Hwf as [|? ? Hc Ht]; subst.
    cbn [encodeURIComponent].
    destruct (uriUnreserved c) eqn:U.
    { destruct (encodeURIComponent t) as [e'|] eqn:E'; [|discriminate].
      cbn [option_map]; intros E; apply some_inj in E; subst e; cbn [noWhiteSpace forallb].
      rewrite (visible_not_whiteSpace _ (uriUnreserved_range _ U)).
      apply (IH t e'); [simpl in Hn; lia | exact Ht | exact E']. }
    destruct (isLowSurrogate c) eqn:L; [discriminate|].
    destruct (isHighSurrogate c) eqn:Hi.
    { destruct t as [|d t']; [discriminate|].
      destruct (isLowSurrogate d) eqn:Ld; [|discriminate].
      destruct (encodeURIComponent t') as [e'|] eqn:E'; [|discriminate].
      cbn [option_map]; intros E; apply some_inj in E; subst e.
      inversion Ht as [|? ? Hd Ht']; subst.
      unfold isHighSurrogate in Hi; unfold isLowSurrogate in Ld.
      rewrite andb_true_iff, !N.leb_le in Hi, Ld.
      rewrite noWhiteSpace_app, percentEncode_noWhiteSpace by lia.
      apply (IH t' e'); [simpl in Hn; lia | exact Ht' | exact E']. }
    destruct (encodeURIComponent t) as [e'|] eqn:E'; [|discriminate].
    cbn [option_map]; intros E; apply some_inj in E; subst e.
    rewrite noWhiteSpace_app, percentEncode_noWhiteSpace by lia.
    apply (IH t e'); [simpl in Hn; lia | exact Ht | exact E'].
Qed.

Lemma encodeURIComponent_noWhiteSpace (s e : jsstring) :
  wellFormed s -> encodeURIComponent s = Some e -> noWhiteSpace e = true.
Proof. apply (encodeURIComponent_noWhiteSpace_upto (List.length s)); lia. Qed.

Lemma trimStart_noWhiteSpace (s : jsstring) :
  noWhiteSpace s = true -> trimStart s = s.
Proof.
  destruct s as [|c s]; [reflexivity|]; cbn [noWhiteSpace forallb trimStart].
  rewrite andb_true_iff, negb_true_iff; intros [-> _]; reflexivity.
Qed.

Lemma trim_noWhiteSpace (s : jsstring) : noWhiteSpace s = true -> trim s = s.
Proof.
  intros H; unfold trim, trimEnd.
  rewrite (trimStart_noWhiteSpace s H).
  rewrite trimStart_noWhiteSpace, rev_involutive; [reflexivity|].
  unfold noWhiteSpace in *; rewrite forallb_forall in *.
  intros x Hx; apply H, in_rev, Hx.
Qed.

End EncodingFacts.

(** ** Classification of image references *)

Section Classification.

Lemma dropPrefix_Some (p s r : jsstring) :
  dropPrefix p s = Some r -> s = p ++ r.
Proof.
  revert s; induction p as [|y p IH]; intros s; cbn [dropPrefix].
  - intros E; apply some_inj in E; subst; reflexivity.
  - destruct s as [|x s]; [discriminate|].
    destruct (N.eqb_spec x y); [|discriminate].
    intros E; apply IH in E; subst; reflexivity.
Qed.

Lemma dropLettersIgnoreCase_Some (p s r : jsstring) :
  dropLettersIgnoreCase p s = Some r ->
  exists a, s = a ++ r /\ Forall2 sameLetter p a.
Proof.
  revert s; induction p as [|y p IH]; intros s; cbn [dropLettersIgnoreCase].
  - intros E; apply some_inj in E; subst; exists []; split; constructor.
  - destruct s as [|x s]; [discriminate|].
    destruct (matchesIgnoreCase y x) eqn:Mx; [|discriminate].
    intros E; apply IH in E; destruct E as (a & -> & F).
    exists (x :: a); split; [reflexivity|]; constructor; [|exact F].
    unfold matchesIgnoreCase in Mx; apply orb_true_iff in Mx.
    destruct Mx as [Mx|Mx]; apply N.eqb_eq in Mx; [left|right]; exact Mx.
Qed.

(** A match of the scheme pattern is the letters of [http] or [https]
    in any case, then [://]; what follows is what [stripScheme] keeps. *)
Lemma afterScheme_Some (s r : jsstring) :
  afterScheme s = Some r ->
  exists letters,
    s = letters ++ js "://" ++ r
    /\ (Forall2 sameLetter (js "http") letters
        \/ Forall2 sameLetter (js "https") letters).
Proof.
  unfold afterScheme.
  destruct (dropLettersIgnoreCase (js "http") s) as [r1|] eqn:E1;
    [|discriminate].
  apply dropLettersIgnoreCase_Some in E1; destruct E1 as (a & -> & Fa).
  assert (Plain : dropPrefix (js "://") r1 = Some r ->
                  exists letters, a ++ r1 = letters ++ js "://" ++ r
                    /\ (Forall2 sameLetter (js "http") letters
                        \/ Forall2 sameLetter (js "https") letters)).
  { intros E; apply dropPrefix_Some in E; subst.
    exists a; split; [reflexivity | left; exact Fa]. }
  destruct (dropLettersIgnoreCase (js "s") r1) as [r2|] eqn:E2;
    [|exact Plain].
  destruct (dropPrefix (js "://") r2) as [r3|] eqn:E3; [|exact Plain].
  intros E; apply some_inj in E; subst r3.
  apply dropLettersIgnoreCase_Some in E2; destruct E2 as (b & -> & Fb).
  apply dropPrefix_Some in E3; subst r2.
  exists (a ++ b); split; [rewrite <- app_assoc; reflexivity|].
  right; change (js "https") with (js "http" ++ js "s").
  apply Forall2_app; assumption.
Qed.

Lemma isRemoteUrl_first (t : jsstring) :
  isRemoteUrl t = true ->
  exists c t', t = c :: t' /\ (c = 104%N \/ c = 72%N).
Proof.
  unfold isRemoteUrl; destruct (afterScheme t) as [r|] eqn:E; [|discriminate].
  intros _; apply afterScheme_Some in E; destruct E as (l & -> & [F|F]);
    inversion F as [|y x p a Hx Fa]; subst;
    exists x, (a ++ js "://" ++ r); (split; [reflexivity|]);
    destruct Hx as [->| ->]; [left|right|left|right]; reflexivity.
Qed.

Lemma isRemoteUrl_truthy (t : jsstring) :
  isRemoteUrl t = true -> truthy t = true.
Proof.
  intros H; apply isRemoteUrl_first in H; destruct H as (c & t' & -> & _).
  reflexivity.
Qed.

Lemma isRemoteUrl_not_data (t : jsstring) :
  isRemoteUrl t = true -> isDataUrl t = false.
Proof.
  intros H; apply isRemoteUrl_first in H.
  destruct H as (c & t' & -> & [-> | ->]); reflexivity.
Qed.

Lemma isRemoteUrl_not_blob (t : jsstring) :
  isRemoteUrl t = true -> startsWith t (js "blob:") = false.
Proof.
  intros H; apply isRemoteUrl_first in H.
  destruct H as (c & t' & -> & [-> | ->]); reflexivity.
Qed.

Lemma stripScheme_remote (t : jsstring) :
  isRemoteUrl t = true ->
  exists letters,
    t = letters ++ js "://" ++ stripScheme t
    /\ (Forall2 sameLetter (js "http") letters
        \/ Forall2 sameLetter (js "https") letters).
Proof.
  unfold isRemoteUrl, stripScheme.
  destruct (afterScheme t) as [r|] eqn:E; [|discriminate].
  intros _; apply afterScheme_Some; exact E.
Qed.

(** The proxied form of a reference is left alone by [trim] and is
    recognised as proxied. *)
Lemma relay_trim (e : jsstring) :
  noWhiteSpace e = true -> trim (relayBase ++ e) = relayBase ++ e.
Proof.
  intros H; apply trim_noWhiteSpace.
  rewrite noWhiteSpace_app, H; reflexivity.
Qed.

Lemma relay_isProxyUrl (e : jsstring) : isProxyUrl (relayBase ++ e) = true.
Proof.
  unfold isProxyUrl.
  change relayBase with (js "https://" ++ js "images.weserv.nl/?url=").
  rewrite <- app_assoc, includes_app; reflexivity.
Qed.

End Classification.

(** ** The display normalizer *)

Lemma return_inj {A : Type} (a b : A) : Return a = Return b -> a = b.
Proof. intros E; injection E; auto. Qed.

Lemma displayCardImage_trim (s : jsstring) (p : bool) :
  displayCardImage (trim s) p = displayCardImage s p.
Proof. unfold displayCardImage; rewrite trim_idempotent; reflexivity. Qed.

(** Whatever the normalizer returns is a fixed point of the normalizer. *)
Lemma displayCardImage_idempotent (s r : jsstring) (p : bool) :
  wellFormed s ->
  displayCardImage s p = Return r -> displayCardImage r p = Return r.
Proof.
  intros Hwf H.
  assert (Same : displayCardImage s p = Return (trim s) ->
                 displayCardImage r p = Return r).
  { intros H'; rewrite H' in H; apply return_inj in H; subst r.
    rewrite displayCardImage_trim; exact H'. }
  revert H; unfold displayCardImage at 1.
  destruct (negb (truthy (trim s))) eqn:T;
    [intros H; apply Same; unfold displayCardImage; rewrite T; reflexivity|].
  destruct (negb p || isDataUrl (trim s) || isProxyUrl (trim s)) eqn:C;
    [intros H; apply Same; unfold displayCardImage; rewrite T, C; reflexivity|].
  destruct (isRemoteUrl (trim s)) eqn:R;
    [|intros H; apply Same; unfold displayCardImage; rewrite T, C, R;
      reflexivity].
  unfold buildProxyUrl.
  destruct (encodeURIComponent (stripScheme (trim s))) as [e|] eqn:E;
    [|discriminate].
  intros H; apply return_inj in H; subst r.
  assert (W : noWhiteSpace e = true).
  { apply (encodeURIComponent_noWhiteSpace (stripScheme (trim s))); [|exact E].
    destruct (stripScheme_remote _ R) as (l & Et & _).
    assert (Wt : wellFormed (trim s)).
    { unfold wellFormed in *; rewrite Forall_forall in *; intros x Hx.
      apply Hwf. unfold trim, trimEnd in Hx.
      apply in_rev in Hx.
      assert (Sub : forall t y, In y (trimStart t) -> In y t).
      { induction t as [|d t IH]; simpl; [auto|].
        destruct (isWhiteSpace d); simpl; intuition. }
      apply Sub in Hx; apply in_rev in Hx; apply Sub in Hx; exact Hx. }
    unfold wellFormed in *; rewrite Forall_forall in *; intros x Hx.
    apply Wt; rewrite Et; apply in_or_app; right; apply in_or_app; right.
    exact Hx. }
  unfold displayCardImage; rewrite (relay_trim _ W), relay_isProxyUrl.
  rewrite orb_true_r; reflexivity.
Qed.

(** C5, as stated, fails: a remote URL that already carries a relay marker
    is returned as it is with the proxy enabled, and a remote URL followed
    by white space comes back trimmed with the proxy disabled. *)
Lemma displayCardImage_remote_counterexample :
  (isRemoteUrl (js "https://images.weserv.nl/?url=a.png") = true
   /\ encodeURIComponent (stripScheme (js "https://images.weserv.nl/?url=a.png"))
      = Some (js "images.weserv.nl%2F%3Furl%3Da.png")
   /\ displayCardImage (js "https://images.weserv.nl/?url=a.png") true
      <> Return (relayBase ++ js "images.weserv.nl%2F%3Furl%3Da.png"))
  /\ (isRemoteUrl (js "http://a.io/x.png ") = true
      /\ displayCardImage (js "http://a.io/x.png ") false
         <> Return (js "http://a.io/x.png ")).
Proof. repeat split; try reflexivity; vm_compute; discriminate. Qed.

(** C5 (amended): when the trimmed reference [t] is a remote URL that does
    not already carry a relay marker, the normalizer returns [t] with the
    proxy disabled and, with the proxy enabled, the relay base followed by
    the percent-encoding of [t] without its scheme prefix (it throws the
    [URIError] of [encodeURIComponent] when that encoding is undefined). *)
Theorem displayCardImage_remote (u : jsstring)
  (Hremote : isRemoteUrl (trim u) = true)
  (Hfresh : isProxyUrl (trim u) = false) :
  displayCardImage u false = Return (trim u)
  /\ (trim u = u -> displayCardImage u false = Return u)
  /\ (forall e, encodeURIComponent (stripScheme (trim u)) = Some e ->
        displayCardImage u true = Return (relayBase ++ e))
  /\ (encodeURIComponent (stripScheme (trim u)) = None ->
        displayCardImage u true = Throw uriError)
  /\ (exists letters,
        trim u = letters ++ js "://" ++ stripScheme (trim u)
        /\ (Forall2 sameLetter (js "http") letters
            \/ Forall2 sameLetter (js "https") letters)).
Proof.
  assert (Off : displayCardImage u false = Return (trim u)).
  { unfold displayCardImage; destruct (negb (truthy (trim u))); reflexivity. }
  assert (On : displayCardImage u true = buildProxyUrl (trim u)).
  { unfold displayCardImage.
    rewrite (isRemoteUrl_truthy _ Hremote), (isRemoteUrl_not_data _ Hremote).
    rewrite Hfresh, Hremote; reflexivity. }
  split; [exact Off|].
  split; [intros E; rewrite Off, E; reflexivity|].
  split; [intros e E; rewrite On; unfold buildProxyUrl; rewrite E; reflexivity|].
  split; [intros E; rewrite On; unfold buildProxyUrl; rewrite E; reflexivity|].
  apply stripScheme_remote; exact Hremote.
Qed.

Lemma displayCardImage_remote_witness :
  let u := cardImage Scenario.defaults in
  (isRemoteUrl (trim u) = true /\ isProxyUrl (trim u) = false)
  /\ displayCardImage u false = Return u
  /\ displayCardImage u true
     = Return (js "https://images.weserv.nl/?url=images.unsplash.com%2Fphoto-1606502281004-f86cf1282af5%3Fw%3D400%26h%3D600%26fit%3Dcrop").
Proof.
  intros u.
  assert (H1 : isRemoteUrl (trim u) = true) by reflexivity.
  assert (H2 : isProxyUrl (trim u) = false) by reflexivity.
  split; [split; assumption|].
  destruct (displayCardImage_remote u H1 H2) as (_ & Off & On & _).
  split; [apply Off; reflexivity | apply On; reflexivity].
Defined.

(** C6, as stated, fails: a data URL followed by white space is classified
    as embedded-binary, and the normalizer returns it trimmed. *)
Lemma displayCardImage_fixed_counterexample :
  isDataUrl (js "data:image/png;base64,AAAA ") = true
  /\ displayCardImage (js "data:image/png;base64,AAAA ") true
     <> Return (js "data:image/png;base64,AAAA ")
  /\ displayCardImage (js "data:image/png;base64,AAAA ") false
     <> Return (js "data:image/png;base64,AAAA ").
Proof. repeat split; try reflexivity; vm_compute; discriminate. Qed.

(** C6 (amended): on a reference whose trimmed value [t] starts with
    [data:] or [blob:] or carries a relay marker, the normalizer returns
    [t] for both values of the proxy flag, so it is the identity on such
    references without surrounding white space; and every value the
    normalizer returns is returned unchanged when normalized again. *)
Theorem displayCardImage_fixed (s : jsstring) (p : bool) :
  (isDataUrl (trim s) || isProxyUrl (trim s) = true ->
     displayCardImage s p = Return (trim s)
     /\ (trim s = s -> displayCardImage s p = Return s))
  /\ (wellFormed s -> forall r,
        displayCardImage s p = Return r -> displayCardImage r p = Return r).
Proof.
  split.
  - intros H.
    assert (E : displayCardImage s p = Return (trim s)).
    { unfold displayCardImage.
      destruct (negb (truthy (trim s))); [reflexivity|].
      rewrite <- orb_assoc, H, orb_true_r; reflexivity. }
    split; [exact E | intros T; rewrite E, T; reflexivity].
  - intros Hwf r; apply displayCardImage_idempotent; exact Hwf.
Qed.

Lemma displayCardImage_fixed_witness :
  let proxied := js "https://images.weserv.nl/?url=a.io%2Fx.png" in
  (isDataUrl (trim proxied) || isProxyUrl (trim proxied) = true
   /\ trim proxied = proxied
   /\ displayCardImage proxied true = Return proxied)
  /\ (displayCardImage (js "https://a.io/x.png") true = Return proxied
      /\ displayCardImage proxied true = Return proxied).
Proof.
  intros proxied.
  destruct (displayCardImage_fixed proxied true) as [Fixed _].
  destruct (displayCardImage_fixed (js "https://a.io/x.png") true)
    as [_ Idem].
  assert (H : isDataUrl (trim proxied) || isProxyUrl (trim proxied) = true)
    by reflexivity.
  split.
  - split; [exact H|]; split; [reflexivity|].
    apply (proj2 (Fixed H)); reflexivity.
  - split; [reflexivity|].
    apply Idem; [|reflexivity].
    unfold wellFormed; rewrite Forall_forall; intros x Hx.
    vm_compute in Hx.
    repeat (destruct Hx as [<- | Hx]; [reflexivity|]); contradiction.
Defined.

(** ** Change-percent formatting *)

Section ChangePercent.

Import ChangePercentSpec.

Lemma normalizedChange_digits (s : jsstring) :
  YoutubeThumbnail.normalizedChange s = orElse (digits s) (js "0")
  /\ YoutubeThumbnailImpact.normalizedChange s = orElse (digits s) (js "0").
Proof.
  unfold YoutubeThumbnail.normalizedChange,
    YoutubeThumbnailImpact.normalizedChange, digits.
  rewrite replaceAllChar_filter; split; reflexivity.
Qed.

Lemma changeText_digits (t : TrendDirection) (s : jsstring) :
  YoutubeThumbnail.changeText t s
    = signOf t ++ orElse (digits s) (js "0") ++ js "%"
  /\ YoutubeThumbnailImpact.changeText t s
    = signOf t ++ orElse (digits s) (js "0") ++ js "%".
Proof.
  unfold YoutubeThumbnail.changeText, YoutubeThumbnailImpact.changeText.
  destruct (normalizedChange_digits s) as [-> ->].
  destruct t; split; reflexivity.
Qed.

(** A percent sign that is only a suffix is removed by either reading. *)
Lemma filter_percent_stripped (x : jsstring) :
  forallb (fun c => negb (N.eqb c 37)) (stripPercentSuffix x) = true ->
  filter (fun c => negb (N.eqb c 37)) x = stripPercentSuffix x.
Proof.
  assert (Keep : forall y, forallb (fun c => negb (N.eqb c 37)) y = true ->
                           filter (fun c => negb (N.eqb c 37)) y = y).
  { induction y as [|c y IH]; simpl; [reflexivity|].
    rewrite andb_true_iff; intros [-> Hy]; rewrite (IH Hy); reflexivity. }
  unfold stripPercentSuffix.
  destruct (rev x) as [|c r] eqn:E.
  - apply (f_equal (@rev N)) in E; rewrite rev_involutive in E; subst x.
    reflexivity.
  - apply (f_equal (@rev N)) in E; rewrite rev_involutive in E; subst x.
    simpl rev. destruct (N.eqb c 37) eqn:P.
    + intros H; rewrite filter_app, (Keep _ H); simpl; rewrite P.
      apply app_nil_r.
    + intros H; apply Keep; exact H.
Qed.

End ChangePercent.

(** C8, as stated, fails: an empty input is displayed with a [0], white
    space around the input is dropped, and a percent sign that is not a
    suffix is removed as well. *)
Lemma changeText_counterexample :
  YoutubeThumbnail.changeText up (js "")
    <> ChangePercentSpec.display up (js "")
  /\ YoutubeThumbnailImpact.changeText up (js "")
    <> ChangePercentSpec.display up (js "")
  /\ YoutubeThumbnail.changeText up (js " 375 ")
    <> ChangePercentSpec.display up (js " 375 ")
  /\ YoutubeThumbnail.changeText down (js "1%2")
    <> ChangePercentSpec.display down (js "1%2").
Proof. repeat split; vm_compute; discriminate. Qed.

(** C8 (amended): in both renderers the displayed change text is the sign
    of the trend, then the trimmed input without one leading sign and
    without any percent character ([0] when nothing remains), then a
    percent sign.  For an input without surrounding white space whose
    stripped form (leading sign and percent suffix removed) is not empty
    and holds no percent character, this is the stripped form re-prefixed
    and suffixed, as for [375] and [-12%]. *)
Theorem changeText_display (t : TrendDirection) (s : jsstring) :
  (YoutubeThumbnail.changeText t s
     = ChangePercentSpec.signOf t
       ++ orElse (ChangePercentSpec.digits s) (js "0") ++ js "%"
   /\ YoutubeThumbnailImpact.changeText t s
     = ChangePercentSpec.signOf t
       ++ orElse (ChangePercentSpec.digits s) (js "0") ++ js "%")
  /\ (trim s = s ->
      ChangePercentSpec.stripped s <> [] ->
      forallb (fun c => negb (N.eqb c 37)) (ChangePercentSpec.stripped s) = true ->
      YoutubeThumbnail.changeText t s = ChangePercentSpec.display t s
      /\ YoutubeThumbnailImpact.changeText t s = ChangePercentSpec.display t s)
  /\ (YoutubeThumbnail.changeText up (js "375") = js "+375%"
      /\ YoutubeThumbnailImpact.changeText up (js "375") = js "+375%"
      /\ YoutubeThumbnail.normalizedChange (js "-12%") = js "12"
      /\ YoutubeThumbnailImpact.normalizedChange (js "-12%") = js "12"
      /\ YoutubeThumbnail.changeText down (js "-12%") = js "-12%"
      /\ YoutubeThumbnailImpact.changeText down (js "-12%") = js "-12%").
Proof.
  split; [apply changeText_digits|].
  split; [|repeat split; reflexivity].
  intros Htrim Hne Hpct.
  destruct (changeText_digits t s) as [-> ->].
  assert (E : ChangePercentSpec.digits s = ChangePercentSpec.stripped s).
  { unfold ChangePercentSpec.digits; rewrite Htrim.
    apply filter_percent_stripped; exact Hpct. }
  rewrite E; unfold ChangePercentSpec.display, orElse.
  destruct (ChangePercentSpec.stripped s); [contradiction|].
  split; reflexivity.
Qed.

Lemma changeText_display_witness :
  trim (js "+48%") = js "+48%"
  /\ ChangePercentSpec.stripped (js "+48%") = js "48"
  /\ YoutubeThumbnail.changeText down (js "+48%") = js "-48%"
  /\ YoutubeThumbnailImpact.changeText down (js "+48%") = js "-48%".
Proof.
  split; [reflexivity|]; split; [reflexivity|].
  apply (proj1 (proj2 (changeText_display down (js "+48%")))).
  - reflexivity.
  - vm_compute; discriminate.
  - reflexivity.
Defined.

(** C10: when nothing remains of the trimmed input once one leading sign
    and every percent character are removed, both renderers display [+0%]
    for an upward and [-0%] for a downward trend. *)
Theorem changeText_empty (s : jsstring)
  (Hempty : ChangePercentSpec.digits s = []) :
  YoutubeThumbnail.normalizedChange s = js "0"
  /\ YoutubeThumbnailImpact.normalizedChange s = js "0"
  /\ YoutubeThumbnail.changeText up s = js "+0%"
  /\ YoutubeThumbnail.changeText down s = js "-0%"
  /\ YoutubeThumbnailImpact.changeText up s = js "+0%"
  /\ YoutubeThumbnailImpact.changeText down s = js "-0%".
Proof.
  destruct (normalizedChange_digits s) as [N1 N2].
  destruct (changeText_digits up s) as [U1 U2].
  destruct (changeText_digits down s) as [D1 D2].
  rewrite N1, N2, U1, U2, D1, D2, Hempty.
  repeat split; reflexivity.
Qed.

Lemma changeText_empty_witness :
  (ChangePercentSpec.digits (js "") = []
   /\ YoutubeThumbnail.changeText up (js "") = js "+0%")
  /\ (ChangePercentSpec.digits (js "+") = []
      /\ YoutubeThumbnailImpact.changeText down (js "+") = js "-0%")
  /\ (ChangePercentSpec.digits (js " %") = []
      /\ YoutubeThumbnail.changeText down (js " %") = js "-0%").
Proof.
  split; [|split]; (split; [reflexivity|]).
  - apply (changeText_empty (js "")); reflexivity.
  - apply (changeText_empty (js "+")); reflexivity.
  - apply (changeText_empty (js " %")); reflexivity.
Defined.

(** ** The download filename *)

(** C9, as stated, fails on the earlier editor component, the one with a
    single template and PNG only: the name it gives the download has no
    template segment, whatever template and format one reads into it. *)
Lemma formatFilename_counterexample :
  SingleTemplateEditor.downloadName up = js "pokemon-thumbnail-up.png"
  /\ forall tpl f,
       SingleTemplateEditor.downloadName up <> FilenameSpec.pattern tpl up f.
Proof.
  split; [reflexivity|]; intros [|] [|]; vm_compute; discriminate.
Qed.

(** C9 (amended): in the editor with template and format selection the
    filename is [pokemon-thumbnail-<template>-<trend>.<ext>], with [png]
    for PNG and [jpg] for JPEG; the single-template editor names its
    download [pokemon-thumbnail-<trend>.png]. *)
Theorem formatFilename_pattern (tpl : TemplateVariant) (t : TrendDirection)
  (f : ExportFormat) :
  formatFilename t f tpl = FilenameSpec.pattern tpl t f
  /\ SingleTemplateEditor.downloadName t
     = js "pokemon-thumbnail-"
       ++ match t with up => js "up" | down => js "down" end ++ js ".png".
Proof. destruct tpl, t, f; split; reflexivity. Qed.

(** The eight names, written out. *)
Lemma formatFilename_table :
  formatFilename up png classic = js "pokemon-thumbnail-classic-up.png"
  /\ formatFilename up jpeg classic = js "pokemon-thumbnail-classic-up.jpg"
  /\ formatFilename down png classic = js "pokemon-thumbnail-classic-down.png"
  /\ formatFilename down jpeg classic = js "pokemon-thumbnail-classic-down.jpg"
  /\ formatFilename up png impact = js "pokemon-thumbnail-impact-up.png"
  /\ formatFilename up jpeg impact = js "pokemon-thumbnail-impact-up.jpg"
  /\ formatFilename down png impact = js "pokemon-thumbnail-impact-down.png"
  /\ formatFilename down jpeg impact = js "pokemon-thumbnail-impact-down.jpg".
Proof. repeat split; reflexivity. Qed.

(** ** Reasoning about async computations *)

Section Async.

Lemma extend_nil (w : world) : extend w [] = w.
Proof. destruct w; unfold extend; simpl; rewrite app_nil_r; reflexivity. Qed.

Lemma extend_extend (w : world) (a b : list event) :
  extend (extend w a) b = extend w (a ++ b).
Proof. unfold extend; simpl; rewrite app_assoc; reflexivity. Qed.

Lemma setMem_mem (m : machine) : setMem m (mem m) = m.
Proof. destruct m; reflexivity. Qed.

Lemma pushEvents_nil (m : machine) : pushEvents m [] = m.
Proof. unfold pushEvents; rewrite extend_nil; apply setMem_mem. Qed.

Lemma pushEvents_app (m : machine) (a b : list event) :
  pushEvents (pushEvents m a) b = pushEvents m (a ++ b).
Proof.
  unfold pushEvents, setMem; simpl; rewrite extend_extend; reflexivity.
Qed.

Lemma uniform_ret {A : Type} (a : A) : uniform (ret a) (Return a) [].
Proof. intros m; unfold ret; rewrite pushEvents_nil; reflexivity. Qed.

Lemma uniform_call {A : Type} (r : outcome A) : uniform (call r) r [].
Proof. intros m; unfold call; rewrite pushEvents_nil; reflexivity. Qed.

Lemma uniform_await {A : Type} (env : environment) (p : outcome A) :
  uniform (await (quiet env) p) p [].
Proof.
  intros m; unfold await; simpl.
  rewrite setMem_mem, pushEvents_nil; reflexivity.
Qed.

Lemma uniform_bind {A B : Type} (c : M A) (k : A -> M B) (a : A) (e1 : list event)
  (r : outcome B) (e2 : list event) :
  uniform c (Return a) e1 -> uniform (k a) r e2 ->
  uniform (bind c k) r (e1 ++ e2).
Proof.
  intros Hc Hk m; unfold bind; rewrite Hc, Hk, pushEvents_app; reflexivity.
Qed.

Lemma uniform_bind_throw {A B : Type} (c : M A) (k : A -> M B) (x : thrown)
  (e1 : list event) :
  uniform c (Throw x) e1 -> uniform (bind c k) (Throw x) e1.
Proof. intros Hc m; unfold bind; rewrite Hc; reflexivity. Qed.

Lemma uniform_bind_hang {A B : Type} (c : M A) (k : A -> M B) (e1 : list event) :
  uniform c Hang e1 -> uniform (bind c k) Hang e1.
Proof. intros Hc m; unfold bind; rewrite Hc; reflexivity. Qed.

Lemma uniform_tryCatch_return {A : Type} (c : M A) (h : thrown -> M A) (a : A)
  (e1 : list event) :
  uniform c (Return a) e1 -> uniform (tryCatch c h) (Return a) e1.
Proof. intros Hc m; unfold tryCatch; rewrite Hc; reflexivity. Qed.

Lemma uniform_tryCatch_hang {A : Type} (c : M A) (h : thrown -> M A)
  (e1 : list event) :
  uniform c Hang e1 -> uniform (tryCatch c h) Hang e1.
Proof. intros Hc m; unfold tryCatch; rewrite Hc; reflexivity. Qed.

Lemma uniform_tryCatch_throw {A : Type} (c : M A) (h : thrown -> M A) (x : thrown)
  (e1 : list event) (r : outcome A) (e2 : list event) :
  uniform c (Throw x) e1 -> uniform (h x) r e2 ->
  uniform (tryCatch c h) r (e1 ++ e2).
Proof.
  intros Hc Hh m; unfold tryCatch; rewrite Hc, Hh, pushEvents_app.
  reflexivity.
Qed.

Lemma uniform_awaitCall {A : Type} (env : environment) (c : M A) (r : outcome A)
  (e1 : list event) :
  uniform c r e1 -> uniform (awaitCall (quiet env) c) r e1.
Proof.
  intros Hc; unfold awaitCall; destruct r as [a|x|].
  - rewrite <- (app_nil_r e1).
    apply (uniform_bind c _ a); [exact Hc | apply uniform_await].
  - apply uniform_bind_throw; exact Hc.
  - apply uniform_bind_hang; exact Hc.
Qed.

End Async.

(** ** Capture-time inlining *)

Section Inlining.

Variable env : environment.

Lemma uniform_emit (ev : event) : uniform (emit ev) (Return tt) [ev].
Proof. intros m; reflexivity. Qed.

Lemma inlineCandidate_inlines (c d : jsstring) :
  inlines env c d ->
  uniform (inlineCandidate (quiet env) c) (Return (Some d)) [Fetched c].
Proof.
  intros [resp b d' Hf Hok Hb Hr] m.
  unfold inlineCandidate, tryCatch, bind, emit, await, blobToDataUrl, ret.
  simpl; rewrite Hf, Hok; simpl; rewrite Hb, Hr; reflexivity.
Qed.

Lemma inlineCandidate_fails (c : jsstring) :
  fails env c ->
  uniform (inlineCandidate (quiet env) c) (Return None) [Fetched c].
Proof.
  intros H m.
  unfold inlineCandidate, tryCatch, bind, emit, await, blobToDataUrl, ret.
  destruct H as [e Hf | resp Hf Hok | resp e Hf Hok Hb | resp b e Hf Hok Hb Hr];
    simpl; rewrite Hf; try rewrite Hok; simpl; try rewrite Hb;
    try rewrite Hr; reflexivity.
Qed.

(** An iteration never throws: it returns a data URL, continues, or
    waits for ever on the network. *)
Lemma inlineCandidate_total (c : jsstring) :
  exists r, uniform (inlineCandidate (quiet env) c) r [Fetched c]
            /\ forall x, r <> Throw x.
Proof.
  unfold uniform, inlineCandidate, tryCatch, bind, emit, await,
    blobToDataUrl, ret; simpl.
  destruct (fetch env c) as [resp|x|].
  - destruct (response_ok resp); simpl.
    + destruct (response_blob resp) as [b|x|].
      * destruct (readAsDataURL env b) as [d|x|];
          eexists; (split; [intros m; reflexivity | discriminate]).
      * eexists; (split; [intros m; reflexivity | discriminate]).
      * eexists; (split; [intros m; reflexivity | discriminate]).
    + eexists; (split; [intros m; reflexivity | discriminate]).
  - eexists; (split; [intros m; reflexivity | discriminate]).
  - eexists; (split; [intros m; reflexivity | discriminate]).
Qed.

Lemma inlineFirst_found (tried rest : list jsstring) (c d : jsstring) :
  Forall (fails env) tried -> inlines env c d ->
  uniform (inlineFirst (quiet env) (tried ++ c :: rest)) (Return (Some d))
    (map Fetched (tried ++ [c])).
Proof.
  intros Ht Hc; induction Ht as [|c' tried Hc' _ IH]; cbn [app inlineFirst map].
  - rewrite <- (app_nil_r [Fetched c]).
    apply (uniform_bind _ _ (Some d)).
    + apply inlineCandidate_inlines; exact Hc.
    + apply uniform_ret.
  - change (Fetched c' :: map Fetched (tried ++ [c]))
      with ([Fetched c'] ++ map Fetched (tried ++ [c])).
    apply (uniform_bind _ _ None).
    + apply inlineCandidate_fails; exact Hc'.
    + exact IH.
Qed.

Lemma inlineFirst_none (cands : list jsstring) :
  Forall (fails env) cands ->
  uniform (inlineFirst (quiet env) cands) (Return None) (map Fetched cands).
Proof.
  intros H; induction H as [|c cands Hc _ IH]; cbn [inlineFirst map].
  - apply uniform_ret.
  - change (Fetched c :: map Fetched cands)
      with ([Fetched c] ++ map Fetched cands).
    apply (uniform_bind _ _ None); [apply inlineCandidate_fails; exact Hc|].
    exact IH.
Qed.

(** The loop fetches a prefix of the candidates, in order, and never
    throws. *)
Lemma inlineFirst_total (cands : list jsstring) :
  exists r tried,
    uniform (inlineFirst (quiet env) cands) r (map Fetched tried)
    /\ (forall x, r <> Throw x)
    /\ (exists rest, cands = tried ++ rest).
Proof.
  induction cands as [|c cands IH]; cbn [inlineFirst].
  - exists (Return None), []; split; [apply uniform_ret|].
    split; [discriminate | exists []; reflexivity].
  - destruct (inlineCandidate_total c) as (r & Hr & Hx).
    destruct r as [[d|]|x|].
    + exists (Return (Some d)), [c]; split.
      * rewrite <- (app_nil_r (map Fetched [c])).
        apply (uniform_bind _ _ (Some d)); [exact Hr | apply uniform_ret].
      * split; [discriminate | exists cands; reflexivity].
    + destruct IH as (r' & tried & Hu & Hx' & rest & ->).
      exists r', (c :: tried); split.
      * change (map Fetched (c :: tried))
          with ([Fetched c] ++ map Fetched tried).
        apply (uniform_bind _ _ None); [exact Hr | exact Hu].
      * split; [exact Hx' | exists rest; reflexivity].
    + exfalso; apply (Hx x); reflexivity.
    + exists Hang, [c]; split.
      * apply uniform_bind_hang; exact Hr.
      * split; [discriminate | exists cands; reflexivity].
Qed.

Lemma Forall_isFetched (l : list jsstring) : Forall isFetched (map Fetched l).
Proof. induction l; constructor; simpl; auto. Qed.

(** Inlining only fetches; it throws only the [URIError] of
    [buildProxyUrl], before any fetch. *)
Lemma prepareImageForCapture_total (value : jsstring) (proxy : bool) :
  exists r evs,
    uniform (prepareImageForCapture (quiet env) value proxy) r evs
    /\ Forall isFetched evs.
Proof.
  unfold prepareImageForCapture.
  destruct (negb (truthy (trim value)) || isDataUrl (trim value)
            || startsWith (trim value) (js "blob:"));
    [exists (Return (trim value)), []; split;
       [apply uniform_ret | constructor]|].
  destruct (negb (isRemoteUrl (trim value)));
    [exists (Return (trim value)), []; split;
       [apply uniform_ret | constructor]|].
  assert (Loop : forall cands, exists r evs,
             uniform (r <- inlineFirst (quiet env) cands ;;
                      match r with
                      | Some d => ret d
                      | None => ret (trim value)
                      end) r evs /\ Forall isFetched evs).
  { intros cands.
    destruct (inlineFirst_total cands) as (r & tried & Hu & Hx & _).
    destruct r as [[d|]|x|].
    - exists (Return d), (map Fetched tried); split;
        [|apply Forall_isFetched].
      rewrite <- (app_nil_r (map Fetched tried)).
      apply (uniform_bind _ _ (Some d)); [exact Hu | apply uniform_ret].
    - exists (Return (trim value)), (map Fetched tried); split;
        [|apply Forall_isFetched].
      rewrite <- (app_nil_r (map Fetched tried)).
      apply (uniform_bind _ _ None); [exact Hu | apply uniform_ret].
    - exfalso; apply (Hx x); reflexivity.
    - exists Hang, (map Fetched tried); split; [|apply Forall_isFetched].
      apply uniform_bind_hang; exact Hu. }
  destruct proxy.
  - destruct (buildProxyUrl (trim value)) as [p|x|] eqn:E.
    + destruct (Loop [p; trim value]) as (r & evs & Hu & Hf).
      exists r, evs; split; [|exact Hf].
      change evs with ([] ++ evs).
      apply (uniform_bind _ _ [p; trim value]); [|exact Hu].
      change (@nil event) with (@nil event ++ []).
      apply (uniform_bind _ _ p); [apply uniform_call | apply uniform_ret].
    + exists (Throw x), []; split; [|constructor].
      apply uniform_bind_throw, uniform_bind_throw, uniform_call.
    + exists Hang, []; split; [|constructor].
      apply uniform_bind_hang, uniform_bind_hang, uniform_call.
  - destruct (Loop [trim value]) as (r & evs & Hu & Hf).
    exists r, evs; split; [|exact Hf].
    change evs with ([] ++ evs).
    apply (uniform_bind _ _ [trim value]); [apply uniform_ret | exact Hu].
Qed.

End Inlining.

(** C4 (amended): for a reference whose trimmed value [t] is a remote URL,
    the candidates (the proxied form of [t] first when the proxy flag is
    set, then [t]) are fetched in order; the result is the data URL of the
    first candidate whose fetch gives an ok response with a body that is
    read and converted, and [t] itself, the trimmed reference, when every
    candidate fails. *)
Theorem prepareImageForCapture_inlines (env : environment)
  (value : jsstring) (proxy : bool) (cands : list jsstring)
  (Hremote : isRemoteUrl (trim value) = true)
  (Hcands : if proxy
            then exists e, encodeURIComponent (stripScheme (trim value)) = Some e
                           /\ cands = [relayBase ++ e; trim value]
            else cands = [trim value]) :
  (forall tried c rest d,
      cands = tried ++ c :: rest ->
      Forall (fails env) tried -> inlines env c d ->
      uniform (prepareImageForCapture (quiet env) value proxy) (Return d)
        (map Fetched (tried ++ [c])))
  /\ (Forall (fails env) cands ->
      uniform (prepareImageForCapture (quiet env) value proxy)
        (Return (trim value)) (map Fetched cands)).
Proof.
  assert (Body : prepareImageForCapture (quiet env) value proxy
                 = (r <- inlineFirst (quiet env) cands ;;
                    match r with
                    | Some d => ret d
                    | None => ret (trim value)
                    end)).
  { unfold prepareImageForCapture.
    rewrite (isRemoteUrl_truthy _ Hremote), (isRemoteUrl_not_data _ Hremote).
    rewrite (isRemoteUrl_not_blob _ Hremote), Hremote; cbn [negb orb].
    destruct proxy.
    - destruct Hcands as (e & He & ->).
      unfold buildProxyUrl; rewrite He; reflexivity.
    - rewrite Hcands; reflexivity. }
  rewrite Body; split.
  - intros tried c rest d -> Ht Hc.
    rewrite <- (app_nil_r (map Fetched (tried ++ [c]))).
    apply (uniform_bind _ _ (Some d));
      [apply inlineFirst_found; assumption | apply uniform_ret].
  - intros Hall.
    rewrite <- (app_nil_r (map Fetched cands)).
    apply (uniform_bind _ _ None);
      [apply inlineFirst_none; assumption | apply uniform_ret].
Qed.

(** When the percent-encoding of the reference is undefined, inlining with
    the proxy enabled throws before any fetch. *)
Lemma prepareImageForCapture_uriError (env : environment) (value : jsstring) :
  isRemoteUrl (trim value) = true ->
  encodeURIComponent (stripScheme (trim value)) = None ->
  uniform (prepareImageForCapture (quiet env) value true) (Throw uriError) [].
Proof.
  intros Hremote He; unfold prepareImageForCapture.
  rewrite (isRemoteUrl_truthy _ Hremote), (isRemoteUrl_not_data _ Hremote).
  rewrite (isRemoteUrl_not_blob _ Hremote), Hremote; cbn [negb orb].
  unfold buildProxyUrl; rewrite He.
  apply uniform_bind_throw, uniform_bind_throw, uniform_call.
Qed.

(** ** The capture-readiness waiter *)

Section Waiter.

Variable env : environment.

Lemma listened_any (ev : imageEvent) :
  existsb (imageEvent_eqb ev) listenedEvents = true.
Proof. destruct ev; reflexivity. Qed.

Lemma imagePromise_uniform (i : img) :
  uniform (imagePromise i) (Return (imageSettles i))
    (map (fun j => Listening (img_id j)) (waitedImages [i])).
Proof.
  unfold imagePromise, imageSettles, waitedImages, hasNextEvent; cbn [filter].
  destruct (imageReady i); cbn [negb orb map]; [apply uniform_ret|].
  change [Listening (img_id i)] with ([Listening (img_id i)] ++ []).
  apply (uniform_bind _ _ tt); [apply uniform_emit|].
  destruct (img_nextEvent i) as [ev|]; [rewrite listened_any|];
    apply uniform_ret.
Qed.

Lemma mapM_imagePromise (images : list img) :
  uniform (mapM imagePromise images) (Return (map imageSettles images))
    (map (fun j => Listening (img_id j)) (waitedImages images)).
Proof.
  induction images as [|i images IH]; cbn [mapM map]; [apply uniform_ret|].
  replace (waitedImages (i :: images))
    with (waitedImages [i] ++ waitedImages images)
    by (unfold waitedImages; cbn [filter];
        destruct (negb (imageReady i)); reflexivity).
  rewrite map_app.
  apply (uniform_bind _ _ (imageSettles i)); [apply imagePromise_uniform|].
  rewrite <- (app_nil_r (map _ (waitedImages images))).
  apply (uniform_bind _ _ (map imageSettles images));
    [exact IH | apply uniform_ret].
Qed.

Lemma promiseAll_imageSettles (images : list img) :
  promiseAll (map imageSettles images)
  = if forallb hasNextEvent (waitedImages images) then Return tt else Hang.
Proof.
  unfold promiseAll.
  assert (R : firstRejection (map imageSettles images) = None).
  { induction images as [|i images IH]; [reflexivity|]; cbn [map].
    unfold imageSettles at 1.
    destruct (imageReady i || hasNextEvent i); exact IH. }
  rewrite R; f_equal. clear R.
  induction images as [|i images IH]; [reflexivity|].
  unfold waitedImages in *; cbn [map forallb filter].
  unfold imageSettles at 1.
  destruct (imageReady i); cbn [negb orb settled andb]; [exact IH|].
  cbn [forallb]; destruct (hasNextEvent i); cbn [settled andb];
    [exact IH | reflexivity].
Qed.

Lemma waitForImages_uniform (root : node) :
  uniform (waitForImages (quiet env) root)
    (if forallb hasNextEvent (waitedImages (querySelectorAllImg env root))
     then Return tt else Hang)
    (map (fun j => Listening (img_id j))
       (waitedImages (querySelectorAllImg env root))).
Proof.
  unfold waitForImages; cbn [querySelectorAllImg quiet].
  destruct (querySelectorAllImg env root) as [|i images] eqn:E;
    [apply uniform_ret|].
  cbn [List.length Nat.eqb].
  rewrite <- (app_nil_r (map _ (waitedImages (i :: images)))).
  apply (uniform_bind _ _ (map imageSettles (i :: images)));
    [apply mapM_imagePromise|].
  rewrite promiseAll_imageSettles; apply uniform_await.
Qed.

End Waiter.

(** The readiness waiter, characterised: with no image it resolves at
    once; it listens to exactly the images that are not already complete
    with a nonzero natural width; the promise of each of those is settled
    by its next load or error event alike, so the waiter resolves when
    each has one, is never rejected, and stays pending exactly when some
    image it listens to gets neither. *)
Lemma waitForImages_resolves (env : environment) (root : node) :
  exists r,
    uniform (waitForImages (quiet env) root) r
      (map (fun i => Listening (img_id i))
         (waitedImages (querySelectorAllImg env root)))
    /\ (querySelectorAllImg env root = [] ->
        forall m, waitForImages (quiet env) root m = (Return tt, m))
    /\ (forall i, In i (waitedImages (querySelectorAllImg env root)) <->
                  In i (querySelectorAllImg env root)
                  /\ (img_complete i = false \/ img_naturalWidth i = 0%N))
    /\ (forall x, r <> Throw x)
    /\ ((forall i, In i (waitedImages (querySelectorAllImg env root)) ->
                   img_nextEvent i = Some loadEvent
                   \/ img_nextEvent i = Some errorEvent) <->
        r = Return tt)
    /\ ((exists i, In i (waitedImages (querySelectorAllImg env root))
                   /\ img_nextEvent i = None) <->
        r = Hang).
Proof.
  eexists; split; [apply waitForImages_uniform|].
  split.
  { intros E m; rewrite (waitForImages_uniform env root m), E; cbn.
    rewrite pushEvents_nil; reflexivity. }
  split.
  { intros i; unfold waitedImages; rewrite filter_In.
    unfold imageReady; rewrite negb_true_iff, andb_false_iff.
    rewrite negb_false_iff, N.eqb_eq; reflexivity. }
  set (waited := waitedImages (querySelectorAllImg env root)).
  destruct (forallb hasNextEvent waited) eqn:F.
  - rewrite forallb_forall in F.
    split; [discriminate|]; split; split; try reflexivity; try discriminate.
    + intros _ i Hi; specialize (F i Hi); unfold hasNextEvent in F.
      destruct (img_nextEvent i) as [[|]|]; [left | right | discriminate];
        reflexivity.
    + intros (i & Hi & Hn); specialize (F i Hi); unfold hasNextEvent in F.
      rewrite Hn in F; discriminate.
  - split; [discriminate|]; split; split; try reflexivity; try discriminate.
    + intros H; exfalso.
      assert (T : forallb hasNextEvent waited = true).
      { apply forallb_forall; intros i Hi; unfold hasNextEvent.
        destruct (H i Hi) as [-> | ->]; reflexivity. }
      rewrite T in F; discriminate.
    + intros _.
      assert (X : exists i, In i waited /\ hasNextEvent i = false).
      { clear -F; induction waited as [|i l IH]; [discriminate|].
        cbn [forallb] in F; apply andb_false_iff in F; destruct F as [F|F].
        - exists i; split; [left; reflexivity | exact F].
        - destruct (IH F) as (j & Hj & Hn); exists j; split;
            [right; exact Hj | exact Hn]. }
      destruct X as (i & Hi & Hn); exists i; split; [exact Hi|].
      unfold hasNextEvent in Hn; destruct (img_nextEvent i);
        [discriminate | reflexivity].
Qed.

(** C7 (defect): an image that has already failed to load when the wait
    starts is complete with no natural width, and no further load or
    error event is dispatched to it.  The waiter adds its listeners all
    the same; its promise stays pending and the export never completes:
    nothing is downloaded, no alert is shown and the flag stays set.  The
    failed load is not treated as resolved. *)
Theorem waitForImages_failed_image_pending :
  let env := ScenarioBrokenImage.browser in
  let w := ScenarioBrokenImage.uploaded in
  let w' := snd (downloadThumbnail (quiet env) w) in
  querySelectorAllImg env 1%N
  = [ {| img_id := 1; img_complete := true; img_naturalWidth := 0;
         img_nextEvent := None |} ]
  /\ uniform (waitForImages (quiet env) 1%N) Hang [Listening 1]
  /\ previewRef w = Some 1%N
  /\ fst (downloadThumbnail (quiet env) w) = Hang
  /\ downloads (newEvents w w') = []
  /\ alerts (newEvents w w') = []
  /\ isDownloading w' = true.
Proof.
  intros env w w'.
  split; [reflexivity|].
  split; [exact (waitForImages_uniform env 1%N)|].
  vm_compute; repeat split.
Qed.

(** ** The export run *)

Section Run.

Variable env : environment.

Lemma silent_observations (evs : list event) :
  Forall silent evs ->
  downloads evs = [] /\ alerts evs = [] /\ cardImageWrites evs = [].
Proof.
  induction 1 as [|ev evs Hev _ (D & A & C)]; [repeat split|].
  destruct ev; try contradiction; cbn; rewrite ?D, ?A, ?C; repeat split;
    assumption.
Qed.

Lemma isFetched_silent (evs : list event) :
  Forall isFetched evs -> Forall silent evs.
Proof.
  apply Forall_impl; intros [] H; try contradiction; exact I.
Qed.

Lemma listening_silent (l : list img) :
  Forall silent (map (fun i => Listening (img_id i)) l).
Proof. induction l; constructor; [exact I | assumption]. Qed.

Lemma uniform_fst {A : Type} (c : M A) (r : outcome A) (evs : list event)
  (m : machine) : uniform c r evs -> fst (c m) = r.
Proof. intros H; rewrite H; reflexivity. Qed.

Lemma skipn_log (a b : list event) : skipn (List.length a) (a ++ b) = b.
Proof. induction a; [reflexivity | assumption]. Qed.

Lemma newEvents_extend (w : world) (evs : list event) :
  newEvents w (extend w evs) = evs.
Proof. unfold newEvents, extend; simpl; apply skipn_log. Qed.

Lemma exportWithHtmlToImage_uniform (n : option node) (f : ExportFormat) :
  exists P, uniform (exportWithHtmlToImage (quiet env) n f) P [].
Proof.
  unfold exportWithHtmlToImage.
  destruct (strictEq (formatString f) (js "jpeg"));
    eexists; apply uniform_await.
Qed.

Lemma exportWithHtml2Canvas_uniform (n : option node) (f : ExportFormat) :
  exists F, uniform (exportWithHtml2Canvas (quiet env) n f) F [].
Proof.
  unfold exportWithHtml2Canvas; cbn [html2canvas quiet].
  destruct (html2canvas env n) as [cv|x|];
    [| exists (Throw x); apply uniform_bind_throw, uniform_await
     | exists Hang; apply uniform_bind_hang, uniform_await].
  assert (Rest : exists F, uniform
            (match canvas_toBlob cv with
             | Some toBlob =>
                 b <- await (quiet env)
                        (toBlob (if strictEq (formatString f) (js "jpeg")
                                 then js "image/jpeg" else js "image/png")) ;;
                 match b with
                 | Some b' => blobToDataUrl (quiet env) b'
                 | None =>
                     call (canvas_toDataURL cv
                             (if strictEq (formatString f) (js "jpeg")
                              then js "image/jpeg" else js "image/png"))
                 end
             | None =>
                 call (canvas_toDataURL cv
                         (if strictEq (formatString f) (js "jpeg")
                          then js "image/jpeg" else js "image/png"))
             end) F []).
  { destruct (canvas_toBlob cv) as [toBlob|];
      [|eexists; apply uniform_call].
    destruct (toBlob (if strictEq (formatString f) (js "jpeg")
                      then js "image/jpeg" else js "image/png"))
      as [[b|]|x|].
    - eexists; change (@nil event) with (@nil event ++ []).
      apply (uniform_bind _ _ (Some b)); [apply uniform_await|].
      apply uniform_await.
    - eexists; change (@nil event) with (@nil event ++ []).
      apply (uniform_bind _ _ None); [apply uniform_await|].
      apply uniform_call.
    - exists (Throw x); apply uniform_bind_throw, uniform_await.
    - exists Hang; apply uniform_bind_hang, uniform_await. }
  destruct Rest as (F & HF); exists F.
  change (@nil event) with (@nil event ++ []).
  apply (uniform_bind _ _ cv); [apply uniform_await | exact HF].
Qed.

Lemma bind_return {A B : Type} (c : M A) (k : A -> M B) (m m' : machine)
  (a : A) : c m = (Return a, m') -> bind c k m = k a m'.
Proof. intros H; unfold bind; rewrite H; reflexivity. Qed.

Lemma bind_throw {A B : Type} (c : M A) (k : A -> M B) (m m' : machine)
  (x : thrown) : c m = (Throw x, m') -> bind c k m = (Throw x, m').
Proof. intros H; unfold bind; rewrite H; reflexivity. Qed.

Lemma bind_hang {A B : Type} (c : M A) (k : A -> M B) (m m' : machine) :
  c m = (Hang, m') -> bind c k m = (Hang, m').
Proof. intros H; unfold bind; rewrite H; reflexivity. Qed.

(** The font wait. *)
Lemma fontWait_uniform :
  exists r, uniform (match fontsReady (quiet env) with
                     | Some ready => await (quiet env) ready
                     | None => ret tt
                     end) r [].
Proof.
  cbn [fontsReady quiet]; destruct (fontsReady env) as [ready|];
    eexists; [apply uniform_await | apply uniform_ret].
Qed.

(** The effect of the steps before the capture on a machine whose
    preview root is attached: they end as [r], may swap the image
    reference to [p] (then [shouldRestore] is set), and add events
    among which the only write is that of the swap. *)
Lemma beforeCapture_effect (ci : jsstring) (up : bool) (m : machine)
  (n : node) :
  previewRef (mem m) = Some n ->
  exists r sw evs,
    beforeCapture (quiet env) ci up m
    = (r, {| mem := extend (match sw with
                             | Some p => withCardImage (mem m) p
                             | None => mem m
                             end) evs;
             shouldRestore := match sw with
                              | Some _ => true
                              | None => shouldRestore m
                              end |})
    /\ downloads evs = [] /\ alerts evs = []
    /\ cardImageWrites evs = match sw with Some p => [p] | None => [] end
    /\ (forall p, sw = Some p -> p <> ci).
Proof.
  intros Hn.
  destruct fontWait_uniform as (rf & Hf).
  destruct (prepareImageForCapture_total env ci up) as (rP & evsF & HuP & HF).
  apply isFetched_silent, silent_observations in HF.
  destruct HF as (DF & AF & CF).
  pose proof (waitForImages_uniform env n) as HuW.
  pose proof (silent_observations _
                (listening_silent
                   (waitedImages (querySelectorAllImg env n))))
    as (DL & AL & CL).
  set (evsL := map (fun j => Listening (img_id j))
                 (waitedImages (querySelectorAllImg env n))) in *.
  set (rW := if forallb hasNextEvent
                  (waitedImages (querySelectorAllImg env n))
             then Return tt else Hang) in *.
  unfold beforeCapture.
  destruct rf as [[]|x|];
    [| exists (Throw x), None, [];
       rewrite (bind_throw _ _ m _ x (Hf m)), pushEvents_nil, extend_nil;
       destruct m; repeat split; (reflexivity || discriminate)
     | exists Hang, None, [];
       rewrite (bind_hang _ _ m _ (Hf m)), pushEvents_nil, extend_nil;
       destruct m; repeat split; (reflexivity || discriminate)].
  rewrite (bind_return _ _ m _ tt (Hf m)), pushEvents_nil.
  pose proof (uniform_awaitCall env _ _ _ HuP) as HuP'.
  destruct rP as [p|x|];
    [| exists (Throw x), None, evsF;
       rewrite (bind_throw _ _ m _ x (HuP' m));
       repeat split; (assumption || discriminate)
     | exists Hang, None, evsF;
       rewrite (bind_hang _ _ m _ (HuP' m));
       repeat split; (assumption || discriminate)].
  rewrite (bind_return _ _ m _ p (HuP' m)).
  pose proof (uniform_awaitCall env _ _ _ HuW) as HuW'.
  destruct (truthy p && negb (strictEq p ci)) eqn:Swap.
  - exists rW, (Some p), (evsF ++ [SetCardImage p] ++ evsL).
    split.
    + unfold bind at 1.
      unfold bind at 1, setCardImage at 1.
      unfold bind at 1, assignShouldRestore at 1.
      unfold await at 1; cbn [otherHandlers quiet mem shouldRestore setMem
                                pushEvents fst snd].
      unfold bind at 1, readPreviewRef at 1.
      cbn [mem previewRef record extend withCardImage setMem shouldRestore].
      rewrite Hn, HuW'.
      unfold pushEvents, setMem, record; cbn [mem shouldRestore].
      rewrite !extend_extend.
      replace (extend (withCardImage (extend (mem m) evsF) p)
                 ([SetCardImage p] ++ evsL))
        with (extend (withCardImage (mem m) p)
                (evsF ++ [SetCardImage p] ++ evsL))
        by (unfold extend, withCardImage; cbn; rewrite <- !app_assoc;
            reflexivity).
      destruct rW as [[]|x|]; reflexivity.
    + unfold downloads, alerts, cardImageWrites in *.
      rewrite !flat_map_app, ?DF, ?AF, ?CF, ?DL, ?AL, ?CL.
      repeat split; try reflexivity.
      intros q Hq; apply some_inj in Hq; subst q.
      apply andb_true_iff in Swap; destruct Swap as [_ Ne].
      apply negb_true_iff in Ne; intros Eq.
      apply strictEq_eq in Eq; rewrite Eq in Ne; discriminate.
  - exists rW, None, (evsF ++ evsL).
    split.
    + unfold bind at 1, ret at 1.
      unfold bind at 1, readPreviewRef at 1.
      cbn [mem previewRef pushEvents setMem extend].
      rewrite Hn, HuW', pushEvents_app.
      destruct rW as [[]|x|]; reflexivity.
    + unfold downloads, alerts, cardImageWrites in *.
      rewrite !flat_map_app, ?DF, ?AF, ?CF, ?DL, ?AL, ?CL.
      repeat split; (reflexivity || discriminate).
Qed.

Lemma captureAndDownload_effect (f : ExportFormat) (filename : jsstring)
  (m : machine) (current : option node) (P F : outcome jsstring) :
  previewRef (mem m) = current ->
  uniform (exportWithHtmlToImage (quiet env) current f) P [] ->
  uniform (exportWithHtml2Canvas (quiet env) current f) F [] ->
  captureAndDownload (quiet env) f filename m
  = (captureResult P F, pushEvents m (captureLog P F filename)).
Proof.
  intros Hc HP HF.
  apply (uniform_awaitCall env) in HP; apply (uniform_awaitCall env) in HF.
  unfold captureAndDownload.
  unfold bind at 1, tryCatch at 1, bind at 1, readPreviewRef at 1.
  rewrite Hc.
  destruct P as [u|e1|]; cbn [captureResult captureLog].
  - rewrite (bind_return _ _ m _ u (HP m)), pushEvents_nil.
    reflexivity.
  - rewrite (bind_throw _ _ m _ e1 (HP m)), pushEvents_nil.
    unfold bind at 1, emit at 1, ret at 1.
    unfold bind at 1, readPreviewRef at 1.
    cbn [mem previewRef record extend setMem].
    rewrite Hc.
    destruct F as [u|e2|].
    + rewrite (bind_return _ _ _ _ u (HF _)), pushEvents_nil.
      unfold downloadDataUrl, emit.
      unfold pushEvents, setMem, record; cbn [mem shouldRestore].
      rewrite extend_extend; reflexivity.
    + rewrite (bind_throw _ _ _ _ e2 (HF _)), pushEvents_nil; reflexivity.
    + rewrite (bind_hang _ _ _ _ (HF _)), pushEvents_nil; reflexivity.
  - rewrite (bind_hang _ _ m _ (HP m)), !pushEvents_nil; reflexivity.
Qed.

Lemma failureReport_effect (e : thrown) (m : machine) :
  (emit (Errored e) ;; emit (Alerted (failureAlert e))) m
  = (Return tt, pushEvents m [Errored e; Alerted (failureAlert e)]).
Proof.
  unfold bind, emit, pushEvents, setMem, record; cbn [mem shouldRestore].
  rewrite extend_extend; reflexivity.
Qed.

Lemma cleanup_effect (original : jsstring) (m : machine) :
  cleanup original m
  = (Return tt,
     {| mem := extend
                 (withIsDownloading
                    (if shouldRestore m
                     then withCardImage (mem m) original else mem m) false)
                 ((if shouldRestore m then [SetCardImage original] else [])
                  ++ [SetIsDownloading false]);
        shouldRestore := shouldRestore m |}).
Proof.
  unfold cleanup, bind, readShouldRestore, setCardImage, setIsDownloading,
    ret, setMem, record.
  destruct m as [w sr]; cbn [mem shouldRestore].
  destruct sr; cbn [mem shouldRestore app];
    unfold extend, withIsDownloading, withCardImage;
    cbn [cardImage useProxy trend template exportFormat isDownloading
           previewRef log]; rewrite <- ?app_assoc; reflexivity.
Qed.

Lemma withCardImage_extend (w : world) (evs : list event) (v : jsstring) :
  withCardImage (extend w evs) v = extend (withCardImage w v) evs.
Proof. reflexivity. Qed.

Lemma withIsDownloading_extend (w : world) (evs : list event) (b : bool) :
  withIsDownloading (extend w evs) b = extend (withIsDownloading w b) evs.
Proof. reflexivity. Qed.

Lemma withCardImage_twice (w : world) (a b : jsstring) :
  withCardImage (withCardImage w a) b = withCardImage w b.
Proof. reflexivity. Qed.

Lemma withIsDownloading_twice (w : world) (a b : bool) :
  withIsDownloading (withIsDownloading w a) b = withIsDownloading w b.
Proof. reflexivity. Qed.

Lemma withCardImage_withIsDownloading (w : world) (a : bool) (v : jsstring) :
  withCardImage (withIsDownloading w a) v
  = withIsDownloading (withCardImage w v) a.
Proof. reflexivity. Qed.

Lemma started_mem (w : world) :
  mem (started w) = extend (withIsDownloading w true) [SetIsDownloading true].
Proof. reflexivity. Qed.

Lemma world_unchanged (w : world) (evs : list event) :
  isDownloading w = false ->
  extend (withIsDownloading (withCardImage w (cardImage w)) false) evs
  = extend w evs
  /\ extend (withIsDownloading w false) evs = extend w evs.
Proof. destruct w; cbn; intros ->; split; reflexivity. Qed.

(** The whole run, in closed form: when it ends, the world is the one it
    started in, with a longer log. *)
Lemma downloadThumbnail_effect (w : world) (n : node) :
  previewRef w = Some n -> isDownloading w = false ->
  exists sw evsA,
    downloads evsA = [] /\ alerts evsA = []
    /\ cardImageWrites evsA = match sw with Some p => [p] | None => [] end
    /\ (forall p, sw = Some p -> p <> cardImage w)
    /\ (tryResult (preludeOutcome env w) (primaryOutcome env w)
          (fallbackOutcome env w) = Hang ->
        fst (downloadThumbnail (quiet env) w) = Hang)
    /\ (tryResult (preludeOutcome env w) (primaryOutcome env w)
          (fallbackOutcome env w) <> Hang ->
        downloadThumbnail (quiet env) w
        = (Return tt,
           extend w
             ([SetIsDownloading true] ++ evsA
              ++ tryLog (preludeOutcome env w) (primaryOutcome env w)
                   (fallbackOutcome env w)
                   (formatFilename (trend w) (exportFormat w) (template w))
              ++ restoreLog sw (cardImage w)
              ++ [SetIsDownloading false]))).
Proof.
  intros Hn Hidle.
  destruct (exportWithHtmlToImage_uniform (previewRef w) (exportFormat w))
    as (P & HP).
  destruct (exportWithHtml2Canvas_uniform (previewRef w) (exportFormat w))
    as (F & HF).
  unfold primaryOutcome, fallbackOutcome, preludeOutcome.
  rewrite (uniform_fst _ _ _ (started w) HP).
  rewrite (uniform_fst _ _ _ (started w) HF).
  destruct (beforeCapture_effect (cardImage w) (useProxy w) (started w) n)
    as (pre & sw & evsA & Hpre & D & A & C & Ne); [exact Hn|].
  rewrite Hpre; cbn [fst].
  exists sw, evsA; split; [exact D|]; split; [exact A|]; split; [exact C|].
  split; [exact Ne|].
  set (filename := formatFilename (trend w) (exportFormat w) (template w)).
  (* the run, as the [try]/[catch] statement followed by the cleanup *)
  assert (Run : forall r m',
    tryCatch
      (beforeCapture (quiet env) (cardImage w) (useProxy w) ;;
       captureAndDownload (quiet env) (exportFormat w) filename)
      (fun error =>
         emit (Errored error) ;; emit (Alerted (failureAlert error)))
      (started w) = (r, m') ->
    downloadThumbnail (quiet env) w
    = match r with
      | Hang => (Hang, mem m')
      | _ => (r, mem (snd (cleanup (cardImage w) m')))
      end).
  { intros r m' E.
    unfold downloadThumbnail; rewrite Hn, Hidle.
    unfold exportRun.
    unfold bind at 1, setIsDownloading at 1.
    unfold bind at 1, assignShouldRestore at 1.
    change {| mem := mem (setMem (activation w)
                            (record (SetIsDownloading true)
                               (withIsDownloading (mem (activation w)) true)));
              shouldRestore := false |} with (started w).
    unfold tryFinally; fold filename; rewrite E.
    rewrite cleanup_effect; destruct r; reflexivity. }
  pose (mA := {| mem := extend match sw with
                               | Some p => withCardImage (mem (started w)) p
                               | None => mem (started w)
                               end evsA;
                 shouldRestore := match sw with
                                  | Some _ => true
                                  | None => shouldRestore (started w)
                                  end |}).
  fold mA in Hpre.
  assert (Cap : captureAndDownload (quiet env) (exportFormat w) filename mA
                = (captureResult P F,
                   pushEvents mA (captureLog P F filename))).
  { apply (captureAndDownload_effect _ _ _ (previewRef w));
      [destruct sw; reflexivity | exact HP | exact HF]. }
  assert (Final : forall evsB,
    mem (snd (cleanup (cardImage w) (pushEvents mA evsB)))
    = extend w ([SetIsDownloading true] ++ evsA ++ evsB
                ++ restoreLog sw (cardImage w) ++ [SetIsDownloading false])).
  { intros evsB; rewrite cleanup_effect; cbn [snd mem].
    unfold mA, pushEvents, setMem; cbn [mem shouldRestore].
    rewrite started_mem.
    destruct sw as [p|]; cbn [shouldRestore restoreLog].
    - destruct (world_unchanged w
                  ([SetIsDownloading true] ++ evsA ++ evsB
                   ++ [SetCardImage (cardImage w)] ++ [SetIsDownloading false])
                  Hidle) as [W1 _].
      rewrite <- W1.
      repeat first [ rewrite withCardImage_extend
                   | rewrite withIsDownloading_extend
                   | rewrite extend_extend
                   | rewrite withCardImage_twice
                   | rewrite withIsDownloading_twice
                   | rewrite withCardImage_withIsDownloading ].
      rewrite <- ?app_assoc; reflexivity.
    - destruct (world_unchanged w
                  ([SetIsDownloading true] ++ evsA ++ evsB
                   ++ [] ++ [SetIsDownloading false])
                  Hidle) as [_ W2].
      change (shouldRestore (started w)) with false; cbn iota.
      rewrite <- W2.
      repeat first [ rewrite withIsDownloading_extend
                   | rewrite extend_extend
                   | rewrite withIsDownloading_twice ].
      rewrite <- ?app_assoc; reflexivity. }
  destruct pre as [[]|x|].
  - (* the steps before the capture complete *)
    cbn [tryResult tryLog].
    destruct (captureResult P F) as [[]|e|] eqn:R.
    + split; intros Hr; [discriminate|].
      rewrite (Run (Return tt) (pushEvents mA (captureLog P F filename))).
      * rewrite Final, app_nil_r; reflexivity.
      * unfold tryCatch, bind; rewrite Hpre, Cap; rewrite ?R; reflexivity.
    + split; intros Hr; [discriminate|].
      rewrite (Run (Return tt)
                 (pushEvents mA (captureLog P F filename
                                 ++ [Errored e; Alerted (failureAlert e)]))).
      * rewrite Final; reflexivity.
      * unfold tryCatch; unfold bind at 1; rewrite Hpre, Cap; rewrite ?R.
        rewrite failureReport_effect, pushEvents_app; reflexivity.
    + split; intros Hr; [|exfalso; apply Hr; reflexivity].
      rewrite (Run Hang (pushEvents mA (captureLog P F filename)));
        [reflexivity|].
      unfold tryCatch, bind; rewrite Hpre, Cap; rewrite ?R; reflexivity.
  - (* they throw *)
    cbn [tryResult tryLog]; split; intros Hr; [discriminate|].
    rewrite (Run (Return tt)
               (pushEvents mA [Errored x; Alerted (failureAlert x)])).
    + rewrite Final; reflexivity.
    + unfold tryCatch; unfold bind at 1; rewrite Hpre.
      apply failureReport_effect.
  - (* they never complete *)
    cbn [tryResult]; split; intros Hr; [|exfalso; apply Hr; reflexivity].
    rewrite (Run Hang mA); [reflexivity|].
    unfold tryCatch, bind; rewrite Hpre; reflexivity.
Qed.

End Run.

(** ** Runs end when every awaited promise settles *)

Section Settling.

Variable env : environment.
Hypothesis env_settling : settling env.

Lemma settles_ret {A : Type} (a : A) : settles (ret a).
Proof. intros m; discriminate. Qed.

Lemma settles_emit (ev : event) : settles (emit ev).
Proof. intros m; discriminate. Qed.

Lemma settles_call {A : Type} (r : outcome A) : r <> Hang -> settles (call r).
Proof. intros H m; exact H. Qed.

Lemma settles_await {A : Type} (e : environment) (p : outcome A) :
  p <> Hang -> settles (await e p).
Proof. intros H m; exact H. Qed.

Lemma settles_bind {A B : Type} (c : M A) (k : A -> M B) :
  settles c -> (forall a, settles (k a)) -> settles (bind c k).
Proof.
  intros Hc Hk m; unfold bind; specialize (Hc m).
  destruct (c m) as [[a|x|] m']; cbn [fst] in *;
    [apply Hk | discriminate | exfalso; apply Hc; reflexivity].
Qed.

Lemma settles_tryCatch {A : Type} (c : M A) (h : thrown -> M A) :
  settles c -> (forall x, settles (h x)) -> settles (tryCatch c h).
Proof.
  intros Hc Hh m; unfold tryCatch; specialize (Hc m).
  destruct (c m) as [[a|x|] m']; cbn [fst] in *;
    [discriminate | apply Hh | exact Hc].
Qed.

Lemma settles_awaitCall {A : Type} (e : environment) (c : M A) :
  settles c -> settles (awaitCall e c).
Proof.
  intros Hc; unfold awaitCall; apply settles_bind; [exact Hc|].
  intros a; apply settles_await; discriminate.
Qed.

Lemma settles_inlineCandidate (c : jsstring) :
  settles (inlineCandidate (quiet env) c).
Proof.
  unfold inlineCandidate; apply settles_tryCatch; [|intros; apply settles_ret].
  apply settles_bind; [apply settles_emit | intros _].
  cbn [fetch quiet]; intros m; unfold bind, await at 1; cbn [fst].
  destruct (fetch env c) as [resp|x|] eqn:F; cbn [fst];
    [| discriminate | exfalso; exact (fetch_settles env env_settling c F)].
  destruct (negb (response_ok resp)); [discriminate|].
  revert m; change (settles (b <- await (quiet env) (response_blob resp) ;;
                             d <- blobToDataUrl (quiet env) b ;;
                             ret (Some d))).
  apply settles_bind.
  - apply settles_await, (body_settles env env_settling c resp F).
  - intros b; apply settles_bind; [|intros; apply settles_ret].
    unfold blobToDataUrl; cbn [readAsDataURL quiet].
    apply settles_await, (reader_settles env env_settling).
Qed.

Lemma settles_inlineFirst (cands : list jsstring) :
  settles (inlineFirst (quiet env) cands).
Proof.
  induction cands as [|c cands IH]; cbn [inlineFirst]; [apply settles_ret|].
  apply settles_bind; [apply settles_inlineCandidate|].
  intros [d|]; [apply settles_ret | exact IH].
Qed.

Lemma settles_prepareImageForCapture (value : jsstring) (proxy : bool) :
  settles (prepareImageForCapture (quiet env) value proxy).
Proof.
  unfold prepareImageForCapture.
  destruct (negb (truthy (trim value)) || isDataUrl (trim value)
            || startsWith (trim value) (js "blob:")); [apply settles_ret|].
  destruct (negb (isRemoteUrl (trim value))); [apply settles_ret|].
  apply settles_bind.
  - destruct proxy; [|apply settles_ret].
    apply settles_bind; [|intros; apply settles_ret].
    apply settles_call; unfold buildProxyUrl.
    destruct (encodeURIComponent (stripScheme (trim value))); discriminate.
  - intros cands; apply settles_bind; [apply settles_inlineFirst|].
    intros [d|]; apply settles_ret.
Qed.

Lemma settles_waitForImages (root : node) :
  settles (waitForImages (quiet env) root).
Proof.
  intros m; rewrite (waitForImages_uniform env root m); cbn [fst].
  assert (T : forallb hasNextEvent
                (waitedImages (querySelectorAllImg env root)) = true).
  { apply forallb_forall; intros i Hi.
    unfold waitedImages in Hi; apply filter_In in Hi; destruct Hi as [Hi Hr].
    destruct (images_settle env env_settling root i Hi) as [R|E].
    - rewrite R in Hr; discriminate.
    - unfold hasNextEvent; destruct (img_nextEvent i);
        [reflexivity | contradiction]. }
  rewrite T; discriminate.
Qed.

Lemma settles_exportWithHtmlToImage (n : option node) (f : ExportFormat) :
  settles (exportWithHtmlToImage (quiet env) n f).
Proof.
  unfold exportWithHtmlToImage; cbn [toJpeg toPng quiet].
  destruct (strictEq (formatString f) (js "jpeg")); apply settles_await;
    [apply (toJpeg_settles env env_settling)
    | apply (toPng_settles env env_settling)].
Qed.

Lemma settles_exportWithHtml2Canvas (n : option node) (f : ExportFormat) :
  settles (exportWithHtml2Canvas (quiet env) n f).
Proof.
  unfold exportWithHtml2Canvas; cbn [html2canvas quiet].
  intros m; unfold bind, await at 1; cbn [fst].
  destruct (html2canvas env n) as [cv|x|] eqn:H; cbn [fst];
    [| discriminate
     | exfalso; exact (html2canvas_settles env env_settling n H)].
  set (mime := if strictEq (formatString f) (js "jpeg")
               then js "image/jpeg" else js "image/png").
  destruct (canvas_settles env env_settling n cv mime H) as [Sync Blob].
  destruct (canvas_toBlob cv) as [toBlob|] eqn:T; [|exact Sync].
  specialize (Blob toBlob eq_refl).
  destruct (toBlob mime) as [[b|]|x|]; cbn [fst];
    [| exact Sync | discriminate | contradiction].
  exact (reader_settles env env_settling b).
Qed.

Lemma settles_beforeCapture (ci : jsstring) (up : bool) :
  settles (beforeCapture (quiet env) ci up).
Proof.
  unfold beforeCapture; cbn [fontsReady quiet]; apply settles_bind.
  { destruct (fontsReady env) as [ready|] eqn:F; [|apply settles_ret].
    apply settles_await; intros ->.
    exact (fonts_settle env env_settling F). }
  intros _; apply settles_bind.
  { apply settles_awaitCall, settles_prepareImageForCapture. }
  intros p; apply settles_bind.
  { destruct (truthy p && negb (strictEq p ci)); [|apply settles_ret].
    apply settles_bind; [intros m; discriminate | intros _].
    apply settles_bind; [intros m; discriminate | intros _].
    apply settles_await; discriminate. }
  intros _; apply settles_bind; [intros m; discriminate|].
  intros [root|]; [|apply settles_ret].
  apply settles_awaitCall, settles_waitForImages.
Qed.

Lemma settles_captureAndDownload (f : ExportFormat) (filename : jsstring) :
  settles (captureAndDownload (quiet env) f filename).
Proof.
  unfold captureAndDownload; apply settles_bind.
  - apply settles_tryCatch.
    + apply settles_bind; [intros m; discriminate | intros current].
      apply settles_bind;
        [apply settles_awaitCall, settles_exportWithHtmlToImage | intros d].
      apply settles_bind; [apply settles_emit | intros; apply settles_ret].
    + intros x; apply settles_bind; [apply settles_emit|].
      intros; apply settles_ret.
  - intros [|]; [apply settles_ret|].
    apply settles_bind; [intros m; discriminate | intros current].
    apply settles_bind;
      [apply settles_awaitCall, settles_exportWithHtml2Canvas | intros d].
    apply settles_emit.
Qed.

(** In such a browser every run ends. *)
Lemma settling_run_ends (w : world) :
  fst (downloadThumbnail (quiet env) w) <> Hang.
Proof.
  unfold downloadThumbnail.
  destruct (previewRef w); [|discriminate].
  destruct (isDownloading w); [discriminate|].
  assert (Run : settles (exportRun (quiet env) (cardImage w) (useProxy w)
                           (trend w) (exportFormat w) (template w))).
  { unfold exportRun.
    apply settles_bind; [intros m; discriminate | intros _].
    apply settles_bind; [intros m; discriminate | intros _].
    intros m; unfold tryFinally.
    assert (Try : settles
              (tryCatch
                 (beforeCapture (quiet env) (cardImage w) (useProxy w) ;;
                  captureAndDownload (quiet env) (exportFormat w)
                    (formatFilename (trend w) (exportFormat w) (template w)))
                 (fun error => emit (Errored error) ;;
                               emit (Alerted (failureAlert error))))).
    { apply settles_tryCatch.
      - apply settles_bind; [apply settles_beforeCapture|].
        intros _; apply settles_captureAndDownload.
      - intros x; apply settles_bind; [apply settles_emit|].
        intros _; apply settles_emit. }
    specialize (Try m).
    destruct (tryCatch _ _ m) as [[[]|x|] m']; cbn [fst] in Try;
      [| | contradiction]; rewrite cleanup_effect; discriminate. }
  specialize (Run (activation w)).
  destruct (exportRun _ _ _ _ _ _ (activation w)) as [r m']; exact Run.
Qed.

End Settling.

(** A run that ends leaves the world it started in, with a longer log. *)
Lemma run_log (env : environment) (w : world) :
  previewRef w <> None -> isDownloading w = false ->
  fst (downloadThumbnail (quiet env) w) <> Hang ->
  exists sw evsA,
    downloads evsA = [] /\ alerts evsA = []
    /\ cardImageWrites evsA = match sw with Some p => [p] | None => [] end
    /\ (forall p, sw = Some p -> p <> cardImage w)
    /\ tryResult (preludeOutcome env w) (primaryOutcome env w)
         (fallbackOutcome env w) <> Hang
    /\ downloadThumbnail (quiet env) w
       = (Return tt,
          extend w
            ([SetIsDownloading true] ++ evsA
             ++ tryLog (preludeOutcome env w) (primaryOutcome env w)
                  (fallbackOutcome env w)
                  (formatFilename (trend w) (exportFormat w) (template w))
             ++ restoreLog sw (cardImage w)
             ++ [SetIsDownloading false])).
Proof.
  intros Hroot Hidle Hends.
  destruct (previewRef w) as [n|] eqn:Hn; [|contradiction].
  destruct (downloadThumbnail_effect env w n Hn Hidle)
    as (sw & evsA & D & A & C & Ne & Hhang & Hrun).
  exists sw, evsA; repeat (split; [assumption|]).
  assert (R : tryResult (preludeOutcome env w) (primaryOutcome env w)
                (fallbackOutcome env w) <> Hang).
  { intros R; apply Hends, Hhang, R. }
  split; [exact R | apply Hrun, R].
Qed.

Lemma tryLog_observations (pre : outcome unit) (P F : outcome jsstring)
  (filename : jsstring) :
  tryResult pre P F <> Hang ->
  cardImageWrites (tryLog pre P F filename) = []
  /\ ((exists u,
         pre = Return tt
         /\ (P = Return u \/ ((exists e1, P = Throw e1) /\ F = Return u))
         /\ downloads (tryLog pre P F filename) = [(u, filename)]
         /\ alerts (tryLog pre P F filename) = [])
      \/ (exists e,
            (pre = Throw e
             \/ (pre = Return tt /\ (exists e1, P = Throw e1) /\ F = Throw e))
            /\ alerts (tryLog pre P F filename) = [failureAlert e]
            /\ downloads (tryLog pre P F filename) = [])).
Proof.
  intros R; destruct pre as [[]|x|]; cbn in R |- *.
  - destruct P as [u|e1|]; cbn in R |- *.
    + split; [reflexivity|]; left; exists u; repeat split; left; reflexivity.
    + destruct F as [u|e2|]; cbn in R |- *.
      * split; [reflexivity|]; left; exists u; repeat split.
        right; split; [exists e1|]; reflexivity.
      * split; [reflexivity|]; right; exists e2; repeat split.
        right; repeat split; exists e1; reflexivity.
      * contradiction.
    + contradiction.
  - split; [reflexivity|]; right; exists x; repeat split; left; reflexivity.
  - contradiction.
Qed.

Lemma failureAlert_text (e : thrown) :
  includes (failureAlert e) (errorMessage e) = true.
Proof. unfold failureAlert; apply includes_app. Qed.

(** C1, as stated, fails on the error text: when both strategies reject
    with a value that is not an [Error] object, the alert holds the fixed
    text [Unknown error] and not the text of that value. *)
Lemma export_outcome_counterexample :
  primaryOutcome Scenario.taintedCapture Scenario.directUrl
    = Throw (OtherValue (js "tainted canvas"))
  /\ fallbackOutcome Scenario.taintedCapture Scenario.directUrl
    = Throw (OtherValue (js "tainted canvas"))
  /\ alerts (log (snd (downloadThumbnail (quiet Scenario.taintedCapture)
                         Scenario.directUrl)))
     = [js "Download failed. Enable the image proxy or upload the image instead of using a URL. (Unknown error)"]
  /\ includes
       (js "Download failed. Enable the image proxy or upload the image instead of using a URL. (Unknown error)")
       (js "tainted canvas") = false.
Proof. repeat split; vm_compute; reflexivity. Qed.

(** C1 (amended): a run that passes the guard ends whenever every awaited
    promise settles, and a run that ends does exactly one of two things.
    Either the steps before the capture complete and the primary strategy
    succeeds, or it throws and the fallback succeeds: then the result of
    the strategy that succeeded is downloaded under the computed filename
    and no alert is shown.  Or a step before the capture throws, or both
    strategies throw: then a single alert is shown and nothing is
    downloaded; the alert holds the message of the thrown [Error] object,
    and the text [Unknown error] for any other value. *)
Theorem export_outcome (env : environment) (w : world)
  (Hroot : previewRef w <> None) (Hidle : isDownloading w = false) :
  (settling env -> fst (downloadThumbnail (quiet env) w) = Return tt)
  /\
  (fst (downloadThumbnail (quiet env) w) <> Hang ->
  let evs := newEvents w (snd (downloadThumbnail (quiet env) w)) in
  let filename := formatFilename (trend w) (exportFormat w) (template w) in
  fst (downloadThumbnail (quiet env) w) = Return tt
  /\ (List.length (downloads evs) + List.length (alerts evs) = 1)%nat
  /\ (forall u,
        preludeOutcome env w = Return tt
        /\ (primaryOutcome env w = Return u
            \/ ((exists e1, primaryOutcome env w = Throw e1)
                /\ fallbackOutcome env w = Return u))
        <-> downloads evs = [(u, filename)])
  /\ (forall e,
        (preludeOutcome env w = Throw e
         \/ (preludeOutcome env w = Return tt
             /\ (exists e1, primaryOutcome env w = Throw e1)
             /\ fallbackOutcome env w = Throw e))
        -> alerts evs = [failureAlert e])
  /\ (alerts evs <> [] ->
      exists e,
        (preludeOutcome env w = Throw e
         \/ (preludeOutcome env w = Return tt
             /\ (exists e1, primaryOutcome env w = Throw e1)
             /\ fallbackOutcome env w = Throw e))
        /\ alerts evs = [failureAlert e]
        /\ includes (failureAlert e) (errorMessage e) = true)
  /\ (forall message, errorMessage (ErrorObject message) = message)
  /\ (forall v, errorMessage (OtherValue v) = js "Unknown error")).
Proof.
  split.
  { intros S; pose proof (settling_run_ends env S w) as Hends.
    destruct (run_log env w Hroot Hidle Hends) as (sw & evsA & Run).
    destruct Run as (_ & _ & _ & _ & _ & ->); reflexivity. }
  intros Hends.
  destruct (run_log env w Hroot Hidle Hends)
    as (sw & evsA & D & A & _ & _ & R & Run).
  rewrite Run; cbn [fst snd]; rewrite newEvents_extend.
  destruct (tryLog_observations _ _ _
              (formatFilename (trend w) (exportFormat w) (template w)) R)
    as (_ & Obs).
  assert (Dn : forall sw0, downloads (restoreLog sw0 (cardImage w)) = [])
    by (intros [|]; reflexivity).
  assert (Al : forall sw0, alerts (restoreLog sw0 (cardImage w)) = [])
    by (intros [|]; reflexivity).
  unfold downloads, alerts in *; rewrite !flat_map_app, D, A, Dn, Al.
  cbn [flat_map app]; rewrite !app_nil_r.
  split; [reflexivity|].
  destruct Obs as [(u & Hp & Hc & Hd & Ha) | (e & Hc & Ha & Hd)];
    rewrite Hd, Ha; (split; [reflexivity|]).
  - (* a download *)
    split; [|split; [|split; [intros H; exfalso; apply H; reflexivity
                            | split; reflexivity]]].
    + intros u'; split.
      * intros (_ & Hc'); f_equal; f_equal.
        destruct Hc as [Hc | ((e1 & Hc) & Hf)];
          destruct Hc' as [Hc' | ((e1' & Hc') & Hf')]; congruence.
      * intros E; assert (u' = u) by congruence; subst u'.
        split; assumption.
    + intros e [He | (_ & (e1 & He) & Hf)]; exfalso;
        destruct Hc as [Hc | ((e1' & Hc) & Hf')]; congruence.
  - (* an alert *)
    split; [|split; [|split; [|split; reflexivity]]].
    + intros u; split; [|discriminate].
      intros (Hp & Hc'); exfalso.
      destruct Hc as [Hc | (_ & (e1 & Hc) & Hf)];
        destruct Hc' as [Hc' | ((e1' & Hc') & Hf')]; congruence.
    + intros e' He'; f_equal; f_equal.
      destruct Hc as [Hc | (Hp & (e1 & Hc) & Hf)];
        destruct He' as [He' | (Hp' & (e1' & He') & Hf')]; congruence.
    + intros _; exists e; split; [exact Hc|]; split; [reflexivity|].
      apply failureAlert_text.
Qed.

(** C2: a run that passes the guard ends whenever every awaited promise
    settles, and a run that ends, on any of its exit paths, leaves the
    image reference and the displayed image as they were and the in-flight
    flag cleared; when the image reference was swapped, the last two
    events of the run restore it and clear the flag. *)
Theorem export_restores (env : environment) (w : world)
  (Hroot : previewRef w <> None) (Hidle : isDownloading w = false) :
  (settling env -> fst (downloadThumbnail (quiet env) w) = Return tt)
  /\
  (fst (downloadThumbnail (quiet env) w) <> Hang ->
  let w' := snd (downloadThumbnail (quiet env) w) in
  let evs := newEvents w w' in
  cardImage w' = cardImage w
  /\ isDownloading w' = false
  /\ displayCardImage (cardImage w') (useProxy w')
     = displayCardImage (cardImage w) (useProxy w)
  /\ (exists earlier, evs = earlier ++ [SetIsDownloading false])
  /\ (cardImageWrites evs = []
      \/ exists p earlier,
           p <> cardImage w
           /\ cardImageWrites evs = [p; cardImage w]
           /\ evs = earlier ++ [SetCardImage (cardImage w);
                                SetIsDownloading false])).
Proof.
  split.
  { intros S; pose proof (settling_run_ends env S w) as Hends.
    destruct (run_log env w Hroot Hidle Hends) as (sw & evsA & Run).
    destruct Run as (_ & _ & _ & _ & _ & ->); reflexivity. }
  intros Hends.
  destruct (run_log env w Hroot Hidle Hends)
    as (sw & evsA & _ & _ & C & Ne & R & Run).
  rewrite Run; cbn [fst snd]; rewrite newEvents_extend.
  destruct (tryLog_observations _ _ _
              (formatFilename (trend w) (exportFormat w) (template w)) R)
    as (Cw & _).
  split; [reflexivity|].
  split; [cbn; exact Hidle|].
  split; [reflexivity|].
  set (tlog := tryLog (preludeOutcome env w) (primaryOutcome env w)
                 (fallbackOutcome env w)
                 (formatFilename (trend w) (exportFormat w) (template w)))
    in *.
  split.
  { exists ([SetIsDownloading true] ++ evsA ++ tlog
            ++ restoreLog sw (cardImage w)).
    rewrite <- !app_assoc; reflexivity. }
  unfold cardImageWrites in *; rewrite !flat_map_app, C, Cw.
  destruct sw as [p|]; cbn [flat_map app restoreLog].
  - right; exists p, ([SetIsDownloading true] ++ evsA ++ tlog).
    split; [apply Ne; reflexivity|].
    split; [reflexivity|].
    rewrite <- !app_assoc; reflexivity.
  - left; reflexivity.
Qed.

(** ** Re-entrant requests *)

(** The guard: without a preview root, or with an export in flight, the
    handler returns at once and changes nothing. *)
Lemma downloadThumbnail_guard (env : environment) (w : world) :
  previewRef w = None \/ isDownloading w = true ->
  downloadThumbnail env w = (Return tt, w).
Proof.
  unfold downloadThumbnail; intros [H|H]; rewrite H; [reflexivity|].
  destruct (previewRef w); reflexivity.
Qed.

Section Reentrancy.

Variable env : environment.

(** Handlers of other events that do nothing while an export is in
    flight. *)
Variable handlers : world -> world.
Hypothesis handlers_dropped :
  forall w, isDownloading w = true -> handlers w = w.

Lemma agree_ret {A : Type} (a : A) : agree (ret a) (ret a).
Proof. intros m H; split; [reflexivity | exact H]. Qed.

Lemma agree_call {A : Type} (r : outcome A) : agree (call r) (call r).
Proof. intros m H; split; [reflexivity | exact H]. Qed.

Lemma agree_emit (ev : event) : agree (emit ev) (emit ev).
Proof. intros m H; split; [reflexivity | exact H]. Qed.

Lemma agree_setCardImage (v : jsstring) :
  agree (setCardImage v) (setCardImage v).
Proof. intros m H; split; [reflexivity | exact H]. Qed.

Lemma agree_assignShouldRestore (b : bool) :
  agree (assignShouldRestore b) (assignShouldRestore b).
Proof. intros m H; split; [reflexivity | exact H]. Qed.

Lemma agree_readPreviewRef : agree readPreviewRef readPreviewRef.
Proof. intros m H; split; [reflexivity | exact H]. Qed.

Lemma agree_await {A : Type} (p : outcome A) :
  agree (await (withHandlers env handlers) p) (await (quiet env) p).
Proof.
  intros m H; unfold await; cbn [otherHandlers withHandlers quiet].
  rewrite (handlers_dropped _ H), setMem_mem; split; [reflexivity|exact H].
Qed.

Lemma agree_bind {A B : Type} (c1 c0 : M A) (k1 k0 : A -> M B) :
  agree c1 c0 -> (forall a, agree (k1 a) (k0 a)) ->
  agree (bind c1 k1) (bind c0 k0).
Proof.
  intros Hc Hk m H; unfold bind.
  destruct (Hc m H) as [-> H'].
  destruct (c0 m) as [[a|x|] m']; cbn [snd] in H';
    [apply Hk; exact H' | split; [reflexivity | exact H'] ..].
Qed.

Lemma agree_tryCatch {A : Type} (c1 c0 : M A) (h1 h0 : thrown -> M A) :
  agree c1 c0 -> (forall x, agree (h1 x) (h0 x)) ->
  agree (tryCatch c1 h1) (tryCatch c0 h0).
Proof.
  intros Hc Hh m H; unfold tryCatch.
  destruct (Hc m H) as [-> H'].
  destruct (c0 m) as [[a|x|] m']; cbn [snd] in H';
    [split; [reflexivity | exact H'] | apply Hh; exact H'
     | split; [reflexivity | exact H']].
Qed.

Lemma agree_awaitCall {A : Type} (c1 c0 : M A) :
  agree c1 c0 ->
  agree (awaitCall (withHandlers env handlers) c1)
    (awaitCall (quiet env) c0).
Proof.
  intros Hc; unfold awaitCall; apply agree_bind; [exact Hc|].
  intros a; apply agree_await.
Qed.

Lemma agree_inlineFirst (cands : list jsstring) :
  agree (inlineFirst (withHandlers env handlers) cands)
    (inlineFirst (quiet env) cands).
Proof.
  induction cands as [|c cands IH]; cbn [inlineFirst]; [apply agree_ret|].
  apply agree_bind.
  - unfold inlineCandidate; apply agree_tryCatch; [|intros; apply agree_ret].
    apply agree_bind; [apply agree_emit | intros _].
    cbn [fetch withHandlers quiet].
    apply agree_bind; [apply agree_await | intros resp].
    destruct (negb (response_ok resp)); [apply agree_ret|].
    apply agree_bind; [apply agree_await | intros b].
    apply agree_bind; [|intros d; apply agree_ret].
    unfold blobToDataUrl; cbn [readAsDataURL withHandlers quiet].
    apply agree_await.
  - intros [d|]; [apply agree_ret | exact IH].
Qed.

Lemma agree_prepareImageForCapture (value : jsstring) (proxy : bool) :
  agree (prepareImageForCapture (withHandlers env handlers) value proxy)
    (prepareImageForCapture (quiet env) value proxy).
Proof.
  unfold prepareImageForCapture.
  destruct (negb (truthy (trim value)) || isDataUrl (trim value)
            || startsWith (trim value) (js "blob:")); [apply agree_ret|].
  destruct (negb (isRemoteUrl (trim value))); [apply agree_ret|].
  apply agree_bind.
  - destruct proxy; [|apply agree_ret].
    apply agree_bind; [apply agree_call | intros; apply agree_ret].
  - intros cands; apply agree_bind; [apply agree_inlineFirst|].
    intros [d|]; apply agree_ret.
Qed.

Lemma agree_mapM_imagePromise (images : list img) :
  agree (mapM imagePromise images) (mapM imagePromise images).
Proof.
  induction images as [|i images IH]; cbn [mapM]; [apply agree_ret|].
  apply agree_bind.
  - unfold imagePromise; destruct (imageReady i); [apply agree_ret|].
    apply agree_bind; [apply agree_emit | intros; apply agree_ret].
  - intros p; apply agree_bind; [exact IH | intros; apply agree_ret].
Qed.

Lemma agree_waitForImages (root : node) :
  agree (waitForImages (withHandlers env handlers) root)
    (waitForImages (quiet env) root).
Proof.
  unfold waitForImages; cbn [querySelectorAllImg withHandlers quiet].
  destruct (Nat.eqb (List.length (querySelectorAllImg env root)) 0);
    [apply agree_ret|].
  apply agree_bind; [apply agree_mapM_imagePromise|].
  intros ps; apply agree_await.
Qed.

Lemma agree_exportWithHtmlToImage (n : option node) (f : ExportFormat) :
  agree (exportWithHtmlToImage (withHandlers env handlers) n f)
    (exportWithHtmlToImage (quiet env) n f).
Proof.
  unfold exportWithHtmlToImage; cbn [toJpeg toPng withHandlers quiet].
  destruct (strictEq (formatString f) (js "jpeg")); apply agree_await.
Qed.

Lemma agree_exportWithHtml2Canvas (n : option node) (f : ExportFormat) :
  agree (exportWithHtml2Canvas (withHandlers env handlers) n f)
    (exportWithHtml2Canvas (quiet env) n f).
Proof.
  unfold exportWithHtml2Canvas; cbn [html2canvas withHandlers quiet].
  apply agree_bind; [apply agree_await | intros cv].
  destruct (canvas_toBlob cv) as [toBlob|]; [|apply agree_call].
  apply agree_bind; [apply agree_await | intros [b|]];
    [|apply agree_call].
  unfold blobToDataUrl; cbn [readAsDataURL withHandlers quiet].
  apply agree_await.
Qed.

Lemma agree_beforeCapture (ci : jsstring) (up : bool) :
  agree (beforeCapture (withHandlers env handlers) ci up)
    (beforeCapture (quiet env) ci up).
Proof.
  unfold beforeCapture; cbn [fontsReady withHandlers quiet].
  apply agree_bind.
  { destruct (fontsReady env); [apply agree_await | apply agree_ret]. }
  intros _; apply agree_bind.
  { apply agree_awaitCall, agree_prepareImageForCapture. }
  intros p; apply agree_bind.
  { destruct (truthy p && negb (strictEq p ci)); [|apply agree_ret].
    apply agree_bind; [apply agree_setCardImage | intros _].
    apply agree_bind; [apply agree_assignShouldRestore | intros _].
    apply agree_await. }
  intros _; apply agree_bind; [apply agree_readPreviewRef|].
  intros [root|]; [|apply agree_ret].
  apply agree_awaitCall, agree_waitForImages.
Qed.

Lemma agree_captureAndDownload (f : ExportFormat) (filename : jsstring) :
  agree (captureAndDownload (withHandlers env handlers) f filename)
    (captureAndDownload (quiet env) f filename).
Proof.
  unfold captureAndDownload; apply agree_bind.
  - apply agree_tryCatch.
    + apply agree_bind; [apply agree_readPreviewRef | intros current].
      apply agree_bind;
        [apply agree_awaitCall, agree_exportWithHtmlToImage | intros d].
      apply agree_bind; [apply agree_emit | intros; apply agree_ret].
    + intros x; apply agree_bind; [apply agree_emit|].
      intros; apply agree_ret.
  - intros [|]; [apply agree_ret|].
    apply agree_bind; [apply agree_readPreviewRef | intros current].
    apply agree_bind;
      [apply agree_awaitCall, agree_exportWithHtml2Canvas | intros d].
    apply agree_emit.
Qed.

(** With such handlers around, a run is the run it is with no other
    event at all. *)
Lemma downloadThumbnail_undisturbed (w : world) :
  downloadThumbnail (withHandlers env handlers) w
  = downloadThumbnail (quiet env) w.
Proof.
  unfold downloadThumbnail.
  destruct (previewRef w); [|reflexivity].
  destruct (isDownloading w); [reflexivity|].
  unfold exportRun.
  unfold bind at 1 3, setIsDownloading at 1 2.
  unfold bind at 1 3, assignShouldRestore at 1 2.
  unfold tryFinally.
  match goal with
  | |- context [tryCatch ?c1 ?h (?m0)] =>
      assert (Body : agree c1
                (beforeCapture (quiet env) (cardImage w) (useProxy w) ;;
                 captureAndDownload (quiet env) (exportFormat w)
                   (formatFilename (trend w) (exportFormat w) (template w))))
  end.
  { apply agree_bind; [apply agree_beforeCapture|].
    intros _; apply agree_captureAndDownload. }
  assert (Try := agree_tryCatch _ _
            (fun error => emit (Errored error) ;;
                          emit (Alerted (failureAlert error)))
            (fun error => emit (Errored error) ;;
                          emit (Alerted (failureAlert error)))
            Body
            (fun x => agree_bind _ _ _ _ (agree_emit _)
                        (fun _ => agree_emit _))).
  match goal with
  | |- context [tryCatch _ _ ?m0] =>
      destruct (Try m0) as [-> _]; [reflexivity|]
  end.
  reflexivity.
Qed.

End Reentrancy.

(** Requests handled after a new render.  A handler whose render has no
    preview root or has the flag set returns at once and changes nothing;
    so a run during which clicks arrive at every suspension, each handled
    by the handler of the render that committed the world it arrives in,
    is the run it is alone: when it ends it has made at most one download
    (exactly one unless it reports a failure) and has restored the image
    reference exactly once if it swapped it.  This says nothing of a
    second invocation of the same handler. *)
Lemma rerendered_request_dropped (env env2 : environment) (w : world) :
  (previewRef w = None \/ isDownloading w = true ->
   downloadThumbnail env2 w = (Return tt, w))
  /\ downloadThumbnail (withHandlers env (rerenderedRequest env2)) w
     = downloadThumbnail (quiet env) w
  /\ (previewRef w <> None -> isDownloading w = false ->
      fst (downloadThumbnail (quiet env) w) <> Hang ->
      let evs :=
        newEvents w
          (snd (downloadThumbnail (withHandlers env (rerenderedRequest env2)) w)) in
      (List.length (downloads evs) <= 1)%nat
      /\ (alerts evs = [] ->
          exists u, downloads evs
                    = [(u, formatFilename (trend w) (exportFormat w)
                             (template w))])
      /\ (cardImageWrites evs = []
          \/ exists p, p <> cardImage w
                       /\ cardImageWrites evs = [p; cardImage w])).
Proof.
  split; [apply downloadThumbnail_guard|].
  assert (Same : downloadThumbnail (withHandlers env (rerenderedRequest env2)) w
                 = downloadThumbnail (quiet env) w).
  { apply downloadThumbnail_undisturbed.
    intros w1 H; unfold rerenderedRequest.
    rewrite downloadThumbnail_guard; [reflexivity | right; exact H]. }
  split; [exact Same|].
  intros Hroot Hidle Hends; rewrite Same.
  destruct (run_log env w Hroot Hidle Hends)
    as (sw & evsA & D & A & C & Ne & R & Run).
  rewrite Run; cbn [fst snd]; rewrite newEvents_extend.
  destruct (tryLog_observations _ _ _
              (formatFilename (trend w) (exportFormat w) (template w)) R)
    as (Cw & Obs).
  assert (Dn : downloads (restoreLog sw (cardImage w)) = [])
    by (destruct sw; reflexivity).
  assert (Al : alerts (restoreLog sw (cardImage w)) = [])
    by (destruct sw; reflexivity).
  unfold downloads, alerts, cardImageWrites in *.
  rewrite !flat_map_app, D, A, C, Cw, Dn, Al.
  cbn [flat_map app]; rewrite !app_nil_r.
  split; [|split].
  - destruct Obs as [(u & _ & _ & -> & _) | (e & _ & _ & ->)]; cbn; lia.
  - destruct Obs as [(u & _ & _ & -> & _) | (e & _ & -> & _)];
      [intros _; exists u; reflexivity | discriminate].
  - destruct sw as [p|]; cbn [restoreLog flat_map app];
      [right; exists p; split; [apply Ne|]; reflexivity | left; reflexivity].
Qed.

Lemma rerendered_request_dropped_witness :
  let w := Scenario.defaults in
  let evs :=
    newEvents w
      (snd (downloadThumbnail
              (withHandlers Scenario.relayWorks
                 (rerenderedRequest Scenario.relayWorks)) w)) in
  (previewRef w <> None /\ isDownloading w = false
   /\ fst (downloadThumbnail (quiet Scenario.relayWorks) w) <> Hang
   /\ alerts evs = [])
  /\ (exists u, downloads evs = [(u, js "pokemon-thumbnail-classic-up.png")])
  /\ (cardImageWrites evs = []
      \/ exists p, p <> cardImage w /\ cardImageWrites evs = [p; cardImage w]).
Proof.
  intros w evs.
  assert (H1 : previewRef w <> None) by (vm_compute; discriminate).
  assert (H2 : isDownloading w = false) by reflexivity.
  assert (H3 : fst (downloadThumbnail (quiet Scenario.relayWorks) w) <> Hang)
    by (vm_compute; discriminate).
  assert (H4 : alerts evs = []) by (vm_compute; reflexivity).
  split; [repeat split; assumption|].
  destruct (rerendered_request_dropped Scenario.relayWorks Scenario.relayWorks w)
    as (_ & _ & Counts).
  destruct (Counts H1 H2 H3) as (_ & One & Writes).
  split; [exact (One H4) | exact Writes].
Defined.

Lemma downloadThumbnailOf_same (env : environment) (w : world) :
  downloadThumbnailOf env w w = downloadThumbnail env w.
Proof. reflexivity. Qed.

(** C3 (defect): the guard reads the [isDownloading] constant of the
    render the handler belongs to, not the current state.  When the
    handler of one render is invoked a second time while its first
    invocation is suspended, before React has rendered with the flag set,
    the flag is set in the current state and a handler of the new render
    would return at once, but the guard of the same closure lets the
    second invocation through: both run, two files are downloaded and the
    image reference is swapped and restored twice. *)
Theorem second_invocation_not_dropped :
  let w := Scenario.defaults in
  let env := Scenario.relayWorks in
  let atAwait := mem (started w) in
  let r := downloadThumbnail
             (withHandlers env (secondRequestOnce (quiet env) w)) w in
  let evs := newEvents w (snd r) in
  (isDownloading w = false
   /\ isDownloading atAwait = true
   /\ atFirstSuspension w atAwait = true
   /\ rerenderedRequest (quiet env) atAwait = atAwait
   /\ downloads (newEvents atAwait (secondRequest (quiet env) w atAwait))
      = [(js "data:image/png;base64,UE5H",
          js "pokemon-thumbnail-classic-up.png")])
  /\ fst r = Return tt
  /\ downloads evs
     = [(js "data:image/png;base64,UE5H",
         js "pokemon-thumbnail-classic-up.png");
        (js "data:image/png;base64,UE5H",
         js "pokemon-thumbnail-classic-up.png")]
  /\ cardImageWrites evs
     = [js "data:image/png;base64,Q0FSRA=="; cardImage w;
        js "data:image/png;base64,Q0FSRA=="; cardImage w].
Proof.
  vm_compute; repeat split; reflexivity.
Qed.

(** The scenario of the spec: the proxied fetch succeeds, the image is
    swapped, the primary strategy succeeds, one file is downloaded and the
    image reference is restored. *)
Lemma scenario_success :
  downloadThumbnail (quiet Scenario.relayWorks) Scenario.defaults
  = (Return tt,
     extend Scenario.defaults
       [SetIsDownloading true;
        Fetched (js "https://images.weserv.nl/?url=images.unsplash.com%2Fphoto-1606502281004-f86cf1282af5%3Fw%3D400%26h%3D600%26fit%3Dcrop");
        SetCardImage (js "data:image/png;base64,Q0FSRA==");
        Listening 2;
        Downloaded (js "data:image/png;base64,UE5H")
          (js "pokemon-thumbnail-classic-up.png");
        SetCardImage (cardImage Scenario.defaults);
        SetIsDownloading false]).
Proof. vm_compute; reflexivity. Qed.

(** The browser of the first scenario settles every promise. *)
Lemma relayWorks_settling : settling Scenario.relayWorks.
Proof.
  constructor; unfold Scenario.relayWorks;
    cbn [fontsReady fetch readAsDataURL querySelectorAllImg toPng toJpeg
           html2canvas].
  - discriminate.
  - intros url; destruct (startsWith url relayBase); discriminate.
  - intros url resp; destruct (startsWith url relayBase); [|discriminate].
    intros E; apply return_inj in E; subst resp; discriminate.
  - discriminate.
  - intros _ i [<- | [<- | []]];
      [left; reflexivity | right; discriminate].
  - discriminate.
  - discriminate.
  - discriminate.
  - intros _ cv mime E; apply return_inj in E; subst cv.
    split; [discriminate | intros toBlob; discriminate].
Qed.

Lemma export_outcome_witness :
  (* primary succeeds *)
  (previewRef Scenario.defaults <> None
   /\ settling Scenario.relayWorks
   /\ fst (downloadThumbnail (quiet Scenario.relayWorks) Scenario.defaults)
      = Return tt
   /\ downloads (newEvents Scenario.defaults
                   (snd (downloadThumbnail (quiet Scenario.relayWorks)
                           Scenario.defaults)))
      = [(js "data:image/png;base64,UE5H",
          js "pokemon-thumbnail-classic-up.png")])
  (* both fail *)
  /\ (previewRef Scenario.directUrl <> None
      /\ fst (downloadThumbnail (quiet Scenario.bothFail) Scenario.directUrl)
         <> Hang
      /\ alerts (newEvents Scenario.directUrl
                   (snd (downloadThumbnail (quiet Scenario.bothFail)
                           Scenario.directUrl)))
         = [js "Download failed. Enable the image proxy or upload the image instead of using a URL. (Tainted canvas)"]).
Proof.
  assert (G1 : previewRef Scenario.defaults <> None)
    by (vm_compute; discriminate).
  assert (G2 : previewRef Scenario.directUrl <> None)
    by (vm_compute; discriminate).
  assert (E1 : fst (downloadThumbnail (quiet Scenario.relayWorks)
                      Scenario.defaults) <> Hang)
    by (vm_compute; discriminate).
  assert (E2 : fst (downloadThumbnail (quiet Scenario.bothFail)
                      Scenario.directUrl) <> Hang)
    by (vm_compute; discriminate).
  pose proof (proj2 (export_outcome Scenario.relayWorks Scenario.defaults G1
                       eq_refl) E1) as (_ & _ & Down & _).
  pose proof (proj2 (export_outcome Scenario.bothFail Scenario.directUrl G2
                       eq_refl) E2) as (_ & _ & _ & Alert & _).
  split; (split; [assumption|]).
  - split; [exact relayWorks_settling|].
    split; [exact (proj1 (export_outcome Scenario.relayWorks
                            Scenario.defaults G1 eq_refl)
                     relayWorks_settling)|].
    apply (proj1 (Down (js "data:image/png;base64,UE5H"))).
    split; [reflexivity | left; reflexivity].
  - split; [assumption|].
    apply (Alert (ErrorObject (js "Tainted canvas"))).
    right; split; [reflexivity|]; split; [|reflexivity].
    exists (ErrorObject (js "oklch is not supported")); reflexivity.
Defined.

Lemma export_restores_witness :
  (* normal completion, fallback completion, thrown error *)
  (cardImage (snd (downloadThumbnail (quiet Scenario.relayWorks)
                     Scenario.defaults))
   = cardImage Scenario.defaults
   /\ isDownloading (snd (downloadThumbnail (quiet Scenario.relayWorks)
                            Scenario.defaults)) = false)
  /\ (cardImage (snd (downloadThumbnail (quiet Scenario.primaryFails)
                        Scenario.defaults))
      = cardImage Scenario.defaults
      /\ isDownloading (snd (downloadThumbnail (quiet Scenario.primaryFails)
                               Scenario.defaults)) = false)
  /\ (cardImage (snd (downloadThumbnail (quiet Scenario.bothFail)
                        Scenario.defaults))
      = cardImage Scenario.defaults
      /\ isDownloading (snd (downloadThumbnail (quiet Scenario.bothFail)
                               Scenario.defaults)) = false).
Proof.
  assert (G : previewRef Scenario.defaults <> None)
    by (vm_compute; discriminate).
  split; [|split].
  - refine (let H := proj2 (export_restores Scenario.relayWorks Scenario.defaults
                              G eq_refl) _ in
            conj (proj1 H) (proj1 (proj2 H)));
      vm_compute; discriminate.
  - refine (let H := proj2 (export_restores Scenario.primaryFails Scenario.defaults
                              G eq_refl) _ in
            conj (proj1 H) (proj1 (proj2 H)));
      vm_compute; discriminate.
  - refine (let H := proj2 (export_restores Scenario.bothFail Scenario.defaults
                              G eq_refl) _ in
            conj (proj1 H) (proj1 (proj2 H)));
      vm_compute; discriminate.
Defined.

(** In each of the three, the image reference was swapped. *)
Lemma scenario_swaps :
  cardImageWrites (log (snd (downloadThumbnail (quiet Scenario.relayWorks)
                               Scenario.defaults)))
    = [js "data:image/png;base64,Q0FSRA=="; cardImage Scenario.defaults]
  /\ cardImageWrites (log (snd (downloadThumbnail
                                  (quiet Scenario.primaryFails)
                                  Scenario.defaults)))
    = [js "data:image/png;base64,Q0FSRA=="; cardImage Scenario.defaults]
  /\ cardImageWrites (log (snd (downloadThumbnail (quiet Scenario.bothFail)
                                  Scenario.defaults)))
    = [js "data:image/png;base64,Q0FSRA=="; cardImage Scenario.defaults].
Proof. repeat split; vm_compute; reflexivity. Qed.

(** C4, as stated, fails: a remote URL followed by white space comes back
    trimmed when every fetch fails; and a candidate whose response is ok
    but whose body cannot be converted is passed over for the next one. *)
Lemma prepareImageForCapture_counterexample :
  (isRemoteUrl (js "https://cards.example/charizard.png ") = true
   /\ fails Scenario.taintedCapture (js "https://cards.example/charizard.png")
   /\ fst (prepareImageForCapture (quiet Scenario.taintedCapture)
             (js "https://cards.example/charizard.png ") false
             (activation Scenario.directUrl))
      = Return (js "https://cards.example/charizard.png")
   /\ js "https://cards.example/charizard.png"
      <> js "https://cards.example/charizard.png ")
  /\ (response_ok
        match fetch Scenario.relayBodyUnreadable
                (js "https://images.weserv.nl/?url=cards.example%2Fcharizard.png")
        with
        | Return resp => resp
        | _ => {| response_ok := false; response_blob := Hang |}
        end = true
      /\ fst (prepareImageForCapture (quiet Scenario.relayBodyUnreadable)
                (js "https://cards.example/charizard.png") true
                (activation Scenario.directUrl))
         = Return (js "data:image/png;base64,SE9TVA==")
      /\ inlines Scenario.relayBodyUnreadable
           (js "https://cards.example/charizard.png")
           (js "data:image/png;base64,SE9TVA==")).
Proof.
  split; [split; [reflexivity|]; split|].
  - apply (fails_network _ _ (ErrorObject (js "Failed to fetch"))).
    reflexivity.
  - split; [vm_compute; reflexivity | vm_compute; discriminate].
  - split; [reflexivity|]; split; [vm_compute; reflexivity|].
    apply (inlines_ok _ _ {| response_ok := true; response_blob := Return 8%N |}
             8%N); reflexivity.
Qed.

Lemma prepareImageForCapture_inlines_witness :
  let value := cardImage Scenario.defaults in
  let proxied :=
    js "https://images.weserv.nl/?url=images.unsplash.com%2Fphoto-1606502281004-f86cf1282af5%3Fw%3D400%26h%3D600%26fit%3Dcrop" in
  isRemoteUrl (trim value) = true
  /\ inlines Scenario.relayWorks proxied (js "data:image/png;base64,Q0FSRA==")
  /\ uniform (prepareImageForCapture (quiet Scenario.relayWorks) value true)
       (Return (js "data:image/png;base64,Q0FSRA==")) [Fetched proxied].
Proof.
  intros value proxied.
  assert (R : isRemoteUrl (trim value) = true) by reflexivity.
  assert (I : inlines Scenario.relayWorks proxied
                (js "data:image/png;base64,Q0FSRA==")).
  { apply (inlines_ok _ _ {| response_ok := true;
                             response_blob := Return 7%N |} 7%N);
      reflexivity. }
  split; [exact R|]; split; [exact I|].
  refine (proj1 (prepareImageForCapture_inlines Scenario.relayWorks value true
                   [proxied; trim value] R _) [] proxied [trim value] _ _ _ I).
  - exists (js "images.unsplash.com%2Fphoto-1606502281004-f86cf1282af5%3Fw%3D400%26h%3D600%26fit%3Dcrop").
    split; reflexivity.
  - reflexivity.
  - constructor.
Defined.

Lemma waitForImages_resolves_witness :
  exists r,
    uniform (waitForImages (quiet Scenario.relayWorks) 1%N) r [Listening 2]
    /\ r = Return tt.
Proof.
  destruct (waitForImages_resolves Scenario.relayWorks 1%N)
    as (r & Hu & _ & _ & _ & Hret & _).
  exists r; split; [exact Hu|].
  apply Hret; intros i Hi; vm_compute in Hi.
  destruct Hi as [<- | []]; right; reflexivity.
Defined.

(* ===================================================================== *)
(** * Further properties of the editor *)
(* ===================================================================== *)

(** ** The proxied form of a reference *)

Section ProxiedForm.

Local Open Scope N_scope.

Lemma hexDigit_unreserved (n : N) :
  n < 16 -> uriUnreserved (hexDigit n) = true.
Proof.
  intros H; unfold hexDigit, uriUnreserved, isAlnum.
  destruct (N.ltb_spec n 10) as [L|L].
  - replace (N.leb 48 (48 + n) && N.leb (48 + n) 57) with true;
      [reflexivity|].
    symmetry; apply andb_true_iff; split; apply N.leb_le; lia.
  - replace (N.leb 65 (55 + n) && N.leb (55 + n) 90) with true;
      [rewrite orb_true_r; reflexivity|].
    symmetry; apply andb_true_iff; split; apply N.leb_le; lia.
Qed.

Lemma percentByte_safe (b : N) :
  b < 256 -> forallb uriSafe (percentByte b) = true.
Proof.
  intros H; unfold percentByte; cbn [forallb]; unfold uriSafe.
  assert (H1 : b / 16 < 16) by (apply N.Div0.div_lt_upper_bound; lia).
  assert (H2 : b mod 16 < 16) by (apply N.mod_lt; lia).
  rewrite (hexDigit_unreserved _ H1), (hexDigit_unreserved _ H2).
  reflexivity.
Qed.

Lemma percentEncode_safe (cp : N) :
  cp < 1114112 -> forallb uriSafe (percentEncode cp) = true.
Proof.
  intros H; unfold percentEncode.
  pose proof (utf8_bytes cp H) as B.
  induction B as [|b l Hb _ IH]; [reflexivity|].
  cbn [flat_map]; rewrite forallb_app, IH, percentByte_safe by exact Hb.
  reflexivity.
Qed.

(** What holds of the unreserved code units and of every escape holds of
    every code unit of an encoding. *)
Lemma encodeURIComponent_forallb_upto (P : N -> bool) (n : nat) :
  (forall c, uriUnreserved c = true -> P c = true) ->
  (forall cp, cp < 1114112 -> forallb P (percentEncode cp) = true) ->
  forall s e, (List.length s <= n)%nat -> wellFormed s ->
    encodeURIComponent s = Some e -> forallb P e = true.
Proof.
  intros HU HP; induction n as [|n IH]; intros s e Hn Hwf.
  - destruct s; [|simpl in Hn; lia].
    cbn; intros E; apply some_inj in E; subst e; reflexivity.
  - destruct s as [|c t];
      [cbn; intros E; apply some_inj in E; subst e; reflexivity|].
    inversion Hwf as [|? ? Hc Ht]; subst.
    cbn [encodeURIComponent].
    destruct (uriUnreserved c) eqn:U.
    { destruct (encodeURIComponent t) as [e'|] eqn:E'; [|discriminate].
      cbn [option_map]; intros E; apply some_inj in E; subst e.
      cbn [forallb]; rewrite (HU _ U).
      apply (IH t e'); [simpl in Hn; lia | exact Ht | exact E']. }
    destruct (isLowSurrogate c) eqn:L; [discriminate|].
    destruct (isHighSurrogate c) eqn:Hi.
    { destruct t as [|d t']; [discriminate|].
      destruct (isLowSurrogate d) eqn:Ld; [|discriminate].
      destruct (encodeURIComponent t') as [e'|] eqn:E'; [|discriminate].
      cbn [option_map]; intros E; apply some_inj in E; subst e.
      inversion Ht as [|? ? Hd Ht']; subst.
      unfold isHighSurrogate in Hi; unfold isLowSurrogate in Ld.
      rewrite andb_true_iff, !N.leb_le in Hi, Ld.
      rewrite forallb_app, HP by lia.
      apply (IH t' e'); [simpl in Hn; lia | exact Ht' | exact E']. }
    destruct (encodeURIComponent t) as [e'|] eqn:E'; [|discriminate].
    cbn [option_map]; intros E; apply some_inj in E; subst e.
    rewrite forallb_app, HP by lia.
    apply (IH t e'); [simpl in Hn; lia | exact Ht | exact E'].
Qed.

Lemma encodeURIComponent_safe (s e : jsstring) :
  wellFormed s -> encodeURIComponent s = Some e -> forallb uriSafe e = true.
Proof.
  apply (encodeURIComponent_forallb_upto uriSafe (List.length s));
    [|exact percentEncode_safe|lia].
  intros c U; unfold uriSafe; rewrite U; reflexivity.
Qed.




(** A string without surrogates has an encoding. *)
Lemma encodeURIComponent_surrogateFree (s : jsstring) :
  surrogateFree s = true -> exists e, encodeURIComponent s = Some e.
Proof.
  induction s as [|c t IH]; [exists []; reflexivity|].
  unfold surrogateFree; cbn [forallb].
  rewrite andb_true_iff, negb_true_iff, orb_false_iff.
  intros [[Hi Lo] Ht]; destruct (IH Ht) as (e & He).
  cbn [encodeURIComponent]; rewrite Hi, Lo, He.
  destruct (uriUnreserved c); eexists; reflexivity.
Qed.

Lemma trimStart_incl (s : jsstring) (x : N) : In x (trimStart s) -> In x s.
Proof.
  induction s as [|d t IH]; simpl; [auto|].
  destruct (isWhiteSpace d); simpl; intuition.
Qed.

Lemma trim_incl (s : jsstring) (x : N) : In x (trim s) -> In x s.
Proof.
  unfold trim, trimEnd; intros H.
  apply in_rev, trimStart_incl, in_rev, trimStart_incl in H; exact H.
Qed.

Lemma stripScheme_incl (t : jsstring) (x : N) :
  In x (stripScheme t) -> In x t.
Proof.
  unfold stripScheme; destruct (afterScheme t) as [r|] eqn:E; [|auto].
  apply afterScheme_Some in E; destruct E as (l & E & _).
  intros H; rewrite E; apply in_or_app; right; apply in_or_app; right.
  exact H.
Qed.

Lemma trim_wellFormed (s : jsstring) : wellFormed s -> wellFormed (trim s).
Proof.
  unfold wellFormed; rewrite !Forall_forall; intros H x Hx.
  apply H, trim_incl, Hx.
Qed.

Lemma stripScheme_wellFormed (s : jsstring) :
  wellFormed s -> wellFormed (stripScheme s).
Proof.
  unfold wellFormed; rewrite !Forall_forall; intros H x Hx.
  apply H, stripScheme_incl, Hx.
Qed.

Lemma surrogateFree_incl (s t : jsstring) :
  (forall x, In x t -> In x s) ->
  surrogateFree s = true -> surrogateFree t = true.
Proof.
  unfold surrogateFree; rewrite !forallb_forall; intros Sub H x Hx.
  apply H, Sub, Hx.
Qed.

Lemma relay_isRemoteUrl (e : jsstring) : isRemoteUrl (relayBase ++ e) = true.
Proof. reflexivity. Qed.

Lemma relay_not_data (e : jsstring) : isDataUrl (relayBase ++ e) = false.
Proof. reflexivity. Qed.


End ProxiedForm.

(** X1: whenever [buildProxyUrl] returns, on a string of code units, its
    result is the relay base followed by characters that are unreserved
    in a URI or the percent sign of an escape; the result is classified as
    a remote and as an already proxied reference, has no white space to
    trim, and the display normalizer leaves it as it is. *)
Theorem buildProxyUrl_safe (value r : jsstring)
  (Hwf : wellFormed value) (Hr : buildProxyUrl value = Return r) :
  exists e,
    encodeURIComponent (stripScheme value) = Some e
    /\ r = relayBase ++ e
    /\ forallb uriSafe e = true
    /\ isRemoteUrl r = true /\ isProxyUrl r = true /\ isDataUrl r = false
    /\ trim r = r
    /\ forall p, displayCardImage r p = Return r.
Proof.
  revert Hr; unfold buildProxyUrl.
  destruct (encodeURIComponent (stripScheme value)) as [e|] eqn:E;
    [|discriminate].
  intros H; apply return_inj in H; subst r.
  pose proof (stripScheme_wellFormed _ Hwf) as Ws.
  pose proof (encodeURIComponent_noWhiteSpace _ _ Ws E) as W.
  exists e; split; [reflexivity|]; split; [reflexivity|].
  split; [exact (encodeURIComponent_safe _ _ Ws E)|].
  split; [apply relay_isRemoteUrl|].
  split; [apply relay_isProxyUrl|].
  split; [apply relay_not_data|].
  split; [apply relay_trim; exact W|].
  intros p; unfold displayCardImage.
  rewrite (relay_trim _ W), relay_isProxyUrl, orb_true_r.
  destruct (negb (truthy (relayBase ++ e))); reflexivity.
Qed.

Lemma buildProxyUrl_safe_witness :
  wellFormed (js "http://a.io/x y.png?w=1&h=2")
  /\ exists e,
       encodeURIComponent (stripScheme (js "http://a.io/x y.png?w=1&h=2"))
       = Some e
       /\ js "https://images.weserv.nl/?url=a.io%2Fx%20y.png%3Fw%3D1%26h%3D2"
          = relayBase ++ e
       /\ forallb uriSafe e = true.
Proof.
  assert (W : wellFormed (js "http://a.io/x y.png?w=1&h=2")).
  { unfold wellFormed; apply Forall_forall; intros x Hx.
    repeat (destruct Hx as [<- | Hx]; [reflexivity|]); contradiction. }
  split; [exact W|].
  destruct (buildProxyUrl_safe (js "http://a.io/x y.png?w=1&h=2")
              (js "https://images.weserv.nl/?url=a.io%2Fx%20y.png%3Fw%3D1%26h%3D2")
              W eq_refl) as (e & E & R & S & _).
  exists e; split; [exact E|]; split; [exact R | exact S].
Defined.

(** X2: a reference without surrogate code units never raises the
    [URIError] of [encodeURIComponent]: [buildProxyUrl] returns on it and
    on its trimmed value, and the display normalizer returns for both
    values of the proxy flag. *)
Theorem surrogateFree_no_URIError (value : jsstring)
  (Hfree : surrogateFree value = true) :
  (exists r, buildProxyUrl value = Return r)
  /\ (exists r, buildProxyUrl (trim value) = Return r)
  /\ (forall p, exists r, displayCardImage value p = Return r).
Proof.
  assert (B : forall t, (forall x, In x t -> In x value) ->
                        exists r, buildProxyUrl t = Return r).
  { intros t Sub; unfold buildProxyUrl.
    destruct (encodeURIComponent_surrogateFree (stripScheme t)) as (e & ->).
    - apply (surrogateFree_incl value); [|exact Hfree].
      intros x Hx; apply Sub, stripScheme_incl, Hx.
    - eexists; reflexivity. }
  split; [apply B; auto|].
  split; [apply B; intros x; apply trim_incl|].
  intros p; unfold displayCardImage.
  destruct (negb (truthy (trim value))); [eexists; reflexivity|].
  destruct (negb p || isDataUrl (trim value) || isProxyUrl (trim value));
    [eexists; reflexivity|].
  destruct (isRemoteUrl (trim value)); [|eexists; reflexivity].
  apply B; intros x; apply trim_incl.
Qed.

Lemma surrogateFree_no_URIError_witness :
  surrogateFree (cardImage Scenario.defaults) = true
  /\ exists r, displayCardImage (cardImage Scenario.defaults) true = Return r.
Proof.
  split; [reflexivity|].
  exact (proj2 (proj2 (surrogateFree_no_URIError
                         (cardImage Scenario.defaults) eq_refl)) true).
Defined.

(** X3: what the display normalizer returns with the proxy enabled when
    its result is an http(s) URL.  Either the reference had no relay
    marker and the result is the relay URL built from it, which starts
    with the relay base; or the reference contains a relay marker
    somewhere and is returned as it is, trimmed.  The marker test does not
    look at the host: a URL of another host that carries a marker in its
    query is handed to the renderer unchanged and does not go through the
    relay. *)
Theorem displayCardImage_relay_or_marked (s r : jsstring)
  (Hr : displayCardImage s true = Return r)
  (Hremote : isRemoteUrl r = true) :
  ((isProxyUrl (trim s) = false
    /\ buildProxyUrl (trim s) = Return r
    /\ startsWith r relayBase = true)
   \/ (isProxyUrl (trim s) = true /\ r = trim s))
  /\ isProxyUrl r = true
  /\ (let marked := js "https://evil.example/x.png?ref=wsrv.nl/?url=" in
      displayCardImage marked true = Return marked
      /\ isRemoteUrl marked = true
      /\ startsWith marked relayBase = false).
Proof.
  assert (Cases : (isProxyUrl (trim s) = false
                   /\ buildProxyUrl (trim s) = Return r
                   /\ startsWith r relayBase = true)
                  \/ (isProxyUrl (trim s) = true /\ r = trim s)).
  { revert Hr; unfold displayCardImage.
    destruct (truthy (trim s)) eqn:T; cbn [negb orb].
    - destruct (isDataUrl (trim s)) eqn:D; cbn [orb].
      + intros H; apply return_inj in H; subst r.
        rewrite (isRemoteUrl_not_data _ Hremote) in D; discriminate.
      + destruct (isProxyUrl (trim s)) eqn:P.
        * intros H; apply return_inj in H; subst r.
          right; split; reflexivity.
        * destruct (isRemoteUrl (trim s)) eqn:R.
          -- intros H; left; split; [reflexivity|]; split; [exact H|].
             revert H; unfold buildProxyUrl.
             destruct (encodeURIComponent (stripScheme (trim s))) as [e|];
               [|discriminate].
             intros H; apply return_inj in H; subst r.
             apply startsWith_app.
          -- intros H; apply return_inj in H; subst r.
             rewrite R in Hremote; discriminate.
    - intros H; apply return_inj in H; subst r.
      rewrite (isRemoteUrl_truthy _ Hremote) in T; discriminate. }
  split; [exact Cases|]; split; [|repeat split; reflexivity].
  destruct Cases as [(_ & B & _) | (P & ->)]; [|exact P].
  revert B; unfold buildProxyUrl.
  destruct (encodeURIComponent (stripScheme (trim s))) as [e|];
    [|discriminate].
  intros H; apply return_inj in H; subst r; apply relay_isProxyUrl.
Qed.

Lemma displayCardImage_relay_or_marked_witness :
  displayCardImage (js " HTTPS://a.io/x.png ") true
  = Return (js "https://images.weserv.nl/?url=a.io%2Fx.png")
  /\ startsWith (js "https://images.weserv.nl/?url=a.io%2Fx.png") relayBase
     = true
  /\ isProxyUrl (js "https://images.weserv.nl/?url=a.io%2Fx.png") = true.
Proof.
  destruct (displayCardImage_relay_or_marked (js " HTTPS://a.io/x.png ")
              (js "https://images.weserv.nl/?url=a.io%2Fx.png")
              eq_refl eq_refl) as (Cases & Marked & _).
  split; [reflexivity|]; split; [|exact Marked].
  destruct Cases as [(_ & _ & S) | (P & _)]; [exact S | discriminate P].
Defined.

(** ** Download names *)

(** X4: [formatFilename] gives different names to different selections of
    trend, format and template, so two exports of different variants never
    share a download name. *)
Theorem formatFilename_injective (t t' : TrendDirection)
  (f f' : ExportFormat) (tpl tpl' : TemplateVariant)
  (Hsame : formatFilename t f tpl = formatFilename t' f' tpl') :
  t = t' /\ f = f' /\ tpl = tpl'.
Proof.
  destruct t, t', f, f', tpl, tpl';
    first [ repeat split; reflexivity
          | exfalso; cbv in Hsame; discriminate Hsame ].
Qed.

Lemma formatFilename_injective_witness :
  formatFilename down jpeg impact = js "pokemon-thumbnail-impact-down.jpg"
  /\ down = down /\ jpeg = jpeg /\ impact = impact.
Proof.
  split; [reflexivity|].
  exact (formatFilename_injective down down jpeg jpeg impact impact eq_refl).
Defined.

(** ** The displayed change text *)

Section ChangeTextShape.

Import ChangePercentSpec.

Lemma trimEnd_cons (c : N) (x : jsstring) :
  isWhiteSpace c = false -> trimEnd (c :: x) = c :: trimEnd x.
Proof.
  intros H; unfold trimEnd; cbn [rev].
  rewrite (trimStart_snoc _ _ H), rev_app_distr; reflexivity.
Qed.

Lemma digits_no_percent (s : jsstring) : ~ In 37%N (digits s).
Proof.
  unfold digits; intros H; apply filter_In in H; destruct H as [_ H].
  discriminate H.
Qed.

Lemma digits_signed (c : N) (x : jsstring) :
  isSign c = true ->
  match x with
  | [] => True
  | d :: _ => isWhiteSpace d = false /\ isSign d = false
  end ->
  digits (c :: x) = digits x.
Proof.
  intros Hc Hx.
  assert (Wc : isWhiteSpace c = false).
  { unfold isSign in Hc; apply orb_true_iff in Hc.
    destruct Hc as [Hc|Hc]; apply N.eqb_eq in Hc; subst c; reflexivity. }
  unfold digits, trim; cbn [trimStart]; rewrite Wc.
  rewrite (trimEnd_cons _ _ Wc); cbn [stripLeadingSign]; rewrite Hc.
  destruct x as [|d x]; [reflexivity|].
  destruct Hx as [Wd Sd]; cbn [trimStart]; rewrite Wd.
  rewrite (trimEnd_cons _ _ Wd); cbn [stripLeadingSign]; rewrite Sd.
  reflexivity.
Qed.

End ChangeTextShape.

(** X5: in both renderers the change text is the sign of the trend, then
    a non-empty body without any percent sign (the normalized change),
    then the only percent sign of the text.  The body need not be a
    number: one leading sign at most is removed and white space inside
    the input is kept, so [+ %] is displayed as [+ %] with a blank body
    and [++] as [++%]. *)
Theorem changeText_shape (t : TrendDirection) (s : jsstring) :
  (exists body,
      YoutubeThumbnail.changeText t s
      = ChangePercentSpec.signOf t ++ body ++ js "%"
      /\ YoutubeThumbnailImpact.changeText t s
         = ChangePercentSpec.signOf t ++ body ++ js "%"
      /\ YoutubeThumbnail.normalizedChange s = body
      /\ YoutubeThumbnailImpact.normalizedChange s = body
      /\ body <> []
      /\ ~ In 37%N body)
  /\ count_occ N.eq_dec (YoutubeThumbnail.changeText t s) 37%N = 1%nat
  /\ count_occ N.eq_dec (YoutubeThumbnailImpact.changeText t s) 37%N = 1%nat
  /\ (YoutubeThumbnail.changeText up (js "+ %") = js "+ %"
      /\ YoutubeThumbnailImpact.changeText up (js "+ %") = js "+ %"
      /\ YoutubeThumbnail.changeText up (js "++") = js "++%"
      /\ YoutubeThumbnailImpact.changeText up (js "++") = js "++%").
Proof.
  destruct (changeText_digits t s) as [E1 E2].
  destruct (normalizedChange_digits s) as [N1 N2].
  assert (Body : orElse (ChangePercentSpec.digits s) (js "0") <> []
                 /\ ~ In 37%N (orElse (ChangePercentSpec.digits s) (js "0"))).
  { unfold orElse.
    destruct (ChangePercentSpec.digits s) as [|c l] eqn:D; cbn [truthy].
    - split; [discriminate|].
      intros [H|[]]; discriminate H.
    - split; [discriminate|].
      rewrite <- D; apply digits_no_percent. }
  assert (Once : count_occ N.eq_dec
                   (ChangePercentSpec.signOf t
                    ++ orElse (ChangePercentSpec.digits s) (js "0")
                    ++ js "%") 37%N = 1%nat).
  { rewrite !count_occ_app.
    rewrite (proj1 (count_occ_not_In N.eq_dec _ _) (proj2 Body)).
    destruct t; reflexivity. }
  split; [|split; [rewrite E1; exact Once|];
           split; [rewrite E2; exact Once | repeat split; reflexivity]].
  exists (orElse (ChangePercentSpec.digits s) (js "0")).
  repeat (split; [assumption|]); exact Body.
Qed.

(** X6: a sign typed in front of the change is dropped and the displayed
    sign is that of the trend: for an input [x] that starts neither with
    white space nor with a sign, [+x], [-x] and [x] are displayed alike. *)
Theorem changeText_sign_ignored (t : TrendDirection) (x : jsstring)
  (Hx : match x with
        | [] => True
        | d :: _ => isWhiteSpace d = false
                    /\ ChangePercentSpec.isSign d = false
        end) :
  YoutubeThumbnail.changeText t (43%N :: x) = YoutubeThumbnail.changeText t x
  /\ YoutubeThumbnail.changeText t (45%N :: x)
     = YoutubeThumbnail.changeText t x
  /\ YoutubeThumbnailImpact.changeText t (43%N :: x)
     = YoutubeThumbnailImpact.changeText t x
  /\ YoutubeThumbnailImpact.changeText t (45%N :: x)
     = YoutubeThumbnailImpact.changeText t x.
Proof.
  destruct (changeText_digits t x) as [E1 E2].
  destruct (changeText_digits t (43%N :: x)) as [P1 P2].
  destruct (changeText_digits t (45%N :: x)) as [M1 M2].
  rewrite E1, E2, P1, P2, M1, M2.
  rewrite (digits_signed 43 x eq_refl Hx), (digits_signed 45 x eq_refl Hx).
  repeat split; reflexivity.
Qed.

Lemma changeText_sign_ignored_witness :
  YoutubeThumbnail.changeText down (js "+12.5%")
  = YoutubeThumbnail.changeText down (js "12.5%")
  /\ YoutubeThumbnail.changeText down (js "12.5%") = js "-12.5%".
Proof.
  split; [|reflexivity].
  exact (proj1 (changeText_sign_ignored down (js "12.5%")
                  (conj eq_refl eq_refl))).
Defined.

(** ** The requests of capture-time inlining *)

Section InliningRequests.

Variable env : environment.

(** The loop fetches a prefix of the candidates that starts with the
    first one. *)
Lemma inlineFirst_prefix (cands : list jsstring) :
  exists r tried,
    uniform (inlineFirst (quiet env) cands) r (map Fetched tried)
    /\ (forall x, r <> Throw x)
    /\ (exists rest, cands = tried ++ rest)
    /\ match cands with
       | [] => tried = []
       | c :: _ => exists more, tried = c :: more
       end.
Proof.
  destruct cands as [|c cands]; cbn [inlineFirst].
  - exists (Return None), []; split; [apply uniform_ret|].
    split; [discriminate|]; split; [exists []|]; reflexivity.
  - destruct (inlineCandidate_total env c) as (r & Hr & Hx).
    destruct r as [[d|]|x|].
    + exists (Return (Some d)), [c]; split.
      * rewrite <- (app_nil_r (map Fetched [c])).
        apply (uniform_bind _ _ (Some d)); [exact Hr | apply uniform_ret].
      * split; [discriminate|]; split; [exists cands | exists []];
          reflexivity.
    + destruct (inlineFirst_total env cands)
        as (r' & tried & Hu & Hx' & rest & ->).
      exists r', (c :: tried); split.
      * change (map Fetched (c :: tried))
          with ([Fetched c] ++ map Fetched tried).
        apply (uniform_bind _ _ None); [exact Hr | exact Hu].
      * split; [exact Hx'|]; split; [exists rest | exists tried];
          reflexivity.
    + exfalso; apply (Hx x); reflexivity.
    + exists Hang, [c]; split.
      * apply uniform_bind_hang; exact Hr.
      * split; [discriminate|]; split; [exists cands | exists []];
          reflexivity.
Qed.

Lemma inlineLoop_prefix (trimmed : jsstring) (cands : list jsstring) :
  exists r tried,
    uniform (r <- inlineFirst (quiet env) cands ;;
             match r with
             | Some d => ret d
             | None => ret trimmed
             end) r (map Fetched tried)
    /\ (forall x, r <> Throw x)
    /\ (exists rest, cands = tried ++ rest)
    /\ match cands with
       | [] => tried = []
       | c :: _ => exists more, tried = c :: more
       end.
Proof.
  destruct (inlineFirst_prefix cands) as (r & tried & Hu & Hx & Hp & Hf).
  destruct r as [[d|]|x|].
  - exists (Return d), tried; split; [|repeat split; (discriminate || assumption)].
    rewrite <- (app_nil_r (map Fetched tried)).
    apply (uniform_bind _ _ (Some d)); [exact Hu | apply uniform_ret].
  - exists (Return trimmed), tried;
      split; [|repeat split; (discriminate || assumption)].
    rewrite <- (app_nil_r (map Fetched tried)).
    apply (uniform_bind _ _ None); [exact Hu | apply uniform_ret].
  - exfalso; apply (Hx x); reflexivity.
  - exists Hang, tried; split; [|repeat split; (discriminate || assumption)].
    apply uniform_bind_hang; exact Hu.
Qed.

Lemma local_not_remote (t : jsstring) :
  negb (truthy t) || isDataUrl t || startsWith t (js "blob:") = true ->
  isRemoteUrl t = false.
Proof.
  intros H; destruct (isRemoteUrl t) eqn:R; [|reflexivity].
  rewrite (isRemoteUrl_truthy _ R), (isRemoteUrl_not_data _ R),
    (isRemoteUrl_not_blob _ R) in H; discriminate.
Qed.

End InliningRequests.

(** Capture-time inlining only fetches, and what it fetches is a prefix
    of the candidates. *)
Lemma prepareImageForCapture_prefix (env : environment)
  (value : jsstring) (proxy : bool) :
  exists r tried,
    uniform (prepareImageForCapture (quiet env) value proxy) r
      (map Fetched tried)
    /\ (exists rest, candidates value proxy = tried ++ rest).
Proof.
  unfold prepareImageForCapture, candidates.
  destruct (negb (truthy (trim value)) || isDataUrl (trim value)
            || startsWith (trim value) (js "blob:")) eqn:Local.
  { apply local_not_remote in Local; rewrite Local.
    exists (Return (trim value)), []; split; [apply uniform_ret|].
    exists []; reflexivity. }
  destruct (isRemoteUrl (trim value)) eqn:R; cbn [negb].
  2:{ exists (Return (trim value)), []; split; [apply uniform_ret|].
      exists []; reflexivity. }
  destruct proxy.
  - destruct (buildProxyUrl (trim value)) as [q|x|] eqn:Q.
    + destruct (inlineLoop_prefix env (trim value) [q; trim value])
        as (r & tried & Hu & _ & Hp & _).
      exists r, tried; split; [|exact Hp].
      change (map Fetched tried) with ([] ++ map Fetched tried).
      apply (uniform_bind _ _ [q; trim value]); [|exact Hu].
      change (@nil event) with (@nil event ++ []).
      apply (uniform_bind _ _ q); [apply uniform_call | apply uniform_ret].
    + exists (Throw x), []; split; [|exists []; reflexivity].
      apply uniform_bind_throw, uniform_bind_throw, uniform_call.
    + exists Hang, []; split; [|exists []; reflexivity].
      apply uniform_bind_hang, uniform_bind_hang, uniform_call.
  - destruct (inlineLoop_prefix env (trim value) [trim value])
      as (r & tried & Hu & _ & Hp & _).
    exists r, tried; split; [|exact Hp].
    change (map Fetched tried) with ([] ++ map Fetched tried).
    apply (uniform_bind _ _ [trim value]); [apply uniform_ret | exact Hu].
Qed.

(** X7: the requests of capture-time inlining.  From every state the
    function ends the same way and its only effects are fetches: of a
    prefix of the candidates (the proxied form first when the proxy flag
    is set, then the trimmed reference), so of at most two URLs, and of one
    at most with the proxy disabled.  A reference that is not an http(s)
    URL is returned trimmed without any fetch.  The function can only
    throw the [URIError] of the percent-encoding, with the proxy enabled
    and before any fetch. *)
Theorem prepareImageForCapture_requests (env : environment)
  (value : jsstring) (proxy : bool) :
  exists r tried,
    uniform (prepareImageForCapture (quiet env) value proxy) r
      (map Fetched tried)
    /\ (exists rest, candidates value proxy = tried ++ rest)
    /\ (List.length tried <= if proxy then 2 else 1)%nat
    /\ (isRemoteUrl (trim value) = false ->
        r = Return (trim value) /\ tried = [])
    /\ (forall x, r = Throw x ->
          x = uriError /\ proxy = true /\ tried = []
          /\ isRemoteUrl (trim value) = true
          /\ encodeURIComponent (stripScheme (trim value)) = None).
Proof.
  unfold prepareImageForCapture, candidates.
  destruct (negb (truthy (trim value)) || isDataUrl (trim value)
            || startsWith (trim value) (js "blob:")) eqn:Local.
  { apply local_not_remote in Local; rewrite Local.
    exists (Return (trim value)), []; split; [apply uniform_ret|].
    split; [exists []; reflexivity|].
    split; [destruct proxy; cbn; lia|].
    split; [split; reflexivity | discriminate]. }
  destruct (isRemoteUrl (trim value)) eqn:R; cbn [negb].
  2:{ exists (Return (trim value)), []; split; [apply uniform_ret|].
      split; [exists []; reflexivity|].
      split; [destruct proxy; cbn; lia|].
      split; [split; reflexivity | discriminate]. }
  destruct proxy.
  - unfold buildProxyUrl.
    destruct (encodeURIComponent (stripScheme (trim value))) as [e|] eqn:E.
    + destruct (inlineLoop_prefix env (trim value)
                  [relayBase ++ e; trim value])
        as (r & tried & Hu & Hx & (rest & Hp) & _).
      exists r, tried; split.
      * change (map Fetched tried) with ([] ++ map Fetched tried).
        apply (uniform_bind _ _ [relayBase ++ e; trim value]); [|exact Hu].
        change (@nil event) with (@nil event ++ []).
        apply (uniform_bind _ _ (relayBase ++ e));
          [apply uniform_call | apply uniform_ret].
      * split; [exists rest; exact Hp|].
        split.
        { apply (f_equal (@List.length jsstring)) in Hp.
          rewrite length_app in Hp; cbn [List.length] in Hp; lia. }
        split; [discriminate|].
        intros x Ex; exfalso; apply (Hx x); exact Ex.
    + exists (Throw uriError), []; split.
      * apply uniform_bind_throw, uniform_bind_throw, uniform_call.
      * split; [exists []; reflexivity|].
        split; [cbn; lia|].
        split; [discriminate|].
        intros x Ex; injection Ex as <-.
        repeat split; reflexivity.
  - destruct (inlineLoop_prefix env (trim value) [trim value])
      as (r & tried & Hu & Hx & (rest & Hp) & _).
    exists r, tried; split.
    + change (map Fetched tried) with ([] ++ map Fetched tried).
      apply (uniform_bind _ _ [trim value]); [apply uniform_ret | exact Hu].
    + split; [exists rest; exact Hp|].
      split.
      { apply (f_equal (@List.length jsstring)) in Hp.
        rewrite length_app in Hp; cbn [List.length] in Hp; lia. }
      split; [discriminate|].
      intros x Ex; exfalso; apply (Hx x); exact Ex.
Qed.



Lemma prepareImageForCapture_requests_witness :
  isRemoteUrl (trim (js " data:image/png;base64,AAAA ")) = false
  /\ uniform (prepareImageForCapture (quiet Scenario.taintedCapture)
                (js " data:image/png;base64,AAAA ") true)
       (Return (js "data:image/png;base64,AAAA")) [].
Proof.
  split; [reflexivity|].
  destruct (prepareImageForCapture_requests Scenario.taintedCapture
              (js " data:image/png;base64,AAAA ") true)
    as (r & tried & Hu & _ & _ & Local & _).
  destruct (Local eq_refl) as [Er Et].
  rewrite Er, Et in Hu; exact Hu.
Defined.

(** ** The export in any browser *)

Section AnyBrowser.

Variable env : environment.

Lemma tryCatch_no_throw {A : Type} (c : M A) (h : thrown -> M A)
  (m : machine) :
  (forall e m' x, fst (h e m') <> Throw x) ->
  forall x, fst (tryCatch c h m) <> Throw x.
Proof.
  intros Hh x; unfold tryCatch.
  destruct (c m) as [[a|e|] m']; cbn [fst]; [discriminate | apply Hh |
                                              discriminate].
Qed.

Lemma failureReport_no_throw (e : thrown) (m : machine) (x : thrown) :
  fst ((emit (Errored e) ;; emit (Alerted (failureAlert e))) m) <> Throw x.
Proof. rewrite failureReport_effect; discriminate. Qed.

(** The [finally] block: a statement that completes leaves the flag
    cleared, and only throws what its [try] part throws. *)
Lemma tryFinally_cleanup {A : Type} (c : M A) (original : jsstring)
  (m : machine) :
  (fst (tryFinally c (cleanup original) m) <> Hang ->
   isDownloading (mem (snd (tryFinally c (cleanup original) m))) = false
   /\ exists earlier,
        log (mem (snd (tryFinally c (cleanup original) m)))
        = earlier ++ [SetIsDownloading false])
  /\ (forall x, fst (tryFinally c (cleanup original) m) = Throw x ->
                fst (c m) = Throw x).
Proof.
  unfold tryFinally.
  destruct (c m) as [[a|e|] m']; rewrite ?cleanup_effect; cbn [fst snd mem].
  - split; [intros _|discriminate].
    split; [reflexivity|].
    cbn [log extend]; rewrite app_assoc; eexists; reflexivity.
  - split; [intros _|auto].
    split; [reflexivity|].
    cbn [log extend]; rewrite app_assoc; eexists; reflexivity.
  - split; [intros H; exfalso; apply H; reflexivity | discriminate].
Qed.

Lemma exportRun_finally (ci : jsstring) (up : bool) (t : TrendDirection)
  (f : ExportFormat) (tpl : TemplateVariant) (w : world) :
  exportRun env ci up t f tpl (activation w)
  = tryFinally
      (tryCatch
         (beforeCapture env ci up ;;
          captureAndDownload env f (formatFilename t f tpl))
         (fun error =>
            emit (Errored error) ;; emit (Alerted (failureAlert error))))
      (cleanup ci) (started w).
Proof. reflexivity. Qed.

End AnyBrowser.

(** X9: in any browser, and whatever other handlers run while it is
    suspended, [downloadThumbnail] never throws (its promise is never
    rejected), and a request that passes the guard and completes ends by
    clearing the in-progress flag, so the download button is enabled
    again. *)
Theorem downloadThumbnail_releases (env : environment) (w : world) :
  (forall x, fst (downloadThumbnail env w) <> Throw x)
  /\ (previewRef w <> None -> isDownloading w = false ->
      fst (downloadThumbnail env w) <> Hang ->
      fst (downloadThumbnail env w) = Return tt
      /\ isDownloading (snd (downloadThumbnail env w)) = false
      /\ exists earlier,
           log (snd (downloadThumbnail env w))
           = earlier ++ [SetIsDownloading false]).
Proof.
  unfold downloadThumbnail.
  destruct (previewRef w) as [n|];
    [|split; [discriminate | intros H; exfalso; apply H; reflexivity]].
  destruct (isDownloading w);
    [split; [discriminate | intros _ H; discriminate H]|].
  rewrite exportRun_finally.
  pose proof (tryFinally_cleanup
                (tryCatch
                   (beforeCapture env (cardImage w) (useProxy w) ;;
                    captureAndDownload env (exportFormat w)
                      (formatFilename (trend w) (exportFormat w)
                         (template w)))
                   (fun error =>
                      emit (Errored error) ;;
                      emit (Alerted (failureAlert error))))
                (cardImage w) (started w)) as [Done Thrown].
  destruct (tryFinally _ _ (started w)) as [r m] eqn:E; cbn [fst snd] in *.
  assert (NoThrow : forall x, r <> Throw x).
  { intros x Ex; apply Thrown in Ex; revert Ex.
    apply tryCatch_no_throw; intros e m' y; apply failureReport_no_throw. }
  split; [exact NoThrow|].
  intros _ _ Hr; destruct (Done Hr) as [Flag Last].
  split; [|split; assumption].
  destruct r as [[]|x|]; [reflexivity | exfalso; apply (NoThrow x);
                                         reflexivity
                         | exfalso; apply Hr; reflexivity].
Qed.

Lemma downloadThumbnail_releases_witness :
  let env :=
    withHandlers Scenario.bothFail
      (fun w => withCardImage w (js "https://other.example/b.png")) in
  fst (downloadThumbnail env Scenario.defaults) = Return tt
  /\ isDownloading (snd (downloadThumbnail env Scenario.defaults)) = false.
Proof.
  intros env.
  assert (Ends : fst (downloadThumbnail env Scenario.defaults) <> Hang)
    by (vm_compute; discriminate).
  destruct (proj2 (downloadThumbnail_releases env Scenario.defaults)
              ltac:(discriminate) eq_refl Ends) as (R & F & _).
  split; assumption.
Defined.

(** ** The steps of a run, one by one *)

Section Trace.

Variable env : environment.

Lemma fontWait_outcome :
  uniform (match fontsReady (quiet env) with
           | Some ready => await (quiet env) ready
           | None => ret tt
           end) (fontOutcome env) [].
Proof.
  unfold fontOutcome; cbn [fontsReady quiet].
  destruct (fontsReady env) as [ready|];
    [apply uniform_await | apply uniform_ret].
Qed.

Lemma waitForImages_outcome (root : node) :
  uniform (waitForImages (quiet env) root) (waitOutcome env root)
    (waitLog env root).
Proof. apply waitForImages_uniform. Qed.

(** The steps before the capture, in closed form. *)
Lemma beforeCapture_steps (ci : jsstring) (up : bool) (m : machine)
  (n : node) (rP : outcome jsstring) (evsP : list event) :
  previewRef (mem m) = Some n ->
  uniform (prepareImageForCapture (quiet env) ci up) rP evsP ->
  beforeCapture (quiet env) ci up m
  = (stepsResult (fontOutcome env) rP (waitOutcome env n),
     {| mem := extend (match stepsSwap (fontOutcome env) rP ci with
                       | Some p => withCardImage (mem m) p
                       | None => mem m
                       end)
                 (stepsLog (fontOutcome env) rP evsP ci (waitLog env n));
        shouldRestore := match stepsSwap (fontOutcome env) rP ci with
                         | Some _ => true
                         | None => shouldRestore m
                         end |}).
Proof.
  intros Hn HuP.
  pose proof fontWait_outcome as Hf.
  pose proof (waitForImages_outcome n) as HuW.
  unfold beforeCapture.
  revert Hf; destruct (fontOutcome env) as [[]|x|]; intros Hf;
    cbn [stepsResult stepsSwap stepsLog].
  2:{ rewrite (bind_throw _ _ m _ x (Hf m)), pushEvents_nil, extend_nil.
      destruct m; reflexivity. }
  2:{ rewrite (bind_hang _ _ m _ (Hf m)), pushEvents_nil, extend_nil.
      destruct m; reflexivity. }
  rewrite (bind_return _ _ m _ tt (Hf m)), pushEvents_nil.
  pose proof (uniform_awaitCall env _ _ _ HuP) as HuP'.
  destruct rP as [p|x|].
  2:{ rewrite (bind_throw _ _ m _ x (HuP' m)), app_nil_r; reflexivity. }
  2:{ rewrite (bind_hang _ _ m _ (HuP' m)), app_nil_r; reflexivity. }
  rewrite (bind_return _ _ m _ p (HuP' m)).
  pose proof (uniform_awaitCall env _ _ _ HuW) as HuW'.
  unfold swaps.
  destruct (truthy p && negb (strictEq p ci)) eqn:Swap.
  - unfold bind at 1.
    unfold bind at 1, setCardImage at 1.
    unfold bind at 1, assignShouldRestore at 1.
    unfold await at 1; cbn [otherHandlers quiet mem shouldRestore setMem
                              pushEvents fst snd].
    unfold bind at 1, readPreviewRef at 1.
    cbn [mem previewRef record extend withCardImage setMem shouldRestore].
    rewrite Hn, HuW'.
    unfold pushEvents, setMem, record; cbn [mem shouldRestore].
    rewrite !extend_extend.
    replace (extend (withCardImage (extend (mem m) evsP) p)
               ([SetCardImage p] ++ waitLog env n))
      with (extend (withCardImage (mem m) p)
              (evsP ++ [SetCardImage p] ++ waitLog env n))
      by (unfold extend, withCardImage; cbn; rewrite <- !app_assoc;
          reflexivity).
    reflexivity.
  - unfold bind at 1, ret at 1.
    unfold bind at 1, readPreviewRef at 1.
    cbn [mem previewRef pushEvents setMem extend].
    rewrite Hn, HuW', pushEvents_app.
    reflexivity.
Qed.

Lemma suspended_started (w : world) (sw : option jsstring)
  (evs : list event) :
  extend (match sw with
          | Some p => withCardImage (mem (started w)) p
          | None => mem (started w)
          end) evs
  = extend (suspended w sw) ([SetIsDownloading true] ++ evs).
Proof.
  rewrite started_mem; destruct sw as [p|]; unfold suspended;
    rewrite ?withCardImage_extend, extend_extend; reflexivity.
Qed.

(** The whole run, from the way the steps before the capture went. *)
Lemma run_from_prelude (w : world) (n : node) (pre : outcome unit)
  (sw : option jsstring) (evsA : list event) :
  previewRef w = Some n -> isDownloading w = false ->
  beforeCapture (quiet env) (cardImage w) (useProxy w) (started w)
  = (pre, {| mem := extend (match sw with
                            | Some p => withCardImage (mem (started w)) p
                            | None => mem (started w)
                            end) evsA;
             shouldRestore := match sw with
                              | Some _ => true
                              | None => false
                              end |}) ->
  downloadThumbnail (quiet env) w
  = match tryResult pre (primaryOutcome env w) (fallbackOutcome env w) with
    | Hang =>
        (Hang,
         extend (suspended w sw)
           ([SetIsDownloading true] ++ evsA
            ++ tryLog pre (primaryOutcome env w) (fallbackOutcome env w)
                 (formatFilename (trend w) (exportFormat w) (template w))))
    | _ =>
        (Return tt,
         extend w
           ([SetIsDownloading true] ++ evsA
            ++ tryLog pre (primaryOutcome env w) (fallbackOutcome env w)
                 (formatFilename (trend w) (exportFormat w) (template w))
            ++ restoreLog sw (cardImage w)
            ++ [SetIsDownloading false]))
    end.
Proof.
  intros Hn Hidle Hpre.
  destruct (exportWithHtmlToImage_uniform env (previewRef w) (exportFormat w))
    as (P & HP).
  destruct (exportWithHtml2Canvas_uniform env (previewRef w) (exportFormat w))
    as (F & HF).
  unfold primaryOutcome, fallbackOutcome.
  rewrite (uniform_fst _ _ _ (started w) HP).
  rewrite (uniform_fst _ _ _ (started w) HF).
  set (filename := formatFilename (trend w) (exportFormat w) (template w)).
  assert (Run : forall r m',
    tryCatch
      (beforeCapture (quiet env) (cardImage w) (useProxy w) ;;
       captureAndDownload (quiet env) (exportFormat w) filename)
      (fun error =>
         emit (Errored error) ;; emit (Alerted (failureAlert error)))
      (started w) = (r, m') ->
    downloadThumbnail (quiet env) w
    = match r with
      | Hang => (Hang, mem m')
      | _ => (r, mem (snd (cleanup (cardImage w) m')))
      end).
  { intros r m' E.
    unfold downloadThumbnail; rewrite Hn, Hidle.
    rewrite exportRun_finally.
    unfold tryFinally; fold filename; rewrite E.
    rewrite cleanup_effect; destruct r; reflexivity. }
  pose (mA := {| mem := extend match sw with
                               | Some p => withCardImage (mem (started w)) p
                               | None => mem (started w)
                               end evsA;
                 shouldRestore := match sw with
                                  | Some _ => true
                                  | None => false
                                  end |}).
  fold mA in Hpre.
  assert (Cap : captureAndDownload (quiet env) (exportFormat w) filename mA
                = (captureResult P F,
                   pushEvents mA (captureLog P F filename))).
  { apply (captureAndDownload_effect env _ _ _ (previewRef w));
      [destruct sw; reflexivity | exact HP | exact HF]. }
  assert (Final : forall evsB,
    mem (snd (cleanup (cardImage w) (pushEvents mA evsB)))
    = extend w ([SetIsDownloading true] ++ evsA ++ evsB
                ++ restoreLog sw (cardImage w) ++ [SetIsDownloading false])).
  { intros evsB; rewrite cleanup_effect; cbn [snd mem].
    unfold mA, pushEvents, setMem; cbn [mem shouldRestore].
    rewrite started_mem.
    destruct sw as [p|]; cbn [shouldRestore restoreLog].
    - destruct (world_unchanged w
                  ([SetIsDownloading true] ++ evsA ++ evsB
                   ++ [SetCardImage (cardImage w)] ++ [SetIsDownloading false])
                  Hidle) as [W1 _].
      rewrite <- W1.
      repeat first [ rewrite withCardImage_extend
                   | rewrite withIsDownloading_extend
                   | rewrite extend_extend
                   | rewrite withCardImage_twice
                   | rewrite withIsDownloading_twice
                   | rewrite withCardImage_withIsDownloading ].
      rewrite <- ?app_assoc; reflexivity.
    - destruct (world_unchanged w
                  ([SetIsDownloading true] ++ evsA ++ evsB
                   ++ [] ++ [SetIsDownloading false])
                  Hidle) as [_ W2].
      rewrite <- W2.
      repeat first [ rewrite withIsDownloading_extend
                   | rewrite extend_extend
                   | rewrite withIsDownloading_twice ].
      rewrite <- ?app_assoc; reflexivity. }
  assert (Stuck : forall evsB,
    mem (pushEvents mA evsB)
    = extend (suspended w sw) ([SetIsDownloading true] ++ evsA ++ evsB)).
  { intros evsB; unfold mA, pushEvents, setMem; cbn [mem shouldRestore].
    rewrite extend_extend; apply suspended_started. }
  destruct pre as [[]|x|].
  - cbn [tryResult tryLog].
    destruct (captureResult P F) as [[]|e|] eqn:R.
    + rewrite (Run (Return tt) (pushEvents mA (captureLog P F filename))).
      * rewrite Final, app_nil_r; reflexivity.
      * unfold tryCatch, bind; rewrite Hpre, Cap; rewrite ?R; reflexivity.
    + rewrite (Run (Return tt)
                 (pushEvents mA (captureLog P F filename
                                 ++ [Errored e; Alerted (failureAlert e)]))).
      * rewrite Final; reflexivity.
      * unfold tryCatch; unfold bind at 1; rewrite Hpre, Cap; rewrite ?R.
        rewrite failureReport_effect, pushEvents_app; reflexivity.
    + rewrite (Run Hang (pushEvents mA (captureLog P F filename)));
        [rewrite Stuck, app_nil_r; reflexivity|].
      unfold tryCatch, bind; rewrite Hpre, Cap; rewrite ?R; reflexivity.
  - cbn [tryResult tryLog].
    rewrite (Run (Return tt)
               (pushEvents mA [Errored x; Alerted (failureAlert x)])).
    + rewrite Final; reflexivity.
    + unfold tryCatch; unfold bind at 1; rewrite Hpre.
      apply failureReport_effect.
  - cbn [tryResult tryLog].
    rewrite (Run Hang mA).
    + rewrite <- (pushEvents_nil mA), Stuck; reflexivity.
    + unfold tryCatch, bind; rewrite Hpre; reflexivity.
Qed.

End Trace.

Section RunSteps.

Variable env : environment.

Lemma downloadThumbnail_steps (w : world) (n : node)
  (rP : outcome jsstring) (evsP : list event) :
  previewRef w = Some n -> isDownloading w = false ->
  uniform (prepareImageForCapture (quiet env) (cardImage w) (useProxy w))
    rP evsP ->
  preludeOutcome env w = stepsResult (fontOutcome env) rP (waitOutcome env n)
  /\ downloadThumbnail (quiet env) w
     = match tryResult (stepsResult (fontOutcome env) rP (waitOutcome env n))
               (primaryOutcome env w) (fallbackOutcome env w) with
       | Hang =>
           (Hang,
            extend (suspended w (stepsSwap (fontOutcome env) rP (cardImage w)))
              ([SetIsDownloading true]
               ++ stepsLog (fontOutcome env) rP evsP (cardImage w)
                    (waitLog env n)
               ++ tryLog (stepsResult (fontOutcome env) rP (waitOutcome env n))
                    (primaryOutcome env w) (fallbackOutcome env w)
                    (formatFilename (trend w) (exportFormat w) (template w))))
       | _ =>
           (Return tt,
            extend w
              ([SetIsDownloading true]
               ++ stepsLog (fontOutcome env) rP evsP (cardImage w)
                    (waitLog env n)
               ++ tryLog (stepsResult (fontOutcome env) rP (waitOutcome env n))
                    (primaryOutcome env w) (fallbackOutcome env w)
                    (formatFilename (trend w) (exportFormat w) (template w))
               ++ restoreLog (stepsSwap (fontOutcome env) rP (cardImage w))
                    (cardImage w)
               ++ [SetIsDownloading false]))
       end.
Proof.
  intros Hn Hidle HuP.
  assert (Hs : previewRef (mem (started w)) = Some n) by exact Hn.
  pose proof (beforeCapture_steps env (cardImage w) (useProxy w) (started w)
                n rP evsP Hs HuP) as Steps.
  split; [unfold preludeOutcome; rewrite Steps; reflexivity|].
  apply (run_from_prelude env w n); [exact Hn | exact Hidle | exact Steps].
Qed.

Lemma newEvents_suspended (w : world) (sw : option jsstring)
  (evs : list event) :
  newEvents w (extend (suspended w sw) evs) = evs.
Proof.
  unfold newEvents; destruct sw; cbn [log extend suspended withCardImage
                                       withIsDownloading]; apply skipn_log.
Qed.

Lemma tryLog_quiet (pre : outcome unit) (P F : outcome jsstring)
  (filename : jsstring) :
  fetches (tryLog pre P F filename) = []
  /\ cardImageWrites (tryLog pre P F filename) = [].
Proof.
  destruct pre as [[]|x|], P as [u|e1|], F as [v|e2|]; split; reflexivity.
Qed.


Lemma waitLog_quiet (n : node) :
  fetches (waitLog env n) = [] /\ cardImageWrites (waitLog env n) = [].
Proof.
  unfold waitLog.
  induction (waitedImages (querySelectorAllImg env n)) as [|i l IH];
    [split; reflexivity | exact IH].
Qed.

Lemma prepareImageForCapture_local (e : environment) (value : jsstring)
  (proxy : bool) (m : machine) :
  isRemoteUrl (trim value) = false ->
  prepareImageForCapture e value proxy m = (Return (trim value), m).
Proof.
  intros Local; unfold prepareImageForCapture.
  destruct (negb (truthy (trim value)) || isDataUrl (trim value)
            || startsWith (trim value) (js "blob:")); [reflexivity|].
  rewrite Local; reflexivity.
Qed.

Lemma prepareImageForCapture_local_uniform (value : jsstring)
  (proxy : bool) :
  isRemoteUrl (trim value) = false ->
  uniform (prepareImageForCapture (quiet env) value proxy)
    (Return (trim value)) [].
Proof.
  intros Local m; rewrite (prepareImageForCapture_local _ _ _ _ Local).
  rewrite pushEvents_nil; reflexivity.
Qed.

Lemma swaps_same (v : jsstring) : swaps v v = false.
Proof.
  unfold swaps; rewrite strictEq_refl; apply andb_false_r.
Qed.


End RunSteps.



(** X11: the order of the effects of a run whose steps before the capture
    succeed and which completes.  The flag is set first; then the
    candidates are fetched, a prefix of them in order; then the inlined
    reference is swapped in, if it differs from the original; then the
    listeners are added to the images still loading; then come the
    capture, the download and the failure report, if any; then the
    original reference is restored, if it was swapped; the flag is
    cleared last. *)
Theorem export_trace (env : environment) (w : world) (n : node)
  (Hroot : previewRef w = Some n) (Hidle : isDownloading w = false)
  (Hpre : preludeOutcome env w = Return tt)
  (Hends : fst (downloadThumbnail (quiet env) w) <> Hang) :
  exists p tried,
    uniform (prepareImageForCapture (quiet env) (cardImage w) (useProxy w))
      (Return p) (map Fetched tried)
    /\ (exists rest, candidates (cardImage w) (useProxy w) = tried ++ rest)
    /\ newEvents w (snd (downloadThumbnail (quiet env) w))
       = [SetIsDownloading true]
         ++ map Fetched tried
         ++ (if swaps p (cardImage w) then [SetCardImage p] else [])
         ++ waitLog env n
         ++ tryLog (Return tt) (primaryOutcome env w) (fallbackOutcome env w)
              (formatFilename (trend w) (exportFormat w) (template w))
         ++ (if swaps p (cardImage w)
             then [SetCardImage (cardImage w)] else [])
         ++ [SetIsDownloading false].
Proof.
  destruct (prepareImageForCapture_prefix env (cardImage w) (useProxy w))
    as (rP & tried & HuP & Prefix).
  destruct (downloadThumbnail_steps env w n rP (map Fetched tried)
              Hroot Hidle HuP) as [Pre Run].
  rewrite Hpre in Pre; rewrite <- Pre in Run.
  revert Pre Run; unfold stepsResult, stepsSwap, stepsLog.
  destruct (fontOutcome env) as [[]|x|]; try discriminate.
  destruct rP as [p|x|]; try discriminate.
  intros _ Run.
  exists p, tried; split; [exact HuP|]; split; [exact Prefix|].
  destruct (tryResult (Return tt) (primaryOutcome env w)
              (fallbackOutcome env w)) as [[]|x|] eqn:R.
  - rewrite Run; cbn [snd]; rewrite newEvents_extend.
    destruct (swaps p (cardImage w)); cbn [restoreLog];
      rewrite <- ?app_assoc; reflexivity.
  - rewrite Run; cbn [snd]; rewrite newEvents_extend.
    destruct (swaps p (cardImage w)); cbn [restoreLog];
      rewrite <- ?app_assoc; reflexivity.
  - exfalso; apply Hends; rewrite Run; reflexivity.
Qed.

Lemma export_trace_witness :
  let w := Scenario.defaults in
  let env := Scenario.primaryFails in
  preludeOutcome env w = Return tt
  /\ exists p tried,
       (exists rest, candidates (cardImage w) (useProxy w) = tried ++ rest)
       /\ newEvents w (snd (downloadThumbnail (quiet env) w))
          = [SetIsDownloading true]
            ++ map Fetched tried
            ++ (if swaps p (cardImage w) then [SetCardImage p] else [])
            ++ waitLog env 1%N
            ++ tryLog (Return tt) (primaryOutcome env w)
                 (fallbackOutcome env w)
                 (js "pokemon-thumbnail-classic-up.png")
            ++ (if swaps p (cardImage w)
                then [SetCardImage (cardImage w)] else [])
            ++ [SetIsDownloading false].
Proof.
  intros w env.
  assert (Ends : fst (downloadThumbnail (quiet env) w) <> Hang)
    by (vm_compute; discriminate).
  split; [reflexivity|].
  destruct (export_trace env w 1%N eq_refl eq_refl eq_refl Ends)
    as (p & tried & _ & Prefix & E).
  exists p, tried; split; [exact Prefix | exact E].
Defined.

(** X12: the export of a reference whose trimmed value is not an http(s)
    URL (an uploaded image as a data URL, a blob URL, a relative path,
    the empty reference).  The inlining step returns the trimmed
    reference at once, in any browser: the editor calls [fetch] for no
    URL and the state is untouched.  When the reference has no
    surrounding white space, the run, complete or not, never writes the
    image reference, which is the same afterwards.  What the capture
    libraries request on their own is not part of this statement. *)
Theorem export_local_reference (env : environment) (w : world)
  (Hroot : previewRef w <> None) (Hidle : isDownloading w = false)
  (Hlocal : isRemoteUrl (trim (cardImage w)) = false) :
  (forall e proxy m,
      prepareImageForCapture e (cardImage w) proxy m
      = (Return (trim (cardImage w)), m))
  /\ (trim (cardImage w) = cardImage w ->
      let w' := snd (downloadThumbnail (quiet env) w) in
      cardImageWrites (newEvents w w') = []
      /\ cardImage w' = cardImage w).
Proof.
  split; [intros e proxy m; apply prepareImageForCapture_local; exact Hlocal|].
  destruct (previewRef w) as [n|] eqn:Hn; [clear Hroot | contradiction].
  pose proof (prepareImageForCapture_local_uniform env (cardImage w)
                (useProxy w) Hlocal) as HuP.
  destruct (downloadThumbnail_steps env w n _ _ Hn Hidle HuP) as [_ Run].
  set (pre := stepsResult (fontOutcome env) (Return (trim (cardImage w)))
                (waitOutcome env n)) in *.
  set (sw := stepsSwap (fontOutcome env) (Return (trim (cardImage w)))
               (cardImage w)) in *.
  set (evsA := stepsLog (fontOutcome env) (Return (trim (cardImage w))) []
                 (cardImage w) (waitLog env n)) in *.
  set (filename := formatFilename (trend w) (exportFormat w) (template w))
    in *.
  destruct (tryLog_quiet pre (primaryOutcome env w) (fallbackOutcome env w)
              filename) as [_ CL].
  destruct (waitLog_quiet env n) as [_ CW].
  intros Htrim w'; subst w'.
  assert (Sw : sw = None).
  { unfold sw, stepsSwap; rewrite Htrim, swaps_same.
    destruct (fontOutcome env) as [[]|x|]; reflexivity. }
  assert (CA : cardImageWrites evsA = []).
  { unfold evsA, stepsLog, cardImageWrites in *.
    destruct (fontOutcome env) as [[]|x|]; [|reflexivity|reflexivity].
    rewrite Htrim, swaps_same, !flat_map_app, CW; reflexivity. }
  rewrite Sw in Run.
  destruct (tryResult pre (primaryOutcome env w) (fallbackOutcome env w));
    rewrite Run; cbn [snd];
    rewrite ?newEvents_extend, ?newEvents_suspended;
    unfold cardImageWrites in *; rewrite !flat_map_app, CA, CL;
    split; reflexivity.
Qed.

Lemma export_local_reference_witness :
  let w := ScenarioBrokenImage.uploaded in
  let w' := snd (downloadThumbnail (quiet Scenario.taintedCapture) w) in
  isRemoteUrl (trim (cardImage w)) = false
  /\ prepareImageForCapture Scenario.relayWorks (cardImage w) true
       (started w)
     = (Return (cardImage w), started w)
  /\ cardImageWrites (newEvents w w') = []
  /\ cardImage w' = cardImage w.
Proof.
  intros w w'.
  destruct (export_local_reference Scenario.taintedCapture w
              ltac:(discriminate) eq_refl eq_refl) as [P C].
  destruct (C eq_refl) as [C1 C2].
  split; [reflexivity|].
  split; [exact (P Scenario.relayWorks true (started w))|].
  split; assumption.
Defined.



(** ** Edits made while an export is running *)

Section Edits.

Variable env : environment.
Variable handlers : world -> world.
Hypothesis handlers_unobtrusive : unobtrusive handlers.

Lemma alike_refl (m : machine) : alike m m.
Proof. repeat split. Qed.

Lemma alike_record (ev : event) (m1 m0 : machine) (w1 w0 : world) :
  alike m1 m0 ->
  previewRef w1 = previewRef (mem m1) -> previewRef w0 = previewRef (mem m0) ->
  isDownloading w1 = isDownloading w0 ->
  log w1 = log (mem m1) -> log w0 = log (mem m0) ->
  alike (setMem m1 (record ev w1)) (setMem m0 (record ev w0)).
Proof.
  intros (S & R & _ & D & A) R1 R0 F L1 L0.
  unfold alike, setMem, record; cbn [mem shouldRestore extend previewRef
                                       isDownloading log].
  rewrite R1, R0, L1, L0; unfold downloads, alerts in *.
  rewrite !flat_map_app, D, A; repeat split; assumption.
Qed.

Lemma simulates_ret {A : Type} (a : A) : simulates (ret a) (ret a).
Proof. intros m1 m0 H; split; [reflexivity | exact H]. Qed.

Lemma simulates_call {A : Type} (r : outcome A) :
  simulates (call r) (call r).
Proof. intros m1 m0 H; split; [reflexivity | exact H]. Qed.

Lemma simulates_emit (ev : event) : simulates (emit ev) (emit ev).
Proof.
  intros m1 m0 H; split; [reflexivity|].
  unfold emit; cbn [snd]; apply alike_record; try reflexivity;
    [exact H | apply H].
Qed.

Lemma simulates_setCardImage (v : jsstring) :
  simulates (setCardImage v) (setCardImage v).
Proof.
  intros m1 m0 H; split; [reflexivity|].
  unfold setCardImage; cbn [snd]; apply alike_record; try reflexivity;
    [exact H | apply H].
Qed.

Lemma simulates_setIsDownloading (b : bool) :
  simulates (setIsDownloading b) (setIsDownloading b).
Proof.
  intros m1 m0 H; split; [reflexivity|].
  unfold setIsDownloading; cbn [snd]; apply alike_record; try reflexivity;
    exact H.
Qed.

Lemma simulates_assignShouldRestore (b : bool) :
  simulates (assignShouldRestore b) (assignShouldRestore b).
Proof.
  intros m1 m0 (S & R & F & D & A); split; [reflexivity|].
  repeat split; assumption.
Qed.

Lemma simulates_readShouldRestore :
  simulates readShouldRestore readShouldRestore.
Proof.
  intros m1 m0 H; split; [|exact H].
  unfold readShouldRestore; cbn [fst]; destruct H as [-> _]; reflexivity.
Qed.

Lemma simulates_readPreviewRef : simulates readPreviewRef readPreviewRef.
Proof.
  intros m1 m0 H; split; [|exact H].
  unfold readPreviewRef; cbn [fst]; destruct H as (_ & -> & _); reflexivity.
Qed.

Lemma simulates_await {A : Type} (p : outcome A) :
  simulates (await (withHandlers env handlers) p) (await (quiet env) p).
Proof.
  intros m1 m0 (S & R & F & D & L); split; [reflexivity|].
  unfold await; cbn [snd otherHandlers withHandlers quiet].
  destruct handlers_unobtrusive as [KR KF KD KA].
  unfold alike, setMem; cbn [mem shouldRestore].
  rewrite KR, KF, KD, KA; repeat split; assumption.
Qed.

Lemma simulates_bind {A B : Type} (c1 c0 : M A) (k1 k0 : A -> M B) :
  simulates c1 c0 -> (forall a, simulates (k1 a) (k0 a)) ->
  simulates (bind c1 k1) (bind c0 k0).
Proof.
  intros Hc Hk m1 m0 H; unfold bind.
  destruct (Hc m1 m0 H) as [E H'].
  destruct (c1 m1) as [r1 m1'], (c0 m0) as [r0 m0']; cbn [fst snd] in *.
  subst r1; destruct r0 as [a|x|];
    [apply Hk; exact H' | split; [reflexivity | exact H'] ..].
Qed.

Lemma simulates_tryCatch {A : Type} (c1 c0 : M A) (h1 h0 : thrown -> M A) :
  simulates c1 c0 -> (forall x, simulates (h1 x) (h0 x)) ->
  simulates (tryCatch c1 h1) (tryCatch c0 h0).
Proof.
  intros Hc Hh m1 m0 H; unfold tryCatch.
  destruct (Hc m1 m0 H) as [E H'].
  destruct (c1 m1) as [r1 m1'], (c0 m0) as [r0 m0']; cbn [fst snd] in *.
  subst r1; destruct r0 as [a|x|];
    [split; [reflexivity | exact H'] | apply Hh; exact H'
     | split; [reflexivity | exact H']].
Qed.

Lemma simulates_tryFinally {A : Type} (c1 c0 : M A) (f1 f0 : M unit) :
  simulates c1 c0 -> simulates f1 f0 ->
  simulates (tryFinally c1 f1) (tryFinally c0 f0).
Proof.
  intros Hc Hf m1 m0 H; unfold tryFinally.
  destruct (Hc m1 m0 H) as [E H'].
  destruct (c1 m1) as [r1 m1'], (c0 m0) as [r0 m0']; cbn [fst snd] in *.
  subst r1.
  destruct (Hf m1' m0' H') as [E' H''].
  destruct (f1 m1') as [q1 m1''], (f0 m0') as [q0 m0'']; cbn [fst snd] in *.
  subst q1.
  destruct r0 as [a|x|];
    [destruct q0 as [[]|y|]; split; (reflexivity || exact H'') ..
    | split; [reflexivity | exact H']].
Qed.

Lemma simulates_awaitCall {A : Type} (c1 c0 : M A) :
  simulates c1 c0 ->
  simulates (awaitCall (withHandlers env handlers) c1)
    (awaitCall (quiet env) c0).
Proof.
  intros Hc; unfold awaitCall; apply simulates_bind; [exact Hc|].
  intros a; apply simulates_await.
Qed.

Lemma simulates_inlineFirst (cands : list jsstring) :
  simulates (inlineFirst (withHandlers env handlers) cands)
    (inlineFirst (quiet env) cands).
Proof.
  induction cands as [|c cands IH]; cbn [inlineFirst];
    [apply simulates_ret|].
  apply simulates_bind.
  - unfold inlineCandidate; apply simulates_tryCatch;
      [|intros; apply simulates_ret].
    apply simulates_bind; [apply simulates_emit | intros _].
    cbn [fetch withHandlers quiet].
    apply simulates_bind; [apply simulates_await | intros resp].
    destruct (negb (response_ok resp)); [apply simulates_ret|].
    apply simulates_bind; [apply simulates_await | intros b].
    apply simulates_bind; [|intros d; apply simulates_ret].
    unfold blobToDataUrl; cbn [readAsDataURL withHandlers quiet].
    apply simulates_await.
  - intros [d|]; [apply simulates_ret | exact IH].
Qed.

Lemma simulates_prepareImageForCapture (value : jsstring) (proxy : bool) :
  simulates (prepareImageForCapture (withHandlers env handlers) value proxy)
    (prepareImageForCapture (quiet env) value proxy).
Proof.
  unfold prepareImageForCapture.
  destruct (negb (truthy (trim value)) || isDataUrl (trim value)
            || startsWith (trim value) (js "blob:")); [apply simulates_ret|].
  destruct (negb (isRemoteUrl (trim value))); [apply simulates_ret|].
  apply simulates_bind.
  - destruct proxy; [|apply simulates_ret].
    apply simulates_bind; [apply simulates_call | intros; apply simulates_ret].
  - intros cands; apply simulates_bind; [apply simulates_inlineFirst|].
    intros [d|]; apply simulates_ret.
Qed.

Lemma simulates_mapM_imagePromise (images : list img) :
  simulates (mapM imagePromise images) (mapM imagePromise images).
Proof.
  induction images as [|i images IH]; cbn [mapM]; [apply simulates_ret|].
  apply simulates_bind.
  - unfold imagePromise; destruct (imageReady i); [apply simulates_ret|].
    apply simulates_bind; [apply simulates_emit | intros; apply simulates_ret].
  - intros p; apply simulates_bind; [exact IH | intros; apply simulates_ret].
Qed.

Lemma simulates_waitForImages (root : node) :
  simulates (waitForImages (withHandlers env handlers) root)
    (waitForImages (quiet env) root).
Proof.
  unfold waitForImages; cbn [querySelectorAllImg withHandlers quiet].
  destruct (Nat.eqb (List.length (querySelectorAllImg env root)) 0);
    [apply simulates_ret|].
  apply simulates_bind; [apply simulates_mapM_imagePromise|].
  intros ps; apply simulates_await.
Qed.

Lemma simulates_exportWithHtmlToImage (n : option node) (f : ExportFormat) :
  simulates (exportWithHtmlToImage (withHandlers env handlers) n f)
    (exportWithHtmlToImage (quiet env) n f).
Proof.
  unfold exportWithHtmlToImage; cbn [toJpeg toPng withHandlers quiet].
  destruct (strictEq (formatString f) (js "jpeg")); apply simulates_await.
Qed.

Lemma simulates_exportWithHtml2Canvas (n : option node) (f : ExportFormat) :
  simulates (exportWithHtml2Canvas (withHandlers env handlers) n f)
    (exportWithHtml2Canvas (quiet env) n f).
Proof.
  unfold exportWithHtml2Canvas; cbn [html2canvas withHandlers quiet].
  apply simulates_bind; [apply simulates_await | intros cv].
  destruct (canvas_toBlob cv) as [toBlob|]; [|apply simulates_call].
  apply simulates_bind; [apply simulates_await | intros [b|]];
    [|apply simulates_call].
  unfold blobToDataUrl; cbn [readAsDataURL withHandlers quiet].
  apply simulates_await.
Qed.

(** The capture strategies are called on the node the ref holds when
    they start, which is the same in both runs. *)
Lemma simulates_withPreviewRef {B : Type} (k1 k0 : option node -> M B) :
  (forall current, simulates (k1 current) (k0 current)) ->
  simulates (bind readPreviewRef k1) (bind readPreviewRef k0).
Proof.
  intros Hk; apply simulates_bind; [apply simulates_readPreviewRef|].
  exact Hk.
Qed.

Lemma simulates_beforeCapture (ci : jsstring) (up : bool) :
  simulates (beforeCapture (withHandlers env handlers) ci up)
    (beforeCapture (quiet env) ci up).
Proof.
  unfold beforeCapture; cbn [fontsReady withHandlers quiet].
  apply simulates_bind.
  { destruct (fontsReady env); [apply simulates_await | apply simulates_ret]. }
  intros _; apply simulates_bind.
  { apply simulates_awaitCall, simulates_prepareImageForCapture. }
  intros p; apply simulates_bind.
  { destruct (truthy p && negb (strictEq p ci)); [|apply simulates_ret].
    apply simulates_bind; [apply simulates_setCardImage | intros _].
    apply simulates_bind; [apply simulates_assignShouldRestore | intros _].
    apply simulates_await. }
  intros _; apply simulates_withPreviewRef.
  intros [root|]; [|apply simulates_ret].
  apply simulates_awaitCall, simulates_waitForImages.
Qed.

Lemma simulates_captureAndDownload (f : ExportFormat) (filename : jsstring) :
  simulates (captureAndDownload (withHandlers env handlers) f filename)
    (captureAndDownload (quiet env) f filename).
Proof.
  unfold captureAndDownload; apply simulates_bind.
  - apply simulates_tryCatch.
    + apply simulates_withPreviewRef; intros current.
      apply simulates_bind;
        [apply simulates_awaitCall, simulates_exportWithHtmlToImage
        | intros d].
      apply simulates_bind; [apply simulates_emit | intros; apply simulates_ret].
    + intros x; apply simulates_bind; [apply simulates_emit|].
      intros; apply simulates_ret.
  - intros [|]; [apply simulates_ret|].
    apply simulates_withPreviewRef; intros current.
    apply simulates_bind;
      [apply simulates_awaitCall, simulates_exportWithHtml2Canvas | intros d].
    apply simulates_emit.
Qed.

Lemma simulates_tryBlock (ci : jsstring) (up : bool) (f : ExportFormat)
  (filename : jsstring) :
  simulates
    (tryCatch
       (beforeCapture (withHandlers env handlers) ci up ;;
        captureAndDownload (withHandlers env handlers) f filename)
       (fun error =>
          emit (Errored error) ;; emit (Alerted (failureAlert error))))
    (tryCatch
       (beforeCapture (quiet env) ci up ;;
        captureAndDownload (quiet env) f filename)
       (fun error =>
          emit (Errored error) ;; emit (Alerted (failureAlert error)))).
Proof.
  apply simulates_tryCatch.
  - apply simulates_bind; [apply simulates_beforeCapture|].
    intros _; apply simulates_captureAndDownload.
  - intros x; apply simulates_bind; [apply simulates_emit|].
    intros _; apply simulates_emit.
Qed.

Lemma simulates_cleanup (original : jsstring) :
  simulates (cleanup original) (cleanup original).
Proof.
  unfold cleanup; apply simulates_bind; [apply simulates_readShouldRestore|].
  intros restore; apply simulates_bind.
  - destruct restore; [apply simulates_setCardImage | apply simulates_ret].
  - intros _; apply simulates_setIsDownloading.
Qed.

(** The try block of the undisturbed run, from the way the steps before
    the capture went. *)
Lemma tryBlock_from_prelude (w : world) (n : node) (pre : outcome unit)
  (sw : option jsstring) (evsA : list event) :
  previewRef w = Some n ->
  beforeCapture (quiet env) (cardImage w) (useProxy w) (started w)
  = (pre, {| mem := extend (match sw with
                            | Some p => withCardImage (mem (started w)) p
                            | None => mem (started w)
                            end) evsA;
             shouldRestore := match sw with
                              | Some _ => true
                              | None => false
                              end |}) ->
  exists evsB,
    snd (tryCatch
           (beforeCapture (quiet env) (cardImage w) (useProxy w) ;;
            captureAndDownload (quiet env) (exportFormat w)
              (formatFilename (trend w) (exportFormat w) (template w)))
           (fun error =>
              emit (Errored error) ;; emit (Alerted (failureAlert error)))
           (started w))
    = {| mem := extend (match sw with
                        | Some p => withCardImage (mem (started w)) p
                        | None => mem (started w)
                        end) (evsA ++ evsB);
         shouldRestore := match sw with
                          | Some _ => true
                          | None => false
                          end |}.
Proof.
  intros Hn Hpre.
  destruct (exportWithHtmlToImage_uniform env (previewRef w) (exportFormat w))
    as (P & HP).
  destruct (exportWithHtml2Canvas_uniform env (previewRef w) (exportFormat w))
    as (F & HF).
  set (filename := formatFilename (trend w) (exportFormat w) (template w)).
  pose (mA := {| mem := extend match sw with
                               | Some p => withCardImage (mem (started w)) p
                               | None => mem (started w)
                               end evsA;
                 shouldRestore := match sw with
                                  | Some _ => true
                                  | None => false
                                  end |}).
  fold mA in Hpre.
  assert (Cap : captureAndDownload (quiet env) (exportFormat w) filename mA
                = (captureResult P F,
                   pushEvents mA (captureLog P F filename))).
  { apply (captureAndDownload_effect env _ _ _ (previewRef w));
      [destruct sw; reflexivity | exact HP | exact HF]. }
  assert (Push : forall evsB,
    pushEvents mA evsB
    = {| mem := extend (match sw with
                        | Some p => withCardImage (mem (started w)) p
                        | None => mem (started w)
                        end) (evsA ++ evsB);
         shouldRestore := match sw with
                          | Some _ => true
                          | None => false
                          end |}).
  { intros evsB; unfold mA, pushEvents, setMem; cbn [mem shouldRestore].
    rewrite extend_extend; reflexivity. }
  unfold tryCatch; unfold bind at 1; rewrite Hpre.
  destruct pre as [[]|x|].
  - rewrite Cap.
    destruct (captureResult P F) as [[]|e|].
    + eexists; cbn [snd]; apply Push.
    + rewrite failureReport_effect, pushEvents_app.
      eexists; cbn [snd]; apply Push.
    + eexists; cbn [snd]; apply Push.
  - rewrite failureReport_effect.
    eexists; cbn [snd]; apply Push.
  - exists []; cbn [snd]; rewrite <- (pushEvents_nil mA) at 1; apply Push.
Qed.

End Edits.

Lemma tryFinally_hang {A : Type} (c : M A) (f : M unit) (m : machine) :
  fst (c m) = Hang -> fst (tryFinally c f m) = Hang.
Proof.
  unfold tryFinally; destruct (c m) as [[a|x|] m']; cbn [fst];
    intros H; (discriminate H || reflexivity).
Qed.

Lemma tryFinally_restores {A : Type} (c : M A) (original : jsstring)
  (m : machine) :
  fst (c m) <> Hang -> shouldRestore (snd (c m)) = true ->
  cardImage (mem (snd (tryFinally c (cleanup original) m))) = original.
Proof.
  unfold tryFinally; destruct (c m) as [[a|x|] m']; cbn [fst snd];
    intros Ends SR; [| |exfalso; apply Ends; reflexivity];
    rewrite cleanup_effect, SR; reflexivity.
Qed.

Lemma downloadThumbnail_finally (e : environment) (w : world) (n : node) :
  previewRef w = Some n -> isDownloading w = false ->
  downloadThumbnail e w
  = (fst (tryFinally
            (tryCatch
               (beforeCapture e (cardImage w) (useProxy w) ;;
                captureAndDownload e (exportFormat w)
                  (formatFilename (trend w) (exportFormat w) (template w)))
               (fun error =>
                  emit (Errored error) ;;
                  emit (Alerted (failureAlert error))))
            (cleanup (cardImage w)) (started w)),
     mem (snd (tryFinally
                 (tryCatch
                    (beforeCapture e (cardImage w) (useProxy w) ;;
                     captureAndDownload e (exportFormat w)
                       (formatFilename (trend w) (exportFormat w)
                          (template w)))
                    (fun error =>
                       emit (Errored error) ;;
                       emit (Alerted (failureAlert error))))
                 (cleanup (cardImage w)) (started w)))).
Proof.
  intros Hn Hidle; unfold downloadThumbnail; rewrite Hn, Hidle.
  rewrite exportRun_finally.
  destruct (tryFinally _ _ (started w)); reflexivity.
Qed.

Lemma unobtrusive_handlers (c : captions) (v : jsstring)
  (result : option jsstring) (b : bool) (tpl : TemplateVariant)
  (t : TrendDirection) (f : ExportFormat) :
  unobtrusive (onResetClick c)
  /\ unobtrusive (onImageUrlChange v)
  /\ unobtrusive (onUploadLoaded result)
  /\ unobtrusive (onUseProxyChange b)
  /\ unobtrusive (onTemplateClick tpl)
  /\ unobtrusive (onTrendClick t)
  /\ unobtrusive (onFormatClick f).
Proof.
  assert (Write : forall x l, downloads (l ++ [SetCardImage x]) = downloads l
                              /\ alerts (l ++ [SetCardImage x]) = alerts l).
  { intros x l; unfold downloads, alerts; rewrite !flat_map_app.
    cbn [flat_map]; rewrite !app_nil_r; split; reflexivity. }
  repeat split; intros w; try reflexivity;
    try (cbn [onResetClick handleReset fst withExportFormat withUseProxy
                record extend withCardImage withTemplate withTrend log];
         apply Write);
    try (cbn [onImageUrlChange record extend withCardImage log];
         apply Write);
    destruct result as [r|]; try reflexivity; cbn [onUploadLoaded];
    destruct (truthy r); try reflexivity;
    cbn [record extend withCardImage log]; apply Write.
Qed.

(** X14: edits made while an export is running.  The reset button, the
    URL field, an upload that completes, the proxy checkbox and the
    template, trend and format buttons leave the preview root and the
    in-progress flag alone and neither download nor alert.  Whatever
    handlers of that kind do at the suspension points, and whatever the
    browser and the capture libraries answer, a run that completes has
    cleared the flag and has downloaded at most one file, under the name
    of the selection at the time of the click: a change of trend, template
    or format during the run does not rename it.  When the inlining step
    gave a reference to swap in, the restoration at the end writes back
    the reference the run started with: an image reference entered during
    the export is lost. *)
Theorem export_overwrites_edits (env : environment) (w : world)
  (Hroot : previewRef w <> None) (Hidle : isDownloading w = false) :
  (forall c v result b tpl t f,
      unobtrusive (onResetClick c)
      /\ unobtrusive (onImageUrlChange v)
      /\ unobtrusive (onUploadLoaded result)
      /\ unobtrusive (onUseProxyChange b)
      /\ unobtrusive (onTemplateClick tpl)
      /\ unobtrusive (onTrendClick t)
      /\ unobtrusive (onFormatClick f))
  /\ forall h, unobtrusive h ->
       let d := downloadThumbnail (withHandlers env h) w in
       fst d <> Hang ->
       isDownloading (snd d) = false
       /\ (exists l,
             downloads (log (snd d)) = downloads (log w) ++ l
             /\ (l = []
                 \/ exists u,
                      l = [(u, formatFilename (trend w) (exportFormat w)
                                 (template w))]))
       /\ (forall p evs,
             fontOutcome env = Return tt ->
             uniform (prepareImageForCapture (quiet env) (cardImage w)
                        (useProxy w)) (Return p) evs ->
             swaps p (cardImage w) = true ->
             cardImage (snd d) = cardImage w).
Proof.
  split; [intros; apply unobtrusive_handlers|]; intros h Hh.
  destruct (previewRef w) as [n|] eqn:Hn; [|contradiction].
  pose proof (downloadThumbnail_finally (withHandlers env h) w n Hn Hidle)
    as D1.
  pose proof (downloadThumbnail_finally (quiet env) w n Hn Hidle) as D0.
  set (filename := formatFilename (trend w) (exportFormat w) (template w))
    in *.
  pose proof (simulates_tryBlock env h Hh (cardImage w) (useProxy w)
                (exportFormat w) filename) as SimT.
  pose proof (simulates_tryFinally _ _ _ _ SimT
                (simulates_cleanup (cardImage w))
                (started w) (started w) (alike_refl _)) as [EF AF].
  destruct (SimT (started w) (started w) (alike_refl _)) as [ET AT].
  intros d Hends; subst d.
  rewrite D1 in Hends; cbn [fst] in Hends.
  (* in the same browser, the run ends without the edits too *)
  assert (Hq : fst (downloadThumbnail (quiet env) w) <> Hang)
    by (rewrite D0; cbn [fst]; rewrite <- EF; exact Hends).
  assert (Hr : previewRef w <> None) by (rewrite Hn; discriminate).
  destruct (run_log env w Hr Hidle Hq)
    as (sw & evsA & D & _ & _ & _ & R & Run).
  fold filename in R, Run.
  pose proof (f_equal snd Run) as Q0; rewrite D0 in Q0; cbn [snd] in Q0.
  destruct AF as (_ & _ & Fl & Dn & _).
  split; [|split].
  - rewrite D1; cbn [snd]; rewrite Fl, Q0; exact Hidle.
  - destruct (tryLog_observations _ _ _ filename R) as (_ & Obs).
    exists (downloads (tryLog (preludeOutcome env w) (primaryOutcome env w)
                         (fallbackOutcome env w) filename)).
    split.
    + rewrite D1; cbn [snd]; rewrite Dn, Q0; cbn [log extend].
      assert (Dr : downloads (restoreLog sw (cardImage w)) = [])
        by (destruct sw; reflexivity).
      unfold downloads in *; rewrite !flat_map_app, D, Dr.
      cbn [flat_map app]; rewrite !app_nil_r; reflexivity.
    + destruct Obs as [(u & _ & _ & Du & _) | (e & _ & _ & De)];
        [right; exists u; exact Du | left; exact De].
  - intros p evs Hf HuP Sw.
    assert (Hs : previewRef (mem (started w)) = Some n) by exact Hn.
    pose proof (beforeCapture_steps env (cardImage w) (useProxy w)
                  (started w) n (Return p) evs Hs HuP) as Steps.
    rewrite Hf in Steps; cbn [stepsResult stepsSwap stepsLog] in Steps.
    rewrite Sw in Steps.
    destruct (tryBlock_from_prelude env w n _ (Some p) _ Hn Steps)
      as (evsB & HT0).
    fold filename in HT0.
    rewrite HT0 in AT; destruct AT as [SR _]; cbn [shouldRestore] in SR.
    rewrite D1; cbn [snd]; apply tryFinally_restores; [|exact SR].
    intros E1; apply Hends; apply tryFinally_hang; exact E1.
Qed.

Lemma export_overwrites_edits_witness :
  let typed := js "https://other.example/new-card.png" in
  let w :=
    withExportFormat (withTrend Scenario.defaults down) jpeg in
  let h := fun cur =>
             onFormatClick png
               (onTrendClick up (onImageUrlChange typed cur)) in
  let d := downloadThumbnail (withHandlers Scenario.relayWorks h) w in
  unobtrusive (onImageUrlChange typed)
  /\ fst d = Return tt
  /\ trend (snd d) = up /\ exportFormat (snd d) = png
  /\ map snd (downloads (log (snd d)))
     = [js "pokemon-thumbnail-classic-down.jpg"]
  /\ cardImage (snd d) = cardImage w
  /\ cardImage (snd d) <> typed.
Proof.
  intros typed w h d.
  destruct (export_overwrites_edits Scenario.relayWorks w
              ltac:(discriminate) eq_refl) as [Handlers Run].
  destruct (Handlers (snd (mounted None)) typed None true classic up png)
    as (_ & U & _).
  assert (Uh : unobtrusive h).
  { constructor; intros cur; try reflexivity;
      unfold h, onFormatClick, onTrendClick, onImageUrlChange;
      cbn [log withExportFormat withTrend record extend withCardImage];
      unfold downloads, alerts; rewrite !flat_map_app; cbn [flat_map];
      rewrite !app_nil_r; reflexivity. }
  assert (Ends : fst d <> Hang) by (vm_compute; discriminate).
  destruct (Run h Uh Ends) as (_ & _ & Lost).
  destruct (prepareImageForCapture_total Scenario.relayWorks (cardImage w)
              (useProxy w)) as (r & evs & Hu & _).
  pose proof (uniform_fst _ _ _ (started w) Hu) as Er.
  assert (Ep : r = Return (js "data:image/png;base64,Q0FSRA=="))
    by (rewrite <- Er; vm_compute; reflexivity).
  rewrite Ep in Hu.
  pose proof (Lost _ evs eq_refl Hu eq_refl) as L.
  split; [exact U|].
  split; [vm_compute; reflexivity|].
  split; [vm_compute; reflexivity|].
  split; [vm_compute; reflexivity|].
  split; [vm_compute; reflexivity|].
  split; [exact L|].
  vm_compute; discriminate.
Defined.

(** ** The export of the single-template editor *)

Section SingleTemplate.

Variable env : environment.

Lemma singleTemplate_body (w : world) (m : machine) :
  previewRef (mem m) = previewRef w ->
  ((match fontsReady (quiet env) with
    | Some ready => await (quiet env) ready
    | None => ret tt
    end) ;;
   current <- readPreviewRef ;;
   cv <- await (quiet env) (html2canvas (quiet env) current) ;;
   href <- call (canvas_toDataURL cv (js "image/png")) ;;
   emit (Downloaded href (SingleTemplateEditor.downloadName (trend w)))) m
  = match SingleTemplateExport.captureOutcome env w with
    | Return u =>
        (Return tt,
         pushEvents m
           [Downloaded u (SingleTemplateEditor.downloadName (trend w))])
    | Throw e => (Throw e, m)
    | Hang => (Hang, m)
    end.
Proof.
  intros Hc; pose proof (fontWait_outcome env) as Hf.
  unfold SingleTemplateExport.captureOutcome.
  revert Hf; destruct (fontOutcome env) as [[]|x|]; intros Hf.
  - rewrite (bind_return _ _ m _ tt (Hf m)), pushEvents_nil.
    unfold bind at 1, readPreviewRef at 1; rewrite Hc.
    unfold bind at 1, await at 1; cbn [html2canvas quiet otherHandlers].
    rewrite setMem_mem.
    destruct (html2canvas env (previewRef w)) as [cv|x|];
      [|reflexivity|reflexivity].
    unfold bind at 1, call at 1.
    destruct (canvas_toDataURL cv (js "image/png")) as [u|x|]; reflexivity.
  - rewrite (bind_throw _ _ m _ x (Hf m)), pushEvents_nil; reflexivity.
  - rewrite (bind_hang _ _ m _ (Hf m)), pushEvents_nil; reflexivity.
Qed.

Lemma singleTemplate_finish (w : world) (evs : list event) :
  isDownloading w = false ->
  mem (snd (setIsDownloading false (pushEvents (started w) evs)))
  = extend w ([SetIsDownloading true] ++ evs ++ [SetIsDownloading false]).
Proof.
  intros Hidle.
  unfold setIsDownloading, pushEvents, setMem, record; cbn [snd mem].
  rewrite started_mem.
  destruct (world_unchanged w
              ([SetIsDownloading true] ++ evs ++ [SetIsDownloading false])
              Hidle) as [_ W2].
  rewrite <- W2.
  repeat first [ rewrite withIsDownloading_extend
               | rewrite extend_extend
               | rewrite withIsDownloading_twice ].
  rewrite <- ?app_assoc; reflexivity.
Qed.

(** The run of the single-template editor, in closed form. *)
Lemma singleTemplate_effect (w : world) (n : node) :
  previewRef w = Some n -> isDownloading w = false ->
  SingleTemplateExport.downloadThumbnail (quiet env) w
  = match SingleTemplateExport.captureOutcome env w with
    | Return u =>
        (Return tt,
         extend w
           ([SetIsDownloading true]
            ++ [Downloaded u (SingleTemplateEditor.downloadName (trend w))]
            ++ [SetIsDownloading false]))
    | Throw e =>
        (Return tt,
         extend w
           ([SetIsDownloading true]
            ++ [Errored e; Alerted SingleTemplateExport.failureAlert]
            ++ [SetIsDownloading false]))
    | Hang =>
        (Hang, extend (withIsDownloading w true) [SetIsDownloading true])
    end.
Proof.
  intros Hn Hidle.
  unfold SingleTemplateExport.downloadThumbnail; rewrite Hn, Hidle.
  unfold SingleTemplateExport.exportRun.
  unfold bind at 1, setIsDownloading at 1.
  change (setMem (activation w)
            (record (SetIsDownloading true)
               (withIsDownloading (mem (activation w)) true)))
    with (started w).
  unfold tryFinally, tryCatch.
  rewrite (singleTemplate_body w (started w) eq_refl).
  destruct (SingleTemplateExport.captureOutcome env w) as [u|e|].
  - pose proof (singleTemplate_finish w
                  [Downloaded u (SingleTemplateEditor.downloadName (trend w))]
                  Hidle) as Fin.
    destruct (setIsDownloading false _) as [[[]|y|] m'] eqn:E;
      try discriminate E; cbn [snd] in Fin; rewrite Fin; reflexivity.
  - assert (Rep : (emit (Errored e) ;;
                   emit (Alerted SingleTemplateExport.failureAlert))
                    (started w)
                  = (Return tt,
                     pushEvents (started w)
                       [Errored e; Alerted SingleTemplateExport.failureAlert])).
    { unfold bind, emit, pushEvents, setMem, record; cbn [mem shouldRestore].
      rewrite extend_extend; reflexivity. }
    rewrite Rep.
    pose proof (singleTemplate_finish w
                  [Errored e; Alerted SingleTemplateExport.failureAlert]
                  Hidle) as Fin.
    destruct (setIsDownloading false _) as [[[]|y|] m'] eqn:E;
      try discriminate E; cbn [snd] in Fin; rewrite Fin; reflexivity.
  - rewrite started_mem; reflexivity.
Qed.

End SingleTemplate.

(** X15: the export of the single-template editor (one capture strategy,
    PNG only).  A request that passes the guard never throws and never
    writes the image reference.  When it completes, the editor state is
    as before with the flag cleared, and exactly one of two things
    happened: the data URL of the canvas was downloaded as
    [pokemon-thumbnail-<trend>.png], or the font wait, the capture or the
    encoding failed and one alert was shown, whose text is fixed and does
    not include the reason. *)
Theorem singleTemplate_export (env : environment) (w : world)
  (Hroot : previewRef w <> None) (Hidle : isDownloading w = false) :
  let r := SingleTemplateExport.downloadThumbnail (quiet env) w in
  let evs := newEvents w (snd r) in
  (forall x, fst r <> Throw x)
  /\ cardImageWrites evs = []
  /\ (fst r <> Hang ->
      fst r = Return tt
      /\ snd r = extend w evs
      /\ ((exists u,
             SingleTemplateExport.captureOutcome env w = Return u
             /\ downloads evs
                = [(u, js "pokemon-thumbnail-" ++ trendString (trend w)
                       ++ js ".png")]
             /\ alerts evs = [])
          \/ (exists e,
                SingleTemplateExport.captureOutcome env w = Throw e
                /\ downloads evs = []
                /\ alerts evs
                   = [js "Download failed. Enable the image proxy or upload the image instead of using a URL."]))).
Proof.
  destruct (previewRef w) as [n|] eqn:Hn; [clear Hroot | contradiction].
  pose proof (singleTemplate_effect env w n Hn Hidle) as Run.
  intros r evs; subst evs r.
  destruct (SingleTemplateExport.captureOutcome env w) as [u|e|];
    rewrite Run; cbn [fst snd].
  - rewrite newEvents_extend.
    split; [discriminate|]; split; [reflexivity|].
    intros _; split; [reflexivity|]; split; [reflexivity|].
    left; exists u; repeat split; reflexivity.
  - rewrite newEvents_extend.
    split; [discriminate|]; split; [reflexivity|].
    intros _; split; [reflexivity|]; split; [reflexivity|].
    right; exists e; repeat split; reflexivity.
  - assert (E : newEvents w (extend (withIsDownloading w true)
                               [SetIsDownloading true])
                = [SetIsDownloading true])
      by (unfold newEvents; cbn [log extend withIsDownloading];
          apply skipn_log).
    rewrite E.
    split; [discriminate|]; split; [reflexivity|].
    intros H; exfalso; apply H; reflexivity.
Qed.

Lemma singleTemplate_export_witness :
  let r := SingleTemplateExport.downloadThumbnail (quiet Scenario.bothFail)
             Scenario.directUrl in
  fst r = Return tt
  /\ snd r = extend Scenario.directUrl (newEvents Scenario.directUrl (snd r))
  /\ alerts (newEvents Scenario.directUrl (snd r))
     = [js "Download failed. Enable the image proxy or upload the image instead of using a URL."].
Proof.
  intros r.
  destruct (singleTemplate_export Scenario.bothFail Scenario.directUrl
              ltac:(discriminate) eq_refl) as (_ & _ & Done).
  destruct (Done ltac:(vm_compute; discriminate)) as (R & S & _).
  split; [exact R|]; split; [exact S|].
  vm_compute; reflexivity.
Defined.

(** ** The reset button *)

(** X16: [handleReset] puts every state variable of the editor back to
    the value the component is mounted with, except the in-progress flag,
    which it leaves as it is (a reset during an export does not enable the
    download button); afterwards the preview shows the change text
    [+375%] and, as its image, the proxied form of the default
    reference. *)
Theorem handleReset_mounted (st : world * captions) :
  let st' := handleReset st in
  snd st' = snd (mounted (previewRef (fst st)))
  /\ fst st'
     = extend (withIsDownloading (fst (mounted (previewRef (fst st))))
                 (isDownloading (fst st)))
         (log (fst st)
          ++ [SetCardImage (cardImage (fst (mounted (previewRef (fst st)))))])
  /\ isDownloading (fst st') = isDownloading (fst st)
  /\ previewChangeText (fst st') (snd st') = js "+375%"
  /\ displayCardImage (cardImage (fst st')) (useProxy (fst st'))
     = Return (js "https://images.weserv.nl/?url=images.unsplash.com%2Fphoto-1606502281004-f86cf1282af5%3Fw%3D400%26h%3D600%26fit%3Dcrop").
Proof.
  destruct st as [w c]; repeat split; reflexivity.
Qed.

(** ** The scheme of a remote reference *)

Section Scheme.

Lemma afterScheme_http (letters rest : jsstring) :
  Forall2 sameLetter (js "http") letters ->
  afterScheme (letters ++ js "://" ++ rest) = Some rest.
Proof.
  change (js "http") with [104; 116; 116; 112]%N; intros H.
  inversion H as [|y1 x1 p1 l1 H1 F1]; subst; clear H.
  inversion F1 as [|y2 x2 p2 l2 H2 F2]; subst; clear F1.
  inversion F2 as [|y3 x3 p3 l3 H3 F3]; subst; clear F2.
  inversion F3 as [|y4 x4 p4 l4 H4 F4]; subst; clear F3.
  inversion F4; subst; clear F4.
  destruct H1 as [-> | ->], H2 as [-> | ->], H3 as [-> | ->],
    H4 as [-> | ->]; reflexivity.
Qed.

Lemma afterScheme_https (letters rest : jsstring) :
  Forall2 sameLetter (js "https") letters ->
  afterScheme (letters ++ js "://" ++ rest) = Some rest.
Proof.
  change (js "https") with [104; 116; 116; 112; 115]%N; intros H.
  inversion H as [|y1 x1 p1 l1 H1 F1]; subst; clear H.
  inversion F1 as [|y2 x2 p2 l2 H2 F2]; subst; clear F1.
  inversion F2 as [|y3 x3 p3 l3 H3 F3]; subst; clear F2.
  inversion F3 as [|y4 x4 p4 l4 H4 F4]; subst; clear F3.
  inversion F4 as [|y5 x5 p5 l5 H5 F5]; subst; clear F4.
  inversion F5; subst; clear F5.
  destruct H1 as [-> | ->], H2 as [-> | ->], H3 as [-> | ->],
    H4 as [-> | ->], H5 as [-> | ->]; reflexivity.
Qed.

Lemma afterScheme_scheme (letters rest : jsstring) :
  Forall2 sameLetter (js "http") letters
  \/ Forall2 sameLetter (js "https") letters ->
  afterScheme (letters ++ js "://" ++ rest) = Some rest.
Proof.
  intros [H|H]; [apply afterScheme_http | apply afterScheme_https]; exact H.
Qed.

End Scheme.

(** X17: the scheme test and the scheme stripping.  A reference is
    classified as remote exactly when it starts with [http] or [https],
    in any letter case, followed by [://]; such a reference is neither
    empty nor a data or blob reference.  [stripScheme] removes that
    prefix and nothing more, so the proxied form of a reference does not
    depend on its scheme or on the case of its letters. *)
Theorem isRemoteUrl_scheme (s : jsstring) :
  (isRemoteUrl s = true <->
   exists letters rest,
     s = letters ++ js "://" ++ rest
     /\ (Forall2 sameLetter (js "http") letters
         \/ Forall2 sameLetter (js "https") letters))
  /\ (isRemoteUrl s = true ->
      truthy s = true /\ isDataUrl s = false)
  /\ (forall letters rest,
        s = letters ++ js "://" ++ rest ->
        Forall2 sameLetter (js "http") letters
        \/ Forall2 sameLetter (js "https") letters ->
        stripScheme s = rest
        /\ forall letters',
             Forall2 sameLetter (js "http") letters'
             \/ Forall2 sameLetter (js "https") letters' ->
             buildProxyUrl (letters' ++ js "://" ++ rest) = buildProxyUrl s).
Proof.
  split; [split|split].
  - intros R; destruct (stripScheme_remote _ R) as (l & E & H).
    exists l, (stripScheme s); split; assumption.
  - intros (l & rest & -> & H); unfold isRemoteUrl.
    rewrite (afterScheme_scheme _ _ H); reflexivity.
  - intros R; split;
      [apply isRemoteUrl_truthy | apply isRemoteUrl_not_data]; exact R.
  - intros l rest -> H.
    assert (S : forall l', Forall2 sameLetter (js "http") l'
                           \/ Forall2 sameLetter (js "https") l' ->
                           stripScheme (l' ++ js "://" ++ rest) = rest).
    { intros l' H'; unfold stripScheme.
      rewrite (afterScheme_scheme _ _ H'); reflexivity. }
    split; [apply S; exact H|].
    intros l' H'; unfold buildProxyUrl; rewrite (S _ H), (S _ H').
    reflexivity.
Qed.

Lemma isRemoteUrl_scheme_witness :
  isRemoteUrl (js "HtTp://a.io/x.png") = true
  /\ stripScheme (js "HtTp://a.io/x.png") = js "a.io/x.png"
  /\ buildProxyUrl (js "https://a.io/x.png")
     = buildProxyUrl (js "HtTp://a.io/x.png").
Proof.
  assert (Mixed : Forall2 sameLetter (js "http") (js "HtTp")).
  { repeat constructor; (left; reflexivity) || (right; reflexivity). }
  assert (Lower : Forall2 sameLetter (js "https") (js "https")).
  { repeat constructor; left; reflexivity. }
  destruct (isRemoteUrl_scheme (js "HtTp://a.io/x.png"))
    as ((_ & Remote) & _ & Strip).
  destruct (Strip (js "HtTp") (js "a.io/x.png") eq_refl (or_introl Mixed))
    as [S B].
  split; [|split; [exact S | exact (B (js "https") (or_intror Lower))]].
  apply Remote; exists (js "HtTp"), (js "a.io/x.png").
  split; [reflexivity | left; exact Mixed].
Defined.

(** ** The percent-encoding loses nothing *)

Section EncodingInjective.

Local Open Scope N_scope.

Lemma cons_inj {A : Type} (a b : A) (l l' : list A) :
  a :: l = b :: l' -> a = b /\ l = l'.
Proof. intros H; injection H; auto. Qed.

Lemma hexDigit_inj (a b : N) :
  a < 16 -> b < 16 -> hexDigit a = hexDigit b -> a = b.
Proof.
  unfold hexDigit; intros Ha Hb.
  destruct (N.ltb_spec a 10), (N.ltb_spec b 10); lia.
Qed.

Lemma percentByte_app_inj (b b' : N) (x x' : jsstring) :
  b < 256 -> b' < 256 ->
  percentByte b ++ x = percentByte b' ++ x' -> b = b' /\ x = x'.
Proof.
  intros Hb Hb'; unfold percentByte; cbn [app]; intros E.
  apply cons_inj in E; destruct E as [_ E].
  apply cons_inj in E; destruct E as [E1 E].
  apply cons_inj in E; destruct E as [E2 E].
  assert (b / 16 < 16) by (apply N.Div0.div_lt_upper_bound; lia).
  assert (b' / 16 < 16) by (apply N.Div0.div_lt_upper_bound; lia).
  assert (b mod 16 < 16) by (apply N.mod_lt; lia).
  assert (b' mod 16 < 16) by (apply N.mod_lt; lia).
  apply hexDigit_inj in E1; [|assumption|assumption].
  apply hexDigit_inj in E2; [|assumption|assumption].
  split; [|exact E].
  pose proof (N.div_mod b 16 ltac:(discriminate)).
  pose proof (N.div_mod b' 16 ltac:(discriminate)).
  lia.
Qed.

(** The base-64 digits of a code point, as UTF-8 cuts it. *)
Lemma digits64 (n : N) :
  n = 64 * (n / 64) + n mod 64
  /\ n / 64 = 64 * (n / 4096) + (n / 64) mod 64
  /\ n / 4096 = 64 * (n / 262144) + (n / 4096) mod 64
  /\ n mod 64 < 64 /\ (n / 64) mod 64 < 64 /\ (n / 4096) mod 64 < 64.
Proof.
  split; [apply N.div_mod; discriminate|].
  split.
  { rewrite (N.div_mod (n / 64) 64) at 1 by discriminate.
    rewrite N.Div0.div_div; reflexivity. }
  split.
  { rewrite (N.div_mod (n / 4096) 64) at 1 by discriminate.
    rewrite N.Div0.div_div; reflexivity. }
  repeat split; apply N.mod_lt; discriminate.
Qed.

Lemma percentEncode_head (cp : N) :
  exists tl, percentEncode cp = 37 :: tl.
Proof.
  unfold percentEncode, utf8.
  destruct (N.ltb cp 128); [eexists; reflexivity|].
  destruct (N.ltb cp 2048); [eexists; reflexivity|].
  destruct (N.ltb cp 65536); eexists; reflexivity.
Qed.

(** An escape can be told from what follows it, and gives back its code
    point. *)
Lemma percentEncode_app_inj (cp cp' : N) (x x' : jsstring) :
  cp < 1114112 -> cp' < 1114112 ->
  percentEncode cp ++ x = percentEncode cp' ++ x' -> cp = cp' /\ x = x'.
Proof.
  intros Hcp Hcp'.
  destruct (digits64 cp) as (D1 & D2 & D3 & M1 & M2 & M3).
  destruct (digits64 cp') as (D1' & D2' & D3' & M1' & M2' & M3').
  assert (Q1 : cp < 2048 -> cp / 64 < 32)
    by (intros; apply N.Div0.div_lt_upper_bound; lia).
  assert (Q1' : cp' < 2048 -> cp' / 64 < 32)
    by (intros; apply N.Div0.div_lt_upper_bound; lia).
  assert (Q2 : cp < 65536 -> cp / 4096 < 16)
    by (intros; apply N.Div0.div_lt_upper_bound; lia).
  assert (Q2' : cp' < 65536 -> cp' / 4096 < 16)
    by (intros; apply N.Div0.div_lt_upper_bound; lia).
  assert (Q3 : cp / 262144 < 5)
    by (apply N.Div0.div_lt_upper_bound; lia).
  assert (Q3' : cp' / 262144 < 5)
    by (apply N.Div0.div_lt_upper_bound; lia).
  unfold percentEncode, utf8.
  destruct (N.ltb_spec cp 128) as [A|A];
    [|destruct (N.ltb_spec cp 2048) as [B|B];
      [|destruct (N.ltb_spec cp 65536) as [C|C]]];
  (destruct (N.ltb_spec cp' 128) as [A'|A'];
    [|destruct (N.ltb_spec cp' 2048) as [B'|B'];
      [|destruct (N.ltb_spec cp' 65536) as [C'|C']]]);
  cbn [flat_map]; rewrite <- ?app_assoc; cbn [app]; intros E;
  try specialize (Q1 ltac:(assumption));
  try specialize (Q1' ltac:(assumption));
  try specialize (Q2 ltac:(assumption));
  try specialize (Q2' ltac:(assumption));
  (apply percentByte_app_inj in E; [|lia|lia]); destruct E as [E1 E];
  try (exfalso; lia);
  try (split; [lia | exact E]);
  (apply percentByte_app_inj in E; [|lia|lia]); destruct E as [E2 E];
  try (split; [lia | exact E]);
  (apply percentByte_app_inj in E; [|lia|lia]); destruct E as [E3 E];
  try (split; [lia | exact E]);
  (apply percentByte_app_inj in E; [|lia|lia]); destruct E as [E4 E];
  split; [lia | exact E].
Qed.

Lemma encodeURIComponent_cons (c : N) (t e : jsstring) :
  c < 65536 -> encodeURIComponent (c :: t) = Some e -> encodedHead c t e.
Proof.
  intros Hc; cbn [encodeURIComponent].
  destruct (uriUnreserved c) eqn:U.
  { destruct (encodeURIComponent t) as [e1|] eqn:E1; [|discriminate].
    cbn [option_map]; intros E; apply some_inj in E.
    apply (head_unreserved c t e e1); auto. }
  destruct (isLowSurrogate c) eqn:L; [discriminate|].
  destruct (isHighSurrogate c) eqn:Hi.
  { destruct t as [|d t']; [discriminate|].
    destruct (isLowSurrogate d) eqn:Ld; [|discriminate].
    destruct (encodeURIComponent t') as [e1|] eqn:E1; [|discriminate].
    cbn [option_map]; intros E; apply some_inj in E.
    unfold isHighSurrogate in Hi; unfold isLowSurrogate in Ld.
    rewrite andb_true_iff, !N.leb_le in Hi, Ld.
    apply (head_pair c (d :: t') e d t' e1); auto. }
  destruct (encodeURIComponent t) as [e1|] eqn:E1; [|discriminate].
  cbn [option_map]; intros E; apply some_inj in E.
  apply (head_escape c t e e1); auto.
Qed.

Lemma encodedHead_nonempty (c : N) (t : jsstring) : ~ encodedHead c t [].
Proof.
  intros [e1 _ _ E | e1 _ _ _ E | d t' e1 _ _ _ _ _ E]; try discriminate E.
  - destruct (percentEncode_head c) as (tl & Eq); rewrite Eq in E.
    discriminate E.
  - destruct (percentEncode_head
                (65536 + (c - 55296) * 1024 + (d - 56320))) as (tl & Eq).
    rewrite Eq in E; discriminate E.
Qed.

Lemma escape_not_unreserved (c cp : N) (e1 e1' : jsstring) :
  uriUnreserved c = true -> c :: e1 = percentEncode cp ++ e1' -> False.
Proof.
  intros U E; destruct (percentEncode_head cp) as (tl & Eq).
  rewrite Eq in E; cbn [app] in E.
  apply cons_inj in E; destruct E as [-> _]; discriminate U.
Qed.

Lemma encodeURIComponent_injective_upto (n : nat) :
  forall s s' e, (List.length s <= n)%nat ->
    wellFormed s -> wellFormed s' ->
    encodeURIComponent s = Some e -> encodeURIComponent s' = Some e ->
    s = s'.
Proof.
  induction n as [|n IH]; intros s s' e Hn Hwf Hwf' He He'.
  - destruct s; [|simpl in Hn; lia].
    cbn in He; apply some_inj in He; subst e.
    destruct s' as [|c' t']; [reflexivity|].
    inversion Hwf' as [|? ? Hc' Ht']; subst.
    exfalso; apply (encodedHead_nonempty c' t').
    apply encodeURIComponent_cons; assumption.
  - destruct s as [|c t].
    { cbn in He; apply some_inj in He; subst e.
      destruct s' as [|c' t']; [reflexivity|].
      inversion Hwf' as [|? ? Hc' Ht']; subst.
      exfalso; apply (encodedHead_nonempty c' t').
      apply encodeURIComponent_cons; assumption. }
    inversion Hwf as [|? ? Hc Ht]; subst.
    destruct s' as [|c' t'].
    { cbn in He'; apply some_inj in He'; subst e.
      exfalso; apply (encodedHead_nonempty c t).
      apply encodeURIComponent_cons; assumption. }
    inversion Hwf' as [|? ? Hc' Ht']; subst.
    cbn [List.length] in Hn.
    apply encodeURIComponent_cons in He; [|exact Hc].
    apply encodeURIComponent_cons in He'; [|exact Hc'].
    destruct He as [e1 U E1 Ee | e1 U _ E1 Ee | d u e1 U Et Rc Rd E1 Ee];
      destruct He' as [e1' U' E1' Ee' | e1' U' _ E1' Ee'
                      | d' u' e1' U' Et' Rc' Rd' E1' Ee'];
      rewrite Ee in Ee'.
    + apply cons_inj in Ee'; destruct Ee' as [-> <-].
      rewrite (IH t t' e1); [reflexivity | lia | assumption ..].
    + exfalso; exact (escape_not_unreserved _ _ _ _ U Ee').
    + exfalso; exact (escape_not_unreserved _ _ _ _ U Ee').
    + exfalso; symmetry in Ee'; exact (escape_not_unreserved _ _ _ _ U' Ee').
    + apply percentEncode_app_inj in Ee'; [|lia|lia].
      destruct Ee' as [-> <-].
      rewrite (IH t t' e1); [reflexivity | lia | assumption ..].
    + apply percentEncode_app_inj in Ee'; [|lia|lia].
      destruct Ee' as [Ecp _]; exfalso; lia.
    + exfalso; symmetry in Ee'; exact (escape_not_unreserved _ _ _ _ U' Ee').
    + apply percentEncode_app_inj in Ee'; [|lia|lia].
      destruct Ee' as [Ecp _]; exfalso; lia.
    + apply percentEncode_app_inj in Ee'; [|lia|lia].
      destruct Ee' as [Ecp <-].
      assert (c = c' /\ d = d') as [-> ->] by lia.
      subst t t'.
      inversion Ht as [|? ? _ Hu]; inversion Ht' as [|? ? _ Hu']; subst.
      cbn [List.length] in Hn.
      rewrite (IH u u' e1); [reflexivity | lia | assumption ..].
Qed.

Lemma encodeURIComponent_injective (s s' e : jsstring) :
  wellFormed s -> wellFormed s' ->
  encodeURIComponent s = Some e -> encodeURIComponent s' = Some e ->
  s = s'.
Proof.
  apply (encodeURIComponent_injective_upto (List.length s)); lia.
Qed.

End EncodingInjective.

(** X19: the proxied form loses nothing but the scheme.  Two references
    (strings of code units) for which [buildProxyUrl] returns the same
    relay URL are equal once their scheme is stripped: the
    percent-encoding is injective, so the relay is never asked for one
    image under the URL of another.  Two remote references with the same
    proxied form differ at most in their scheme. *)
Theorem buildProxyUrl_injective (v v' r : jsstring)
  (Hwf : wellFormed v) (Hwf' : wellFormed v')
  (Hr : buildProxyUrl v = Return r) (Hr' : buildProxyUrl v' = Return r) :
  stripScheme v = stripScheme v'
  /\ (isRemoteUrl v = true -> isRemoteUrl v' = true ->
      exists letters letters' rest,
        v = letters ++ js "://" ++ rest
        /\ v' = letters' ++ js "://" ++ rest).
Proof.
  assert (Same : stripScheme v = stripScheme v').
  { revert Hr Hr'; unfold buildProxyUrl.
    destruct (encodeURIComponent (stripScheme v)) as [e|] eqn:E;
      [|discriminate].
    destruct (encodeURIComponent (stripScheme v')) as [e'|] eqn:E';
      [|discriminate].
    intros H H'; apply return_inj in H; apply return_inj in H'.
    rewrite <- H' in H; apply app_inv_head in H; subst e'.
    apply (encodeURIComponent_injective _ _ e);
      [apply stripScheme_wellFormed | apply stripScheme_wellFormed | |];
      assumption. }
  split; [exact Same|].
  intros R R'.
  destruct (stripScheme_remote _ R) as (l & E & _).
  destruct (stripScheme_remote _ R') as (l' & E' & _).
  exists l, l', (stripScheme v); split; [exact E|].
  rewrite Same; exact E'.
Qed.

Lemma buildProxyUrl_injective_witness :
  buildProxyUrl (js "http://a.io/x y.png")
  = Return (js "https://images.weserv.nl/?url=a.io%2Fx%20y.png")
  /\ buildProxyUrl (js "HTTPS://a.io/x y.png")
     = Return (js "https://images.weserv.nl/?url=a.io%2Fx%20y.png")
  /\ stripScheme (js "http://a.io/x y.png")
     = stripScheme (js "HTTPS://a.io/x y.png").
Proof.
  assert (W : forall s, forallb (fun c => N.ltb c 65536) s = true ->
                        wellFormed s).
  { intros s H; unfold wellFormed; apply Forall_forall; intros x Hx.
    rewrite forallb_forall in H; apply N.ltb_lt, H, Hx. }
  split; [reflexivity|]; split; [reflexivity|].
  exact (proj1 (buildProxyUrl_injective (js "http://a.io/x y.png")
                  (js "HTTPS://a.io/x y.png")
                  (js "https://images.weserv.nl/?url=a.io%2Fx%20y.png")
                  (W (js "http://a.io/x y.png") eq_refl)
                  (W (js "HTTPS://a.io/x y.png") eq_refl) eq_refl eq_refl)).
Defined.
